(** * PhraseTools: the phrase collection engine

    A shallow embedding of the state-management core of the application
    (src/main.py, src/main_improved.py, src/main_merged.py and
    src/main_merged_qt5.py): the [PhraseProcessor] transformations, the
    [HistoryManager] undo/redo stack, the [Folder] container, the
    copy/move-to-folder action and the session loader.

    Python values are embedded as follows.
    - [str] is a sequence of Unicode code points ([list N]); [len] is
      [length].
    - [int] is [Z].
    - a phrase entry [Tuple[str, int]] is a pair [str * Z].
    - [set] is [gset], a [dict] keyed by names is [gmap]; a [dict] whose
      iteration order is observed is an association list in insertion order.
    - an exception is the [Raise] outcome of the [outcome] type. *)

From Stdlib Require Import ZArith NArith Ascii String.
From stdpp Require Import gmap list sorting.

Open Scope Z_scope.

(** ** Python strings *)

Definition char := N.
Definition str := list N.
Definition entry : Type := str * Z.

(** String literals of this file are UTF-8 byte strings; [u8] decodes them
    into code points, so that [u8 "дом"] has length 3. *)
Definition utf8_step (st : list N * N * nat) (b : N) : list N * N * nat :=
  let '(out, cur, need) := st in
  match need with
  | O =>
      if (b <? 128)%N then (b :: out, 0%N, O)
      else if (b <? 224)%N then (out, N.land b 31, 1%nat)
      else if (b <? 240)%N then (out, N.land b 15, 2%nat)
      else (out, N.land b 7, 3%nat)
  | S O => ((cur * 64 + N.land b 63)%N :: out, 0%N, O)
  | S n => (out, (cur * 64 + N.land b 63)%N, n)
  end.

Definition u8 (s : string) : str :=
  let bytes := List.map N_of_ascii (list_ascii_of_string s) in
  let '(out, _, _) := fold_left utf8_step bytes ([], 0%N, O) in
  reverse out.

(** [str.isspace] for one code point: the Unicode white space of CPython
    ([Py_UNICODE_ISSPACE]); [str.split()], [str.strip()] and the regular
    expression class [\s] all use it. *)
Definition isspace (c : char) : bool :=
  ((9 <=? c) && (c <=? 13) || (28 <=? c) && (c <=? 32) || (c =? 133)
   || (c =? 160) || (c =? 5760) || (8192 <=? c) && (c <=? 8202)
   || (c =? 8232) || (c =? 8233) || (c =? 8239) || (c =? 8287)
   || (c =? 12288))%N.

Fixpoint lstrip (s : str) : str :=
  match s with
  | c :: s' => if isspace c then lstrip s' else s
  | [] => []
  end.

Definition rstrip (s : str) : str := reverse (lstrip (reverse s)).

(** [s.strip()] *)
Definition strip (s : str) : str := rstrip (lstrip s).

(** [s.split()]: the maximal runs of characters that are not white space.
    [cur] is the token being read, reversed. *)
Fixpoint split_from (cur : str) (s : str) : list str :=
  match s with
  | [] => match cur with [] => [] | _ => [reverse cur] end
  | c :: s' =>
      if isspace c
      then match cur with
           | [] => split_from [] s'
           | _ => reverse cur :: split_from [] s'
           end
      else split_from (c :: cur) s'
  end.

Definition split (s : str) : list str := split_from [] s.

(** [needle in hay] for strings *)
Fixpoint str_contains (needle hay : str) : bool :=
  if bool_decide (needle `prefix_of` hay) then true
  else match hay with
       | [] => false
       | _ :: hay' => str_contains needle hay'
       end.

(** ** Exceptions *)

Inductive exn :=
  | IndexError | KeyError | TypeError | ValueError | AttributeError
  | OSError | UnpicklingError | LibraryError.

Inductive outcome (A : Type) :=
  | Ret (a : A)
  | Raise (e : exn).
Arguments Ret {A} a.
Arguments Raise {A} e.

Definition obind {A B} (m : outcome A) (k : A -> outcome B) : outcome B :=
  match m with
  | Ret a => k a
  | Raise e => Raise e
  end.

Definition omap_outcome {A B} (f : A -> B) (m : outcome A) : outcome B :=
  obind m (fun a => Ret (f a)).

(** [try: body  except: handler] with a bare [except] *)
Definition try_except {A} (body : outcome A) (handler : exn -> outcome A)
  : outcome A :=
  match body with
  | Ret a => Ret a
  | Raise e => handler e
  end.

#[export] Instance outcome_ret : MRet outcome := @Ret.
#[export] Instance outcome_bind : MBind outcome :=
  fun A B k m => obind m k.
#[export] Instance outcome_fmap : FMap outcome := @omap_outcome.

(** ** HistoryManager (main.py 51-96, main_merged_qt5.py 407-450) *)

Module History.

(** A snapshot is a list of entries; [copy.deepcopy] of a list of tuples of
    immutable values yields an equal, independent value, so it is the
    identity here. *)
Definition state := list entry.

Definition deepcopy (s : state) : state := s.

(** [collections.deque(maxlen=n)]: appending to a full deque discards
    items from the left end. *)
Definition deque_append (maxlen : nat) (d : list state) (x : state)
  : list state :=
  let d' := d ++ [x] in drop (length d' - maxlen) d'.

(** [d[i]] with Python's index rule *)
Definition deque_get (d : list state) (i : Z) : outcome state :=
  let n := Z.of_nat (length d) in
  let j := if i <? 0 then i + n else i in
  if (0 <=? j) && (j <? n)
  then match d !! Z.to_nat j with
       | Some s => Ret s
       | None => Raise IndexError
       end
  else Raise IndexError.

Record HistoryManager := mkHistory {
  history : list state;
  maxlen : nat;
  current_index : Z;
  initial_state : option state
}.

(** [HistoryManager(max_history)] *)
Definition init (max_history : nat) : HistoryManager :=
  mkHistory [] max_history (-1) None.

Definition set_initial_state (h : HistoryManager) (s : state)
  : HistoryManager :=
  mkHistory (deque_append (maxlen h) [] (deepcopy s)) (maxlen h) 0
            (Some (deepcopy s)).

(** [while len(self.history) > self.current_index + 1: self.history.pop()],
    on the reversed deque; [pop] on an empty deque raises. *)
Fixpoint pop_while_rev (r : list state) (idx : Z) : outcome (list state) :=
  match r with
  | [] => if 0 >? idx + 1 then Raise IndexError else Ret []
  | _ :: r' =>
      if Z.of_nat (length r) >? idx + 1 then pop_while_rev r' idx
      else Ret r
  end.

Definition pop_while (d : list state) (idx : Z) : outcome (list state) :=
  reverse <$> pop_while_rev (reverse d) idx.

Definition add_state (h : HistoryManager) (s : state)
  : outcome HistoryManager :=
  d ← pop_while (history h) (current_index h);
  let d' := deque_append (maxlen h) d (deepcopy s) in
  Ret (mkHistory d' (maxlen h) (Z.of_nat (length d') - 1)
                 (initial_state h)).

Definition undo (h : HistoryManager)
  : HistoryManager * outcome (option state) :=
  if current_index h >? 0 then
    let h' := mkHistory (history h) (maxlen h) (current_index h - 1)
                        (initial_state h) in
    (h', (fun s => Some (deepcopy s))
           <$> deque_get (history h') (current_index h'))
  else (h, Ret None).

Definition redo (h : HistoryManager)
  : HistoryManager * outcome (option state) :=
  if current_index h <? Z.of_nat (length (history h)) - 1 then
    let h' := mkHistory (history h) (maxlen h) (current_index h + 1)
                        (initial_state h) in
    (h', (fun s => Some (deepcopy s))
           <$> deque_get (history h') (current_index h'))
  else (h, Ret None).

Definition can_undo (h : HistoryManager) : bool := current_index h >? 0.

Definition can_redo (h : HistoryManager) : bool :=
  current_index h <? Z.of_nat (length (history h)) - 1.

End History.

(** ** Folder (main_merged.py 54-72, main_merged_qt5.py 386-404) *)

Module Folder.

Record Folder := mkFolder {
  name : str;
  phrases : list entry
}.

Definition new (n : str) : Folder := mkFolder n [].

(** [if (phrase, frequency) not in self.phrases: self.phrases.append(...)] *)
Definition add_phrase (fd : Folder) (phrase : str) (frequency : Z)
  : Folder :=
  if bool_decide ((phrase, frequency) ∈ phrases fd) then fd
  else mkFolder (name fd) (phrases fd ++ [(phrase, frequency)]).

Definition remove_phrase (fd : Folder) (phrase : str) : Folder :=
  mkFolder (name fd)
           (List.filter (fun e => negb (bool_decide (e.1 = phrase)))
                        (phrases fd)).

Definition clear (fd : Folder) : Folder := mkFolder (name fd) [].

End Folder.

(** ** The platform: Unicode tables and the transliteration package

    [str.lower], [str.upper] and [str.isalnum] are CPython's Unicode tables
    and [translit] is the [transliterate] package (language pack ['ru'],
    with its [reversed] flag); none of them is part of the repository, so
    the processor is written over this interface. *)
Class Platform := {
  lower : str -> str;
  upper : str -> str;
  isalnum : char -> bool;
  translit : str -> bool -> outcome str
}.

(** ** PhraseProcessor (main.py 99-212, main_merged_qt5.py 463-564) *)

Module PhraseProcessor.
Section Processor.
Context `{P : Platform}.

(** The key under which [remove_duplicates] and the move action compare
    texts: [phrase.lower().strip()]. *)
Definition norm_key (phrase : str) : str := strip (lower phrase).

(** The [for] loop of [remove_duplicates]; [seen] and [result] are the
    two accumulators. *)
Fixpoint remove_duplicates_loop (seen : gset str) (result : list entry)
         (phrases : list entry) : list entry :=
  match phrases with
  | [] => result
  | (phrase, freq) :: rest =>
      let phrase_lower := strip (lower phrase) in
      if bool_decide (phrase_lower ∉ seen)
      then remove_duplicates_loop ({[phrase_lower]} ∪ seen)
                                  (result ++ [(strip phrase, freq)]) rest
      else remove_duplicates_loop seen result rest
  end.

Definition remove_duplicates (phrases : list entry) : list entry :=
  remove_duplicates_loop ∅ [] phrases.

(** *** [sorted(..., key=..., reverse=...)]

    Python's sort is stable, also with [reverse=True]; [before ky kx]
    tells that an element with key [ky] goes strictly before one with key
    [kx]. *)
Fixpoint str_lt (a b : str) : bool :=
  match a, b with
  | _, [] => false
  | [], _ :: _ => true
  | x :: a', y :: b' =>
      if (x <? y)%N then true
      else if (y <? x)%N then false
      else str_lt a' b'
  end.

Section Sorted.
Context {K : Type} (key : entry -> K) (before : K -> K -> bool).

Fixpoint sorted_insert (x : entry) (l : list entry) : list entry :=
  match l with
  | [] => [x]
  | y :: l' =>
      if before (key y) (key x) then y :: sorted_insert x l'
      else x :: l
  end.

Definition sorted (l : list entry) : list entry :=
  foldr sorted_insert [] l.
End Sorted.

Definition sort_phrases_alphabetically (phrases : list entry)
           (reverse : bool) : list entry :=
  sorted (fun x => lower x.1)
         (fun a b => if reverse then str_lt b a else str_lt a b) phrases.

Definition sort_phrases_by_frequency (phrases : list entry)
           (reverse : bool) : list entry :=
  sorted (fun x => x.2)
         (fun a b => if reverse then b <? a else a <? b) phrases.

(** *** transliteration *)

(** [re.search('[а-яА-Я]', phrase)] *)
Definition is_cyrillic (c : char) : bool :=
  ((1072 <=? c) && (c <=? 1103) || (1040 <=? c) && (c <=? 1071))%N.

Definition has_cyrillic (phrase : str) : bool := existsb is_cyrillic phrase.

(** main.py, main_improved.py and main_merged.py *)
Fixpoint transliterate_loop (reverse : bool) (result : list entry)
         (phrases : list entry) : outcome (list entry) :=
  match phrases with
  | [] => Ret result
  | (phrase, freq) :: rest =>
      result' ←
        try_except
          (if reverse then
             if negb (has_cyrillic phrase) then
               t ← translit phrase false; Ret (result ++ [(t, freq)])
             else Ret (result ++ [(phrase, freq)])
           else
             if has_cyrillic phrase then
               t ← translit phrase true; Ret (result ++ [(t, freq)])
             else Ret (result ++ [(phrase, freq)]))
          (fun _ => Ret (result ++ [(phrase, freq)]));
      transliterate_loop reverse result' rest
  end.

Definition transliterate_phrases (phrases : list entry) (reverse : bool)
  : outcome (list entry) :=
  transliterate_loop reverse [] phrases.

(** main_merged_qt5.py *)
Fixpoint transliterate_loop_qt5 (reverse : bool) (result : list entry)
         (phrases : list entry) : outcome (list entry) :=
  match phrases with
  | [] => Ret result
  | (phrase, freq) :: rest =>
      result' ←
        try_except
          (if reverse then
             t ← translit phrase true; Ret (result ++ [(t, freq)])
           else
             t ← translit phrase false; Ret (result ++ [(t, freq)]))
          (fun _ => Ret (result ++ [(phrase, freq)]));
      transliterate_loop_qt5 reverse result' rest
  end.

Definition transliterate_phrases_qt5 (phrases : list entry)
           (reverse : bool) : outcome (list entry) :=
  transliterate_loop_qt5 reverse [] phrases.

(** What one turn of each loop appends for an entry: the converted text
    when the converter is called and returns, the entry itself
    otherwise. *)
Definition transliterate_entry (reverse : bool) (e : entry) : entry :=
  let converted :=
    if reverse then
      if negb (has_cyrillic e.1) then translit e.1 false else Ret e.1
    else
      if has_cyrillic e.1 then translit e.1 true else Ret e.1 in
  match converted with
  | Ret t => (t, e.2)
  | Raise _ => e
  end.

Definition transliterate_entry_qt5 (reverse : bool) (e : entry) : entry :=
  match (if reverse then translit e.1 true else translit e.1 false) with
  | Ret t => (t, e.2)
  | Raise _ => e
  end.

(** *** stop words *)

(** main.py, main_improved.py and main_merged.py: whole tokens *)
Definition filter_by_stop_words (phrases : list entry)
           (stop_words : gset str) : list entry :=
  if bool_decide (stop_words = ∅) then phrases
  else
    List.filter
      (fun e : entry =>
         let phrase_words : gset str := list_to_set (split (lower e.1)) in
         bool_decide (phrase_words ∩ stop_words = ∅))
      phrases.

(** main_merged_qt5.py: substrings *)
Definition filter_by_stop_words_qt5 (phrases : list entry)
           (stop_words : gset str) : list entry :=
  if bool_decide (stop_words = ∅) then phrases
  else
    List.filter
      (fun e : entry =>
         let phrase_lower := lower e.1 in
         negb (existsb (fun stop => str_contains (lower stop) phrase_lower)
                       (elements stop_words)))
      phrases.

(** *** special characters *)

(** the class [\w]: alphanumeric or the underscore *)
Definition is_word (c : char) : bool := isalnum c || (c =? 95)%N.

(** [re.sub(r'[^\w\s]', ' ', phrase)] *)
Definition sub_special (phrase : str) : str :=
  List.map (fun c => if is_word c || isspace c then c else 32%N) phrase.

(** [re.sub(r'\s+', ' ', cleaned)]; [in_run] tells that the previous
    character belongs to a run that was already replaced. *)
Fixpoint sub_spaces_from (in_run : bool) (s : str) : str :=
  match s with
  | [] => []
  | c :: s' =>
      if isspace c
      then if in_run then sub_spaces_from true s'
           else 32%N :: sub_spaces_from true s'
      else c :: sub_spaces_from false s'
  end.

Definition sub_spaces (s : str) : str := sub_spaces_from false s.

Definition clean (phrase : str) : str :=
  strip (sub_spaces (sub_special phrase)).

Definition remove_special_chars (phrases : list entry) : list entry :=
  omap (fun e : entry =>
          let cleaned := clean e.1 in
          match cleaned with
          | [] => None
          | _ => Some (cleaned, e.2)
          end) phrases.

Definition convert_case (phrases : list entry) (to_upper : bool)
  : list entry :=
  List.map (fun e : entry =>
              if to_upper then (upper e.1, e.2) else (lower e.1, e.2))
           phrases.

Definition remove_long_phrases (phrases : list entry) (max_words : Z)
  : list entry :=
  List.filter (fun e : entry => Z.of_nat (length (split e.1)) <=? max_words)
              phrases.

(** *** grouping *)

(** [d[k] += 1] on a [defaultdict(int)] kept in insertion order *)
Fixpoint dict_incr (d : list (str * Z)) (k : str) : list (str * Z) :=
  match d with
  | [] => [(k, 0 + 1)]
  | (k', n) :: d' =>
      if bool_decide (k' = k) then (k', n + 1) :: d'
      else (k', n) :: dict_incr d' k
  end.

(** [d[k].append(x)] on a [defaultdict(list)] kept in insertion order *)
Fixpoint dict_append (d : list (str * list entry)) (k : str) (x : entry)
  : list (str * list entry) :=
  match d with
  | [] => [(k, [] ++ [x])]
  | (k', v) :: d' =>
      if bool_decide (k' = k) then (k', v ++ [x]) :: d'
      else (k', v) :: dict_append d' k x
  end.

Fixpoint dict_get {V} (d : list (str * V)) (k : str) : option V :=
  match d with
  | [] => None
  | (k', v) :: d' => if bool_decide (k' = k) then Some v else dict_get d' k
  end.

(** the inner loop: count the words longer than 3 characters *)
Definition count_words (words : list str) : list (str * Z) :=
  fold_left (fun word_freq word =>
               if (3 <? length word)%nat then dict_incr word_freq word
               else word_freq)
            words [].

(** [max(iterable, key=len)]: the first item of maximal length *)
Definition max_by_len (first : str) (others : list str) : str :=
  fold_left (fun best w => if (length best <? length w)%nat then w else best)
            others first.

Definition other_bucket : str := u8 "другое".

(** the key under which one phrase is filed *)
Definition main_word (phrase : str) : str :=
  let words := split (lower phrase) in
  let word_freq := count_words words in
  match List.map fst word_freq with
  | k :: ks => max_by_len k ks
  | [] => other_bucket
  end.

Definition group_phrases (phrases : list entry)
  : list (str * list entry) :=
  fold_left (fun groups e => dict_append groups (main_word e.1) e)
            phrases [].

End Processor.
End PhraseProcessor.

(** ** A concrete platform for evaluation

    The case and alphanumeric tables restricted to Basic Latin and the
    Russian alphabet (on these blocks they agree with CPython's), and a
    letter-by-letter converter standing for the ['ru'] language pack. *)
Module Basic.

Definition lower_char (c : char) : char :=
  (if (65 <=? c) && (c <=? 90) then c + 32
   else if (1040 <=? c) && (c <=? 1071) then c + 32
   else if c =? 1025 then 1105
   else c)%N.

Definition upper_char (c : char) : char :=
  (if (97 <=? c) && (c <=? 122) then c - 32
   else if (1072 <=? c) && (c <=? 1103) then c - 32
   else if c =? 1105 then 1025
   else c)%N.

Definition isalnum_char (c : char) : bool :=
  ((48 <=? c) && (c <=? 57) || (65 <=? c) && (c <=? 90)
   || (97 <=? c) && (c <=? 122) || (1040 <=? c) && (c <=? 1103)
   || (c =? 1025) || (c =? 1105))%N.

(** pairs (Latin, Cyrillic) of lower-case letters *)
Definition letter_pairs : list (char * char) :=
  combine (u8 "abvgdezijklmnoprstufh") (u8 "абвгдезийклмнопрстуфх").

Definition to_cyrillic (c : char) : char :=
  match List.find (fun p : char * char => (p.1 =? c)%N) letter_pairs with
  | Some p => p.2
  | None => c
  end.

Definition to_latin (c : char) : char :=
  match List.find (fun p : char * char => (p.2 =? c)%N) letter_pairs with
  | Some p => p.1
  | None => c
  end.

Definition translit_letters (s : str) (reversed : bool) : outcome str :=
  Ret (List.map (if reversed then to_latin else to_cyrillic) s).

Definition platform : Platform :=
  {| lower := List.map lower_char;
     upper := List.map upper_char;
     isalnum := isalnum_char;
     translit := translit_letters |}.

(** the same tables with a converter that always fails *)
Definition failing_platform : Platform :=
  {| lower := List.map lower_char;
     upper := List.map upper_char;
     isalnum := isalnum_char;
     translit := fun _ _ => Raise LibraryError |}.

End Basic.

(** ** The copy/move-to-folder action (main_merged_qt5.py 2177-2202)

    The part of [MainWindow] the action reads and writes: the phrase lists,
    the two folder widgets, the tabs with their tables.  Rendering
    ([update_tree], the rows of [update_table], the counters) changes no
    data and is left out; a signal runs its connected slot at once. *)
Module Window.
Section Window.
Context `{P : Platform}.

Import History Folder.

Record PhraseList := mkPhraseList {
  pl_name : str;
  pl_phrases : list entry;
  pl_stop_words : gset str;
  pl_folders : gmap str Folder;
  pl_history : HistoryManager
}.

Record MainPhraseTable := mkTable {
  current_data : list entry;
  t_history : HistoryManager;
  t_folders : gmap str Folder;
  t_global_folders : gmap str Folder
}.

Record PhraseTab := mkTab {
  tab_name : str;
  table : MainPhraseTable
}.

(** [folders_widget] and [general_folders] are the [folders] of the two
    folder widgets, [stop_words_widget] the words of the stop-word widget,
    [currentIndex] is [self.phrase_tabs.currentIndex()], -1 without tabs. *)
Record MainWindow := mkWindow {
  phrase_lists : gmap str PhraseList;
  global_folders : gmap str Folder;
  folders_widget : gmap str Folder;
  general_folders : gmap str Folder;
  stop_words_widget : gset str;
  phrase_tabs : list PhraseTab;
  currentIndex : Z
}.

(** [FoldersWidget.add_phrases_to_folder], the loop over [data] *)
Definition add_phrases_to_folder (folders : gmap str Folder)
           (data : list (str * str * Z)) : gmap str Folder :=
  fold_left
    (fun fs d =>
       let '(folder_name, phrase, freq) := d in
       match fs !! folder_name with
       | Some fd => <[folder_name := add_phrase fd phrase freq]> fs
       | None => fs
       end)
    data folders.

(** [FoldersWidget.get_folders]: a deep copy of every folder *)
Definition get_folders (folders : gmap str Folder) : gmap str Folder :=
  folders.

(** [self.phrase_tabs.currentWidget()] *)
Definition get_current_tab (w : MainWindow) : option PhraseTab :=
  if currentIndex w <? 0 then None
  else phrase_tabs w !! Z.to_nat (currentIndex w).

Definition get_current_table (w : MainWindow) : option MainPhraseTable :=
  table <$> get_current_tab w.

(** [self.phrase_lists[tab.name]] *)
Definition get_current_phrase_list (w : MainWindow)
  : outcome (option PhraseList) :=
  match get_current_tab w with
  | Some tab =>
      match phrase_lists w !! tab_name tab with
      | Some pl => Ret (Some pl)
      | None => Raise KeyError
      end
  | None => Ret None
  end.

(** write the table of the current tab back into the tab widget *)
Definition set_current_table (w : MainWindow) (t : MainPhraseTable)
  : MainWindow :=
  match get_current_tab w with
  | Some tab =>
      mkWindow (phrase_lists w) (global_folders w) (folders_widget w)
               (general_folders w) (stop_words_widget w)
               (<[Z.to_nat (currentIndex w) := mkTab (tab_name tab) t]>
                  (phrase_tabs w))
               (currentIndex w)
  | None => w
  end.

Definition set_phrase_list (w : MainWindow) (pl_key : str)
           (pl : PhraseList) : MainWindow :=
  mkWindow (<[pl_key := pl]> (phrase_lists w)) (global_folders w)
           (folders_widget w) (general_folders w) (stop_words_widget w)
           (phrase_tabs w) (currentIndex w).

(** slot of [folders_widget.folders_changed] *)
Definition update_current_table_folders (w : MainWindow) : MainWindow :=
  match get_current_table w with
  | Some t =>
      set_current_table w
        (mkTable (current_data t) (t_history t) (folders_widget w)
                 (t_global_folders t))
  | None => w
  end.

(** slot of [general_folders.folders_changed] *)
Definition update_all_tables_global_folders (w : MainWindow)
  : MainWindow :=
  let gf := get_folders (general_folders w) in
  mkWindow (phrase_lists w) gf (folders_widget w) (general_folders w)
           (stop_words_widget w)
           (List.map
              (fun tab =>
                 let t := table tab in
                 mkTab (tab_name tab)
                       (mkTable (current_data t) (t_history t)
                                (t_folders t) gf))
              (phrase_tabs w))
           (currentIndex w).

Definition sync_current_tab (w : MainWindow) : MainWindow :=
  match get_current_tab w with
  | Some tab =>
      match phrase_lists w !! tab_name tab with
      | Some pl =>
          set_phrase_list w (tab_name tab)
            (mkPhraseList (pl_name pl) (current_data (table tab))
                          (stop_words_widget w)
                          (get_folders (folders_widget w))
                          (t_history (table tab)))
      | None => w
      end
  | None => w
  end.

(** [update_grouping_widget] and [update_global_grouping] synchronise the
    current tab and then redraw. *)
Definition update_grouping_widget (w : MainWindow) : MainWindow :=
  sync_current_tab w.

Definition update_global_grouping (w : MainWindow) : MainWindow :=
  sync_current_tab w.

(** [MainPhraseTable.save_state] *)
Definition save_state (t : MainPhraseTable) : outcome MainPhraseTable :=
  h ← add_state (t_history t) (current_data t);
  Ret (mkTable (current_data t) h (t_folders t) (t_global_folders t)).

(** the first [if]/[else] of [on_phrases_to_folder]: the phrases go to
    the global or to the local folder *)
Definition add_to_target (w : MainWindow) (folder_name : str)
           (phrases : list entry) (is_global : bool) : outcome MainWindow :=
  let data := List.map (fun e : entry => (folder_name, e.1, e.2)) phrases in
  if is_global then
    let w' :=
      mkWindow (phrase_lists w) (global_folders w) (folders_widget w)
               (add_phrases_to_folder (general_folders w) data)
               (stop_words_widget w) (phrase_tabs w) (currentIndex w) in
    let w' := update_all_tables_global_folders w' in
    Ret (mkWindow (phrase_lists w') (get_folders (general_folders w'))
                  (folders_widget w') (general_folders w')
                  (stop_words_widget w') (phrase_tabs w')
                  (currentIndex w'))
  else
    let w' :=
      mkWindow (phrase_lists w) (global_folders w)
               (add_phrases_to_folder (folders_widget w) data)
               (general_folders w) (stop_words_widget w)
               (phrase_tabs w) (currentIndex w) in
    let w' := update_current_table_folders w' in
    current_list ← get_current_phrase_list w';
    match current_list, get_current_tab w' with
    | Some pl, Some tab =>
        Ret (set_phrase_list w' (tab_name tab)
               (mkPhraseList (pl_name pl) (pl_phrases pl)
                             (pl_stop_words pl)
                             (get_folders (folders_widget w'))
                             (pl_history pl)))
    | _, _ => Ret w'
    end.

(** the block under [if is_move:] *)
Definition remove_from_source (w1 : MainWindow) (phrases : list entry)
  : outcome MainWindow :=
  match get_current_table w1 with
  | Some current_table =>
      t ← save_state current_table;
      let phrases_set : gset str :=
        list_to_set (List.map (fun e : entry => strip (lower e.1))
                              phrases) in
      let data' :=
        List.filter
          (fun e : entry =>
             bool_decide (strip (lower e.1) ∉ phrases_set))
          (current_data t) in
      let t' := mkTable data' (t_history t) (t_folders t)
                        (t_global_folders t) in
      let w2 := set_current_table w1 t' in
      current_list ← get_current_phrase_list w2;
      let w3 :=
        match current_list, get_current_tab w2 with
        | Some pl, Some tab =>
            set_phrase_list w2 (tab_name tab)
              (mkPhraseList (pl_name pl) (current_data t')
                            (pl_stop_words pl) (pl_folders pl)
                            (pl_history pl))
        | _, _ => w2
        end in
      Ret (update_global_grouping (update_grouping_widget w3))
  | None => Ret w1
  end.

Definition on_phrases_to_folder (w : MainWindow) (folder_name : str)
           (phrases : list entry) (is_global is_move : bool)
  : outcome MainWindow :=
  w1 ← add_to_target w folder_name phrases is_global;
  if is_move then remove_from_source w1 phrases else Ret w1.

(** the folder widget an action with flag [is_global] writes to *)
Definition target_folders (is_global : bool) (w : MainWindow)
  : gmap str Folder :=
  if is_global then general_folders w else folders_widget w.

(** The invariants of a running window that the action relies on: the
    current tab has a phrase list and the cursor of its history is at
    least -1. *)
Definition window_ok (w : MainWindow) : bool :=
  match get_current_tab w with
  | Some tab =>
      bool_decide (is_Some (phrase_lists w !! tab_name tab))
      && (-1 <=? History.current_index (t_history (table tab)))
  | None => false
  end.

(** the current tab of [w1] shows the same list as [tab] *)
Definition same_source (w1 : MainWindow) (tab : PhraseTab) : Prop :=
  exists tab1,
    get_current_tab w1 = Some tab1 /\
    tab_name tab1 = tab_name tab /\
    current_data (table tab1) = current_data (table tab) /\
    t_history (table tab1) = t_history (table tab).

(** a folder after [add_phrase] of every selected pair, in order *)
Definition add_all (fd : Folder) (phrases : list entry) : Folder :=
  fold_left (fun fd (e : entry) => add_phrase fd e.1 e.2) phrases fd.

(** the entries whose trimmed, lower-cased text is not that of any of
    the moved phrases *)
Definition not_moved (phrases : list entry) (data : list entry)
  : list entry :=
  List.filter
    (fun e : entry =>
       negb (existsb
               (fun m : entry =>
                  bool_decide (strip (lower e.1) = strip (lower m.1)))
               phrases))
    data.

(** The folders of the data model that an action with flag [is_global]
    writes to: the global folder mapping of the window, or the folders
    owned by the phrase list [name]. *)
Definition stored_folders (is_global : bool) (w : MainWindow) (name : str)
  : option (gmap str Folder) :=
  if is_global then Some (global_folders w)
  else pl_folders <$> phrase_lists w !! name.

(** The folders the tables work with agree with the widget: every table
    has the folders of the global widget as its global folders, or the
    current table has the folders of the local widget as its folders. *)
Definition shown_folders_agree (is_global : bool) (w : MainWindow) : Prop :=
  if is_global
  then Forall (fun tab => t_global_folders (table tab) = general_folders w)
              (phrase_tabs w)
  else exists tab, get_current_tab w = Some tab /\
                   t_folders (table tab) = folders_widget w.

(** the history of a table after [save_state] *)
Definition saved_history (t : MainPhraseTable) : HistoryManager :=
  let h := t_history t in
  let d := deque_append (maxlen h)
             (take (Z.to_nat (History.current_index h + 1)) (history h))
             (current_data t) in
  mkHistory d (maxlen h) (Z.of_nat (length d) - 1) (initial_state h).

(** The window after a copy of [phrases] to the folder [fd] named
    [folder_name], written out: [tab] is the current tab and [pl] its
    phrase list. *)
Definition after_copy (is_global : bool) (w : MainWindow) (tab : PhraseTab)
           (pl : PhraseList) (folder_name : str) (fd : Folder)
           (phrases : list entry) : MainWindow :=
  let folders' :=
    <[folder_name := add_all fd phrases]> (target_folders is_global w) in
  if is_global then
    mkWindow (phrase_lists w) folders' (folders_widget w) folders'
             (stop_words_widget w)
             (List.map
                (fun t =>
                   mkTab (tab_name t)
                         (mkTable (current_data (table t))
                                  (t_history (table t))
                                  (t_folders (table t)) folders'))
                (phrase_tabs w))
             (currentIndex w)
  else
    mkWindow (<[tab_name tab :=
                  mkPhraseList (pl_name pl) (pl_phrases pl)
                               (pl_stop_words pl) folders' (pl_history pl)]>
                (phrase_lists w))
             (global_folders w) folders' (general_folders w)
             (stop_words_widget w)
             (<[Z.to_nat (currentIndex w) :=
                  mkTab (tab_name tab)
                        (mkTable (current_data (table tab))
                                 (t_history (table tab)) folders'
                                 (t_global_folders (table tab)))]>
                (phrase_tabs w))
             (currentIndex w).

(** The window after the moved [phrases] have been taken out of the
    current list, written out: [tab] is the current tab of [w] and [pl]
    its phrase list.  The table has saved its data and shows the entries
    that are left; the list holds them too, with the history of the
    table and the stop words and folders of the widgets. *)
Definition after_removal (w : MainWindow) (tab : PhraseTab)
           (pl : PhraseList) (phrases : list entry) : MainWindow :=
  let data' := not_moved phrases (current_data (table tab)) in
  let h' := saved_history (table tab) in
  mkWindow (<[tab_name tab :=
                mkPhraseList (pl_name pl) data' (stop_words_widget w)
                             (folders_widget w) h']>
              (phrase_lists w))
           (global_folders w) (folders_widget w) (general_folders w)
           (stop_words_widget w)
           (<[Z.to_nat (currentIndex w) :=
                mkTab (tab_name tab)
                      (mkTable data' h' (t_folders (table tab))
                               (t_global_folders (table tab)))]>
              (phrase_tabs w))
           (currentIndex w).

(** The window [w'] differs from [w] in folders only: the same active
    index and stop words, the same tabs with their data and histories,
    the same phrase lists with their names, phrases, stop words and
    histories. *)
Definition same_but_folders (w w' : MainWindow) : Prop :=
  currentIndex w' = currentIndex w /\
  stop_words_widget w' = stop_words_widget w /\
  Forall2 (fun t' t => tab_name t' = tab_name t /\
                       current_data (table t') = current_data (table t) /\
                       t_history (table t') = t_history (table t))
          (phrase_tabs w') (phrase_tabs w) /\
  forall k,
    option_Forall2
      (fun p' p => pl_name p' = pl_name p /\
                   pl_phrases p' = pl_phrases p /\
                   pl_stop_words p' = pl_stop_words p /\
                   pl_history p' = pl_history p)
      (phrase_lists w' !! k) (phrase_lists w !! k).

(** What "the pairs are added to the target folder" means for the window
    [w'] after the action on [w]: the target widget holds the folder with
    the pairs added and its other folders as before, the other widget is
    as before, and the mapping of the data model (of the list [name] or
    the global one) and the tables hold the same folders as the target
    widget. *)
Definition stored_in_target (is_global : bool) (w w' : MainWindow)
           (name folder_name : str) (fd : Folder) (phrases : list entry)
  : Prop :=
  target_folders is_global w'
    = <[folder_name := add_all fd phrases]> (target_folders is_global w) /\
  target_folders (negb is_global) w' = target_folders (negb is_global) w /\
  stored_folders is_global w' name = Some (target_folders is_global w') /\
  shown_folders_agree is_global w'.

End Window.
End Window.

(** ** Session loading (main_merged_qt5.py 2422-2457)

    [pickle.load] may return any Python object, so the loader is modelled
    over untyped values: the attributes it assigns hold whatever was in the
    file. *)
Module Session.

#[warnings="-register-all"]
Inductive pyval :=
  | PNone
  | PInt (n : Z)
  | PStr (s : str)
  | PTuple (items : list pyval)
  | PList (items : list pyval)
  | PSet (items : list pyval)
  | PDict (items : list (pyval * pyval))
  | PObject (class_name : str) (attrs : list (str * pyval)).

(** The workspace attributes of [MainWindow] and the state of the tab
    widget: the names of the open tabs and the active index. *)
Record MainWindow := mkWindow {
  phrase_lists : pyval;
  global_stop_words : pyval;
  global_folders : pyval;
  current_session_path : option str;
  tab_names : list pyval;
  currentIndex : Z
}.

(** The Qt side of the loader, which is not part of the repository's
    logic: what [removeTab(0)] does besides dropping the first tab (the
    new active index and the [currentChanged] slot), the construction and
    filling of one [PhraseTab], and the reloading of the global widgets
    followed by the activation of the stored tab.  The last two may
    raise. *)
Class Qt := {
  tab_removed : MainWindow -> MainWindow;
  build_tab : pyval -> pyval -> MainWindow -> MainWindow * outcome unit;
  restore_widgets : pyval -> MainWindow -> MainWindow * outcome unit
}.

(** iteration over a value, as sequence unpacking does it *)
Definition iterate (v : pyval) : outcome (list pyval) :=
  match v with
  | PTuple items | PList items | PSet items => Ret items
  | PDict items => Ret (List.map fst items)
  | PStr s => Ret (List.map (fun c => PStr [c]) s)
  | PNone | PInt _ | PObject _ _ => Raise TypeError
  end.

(** [a, b, c, d = v] *)
Definition unpack4 (v : pyval) : outcome (pyval * pyval * pyval * pyval) :=
  items ← iterate v;
  match items with
  | [a; b; c; d] => Ret (a, b, c, d)
  | _ => Raise ValueError
  end.

(** [v.items()] *)
Definition items_of (v : pyval) : outcome (list (pyval * pyval)) :=
  match v with
  | PDict items => Ret items
  | _ => Raise AttributeError
  end.

Section Loader.
Context `{Q : Qt}.

(** [while self.phrase_tabs.count() > 0: self.phrase_tabs.removeTab(0)] *)
Fixpoint clear_tabs (names : list pyval) (w : MainWindow) : MainWindow :=
  match names with
  | [] => w
  | _ :: rest =>
      let w' :=
        tab_removed
          (mkWindow (phrase_lists w) (global_stop_words w)
                    (global_folders w) (current_session_path w) rest
                    (currentIndex w)) in
      clear_tabs rest
        (mkWindow (phrase_lists w') (global_stop_words w')
                  (global_folders w') (current_session_path w') rest
                  (currentIndex w'))
  end.

(** [for name, pl in self.phrase_lists.items(): ...] *)
Fixpoint recreate_tabs (kvs : list (pyval * pyval)) (w : MainWindow)
  : MainWindow * outcome unit :=
  match kvs with
  | [] => (w, Ret ())
  | (name, pl) :: rest =>
      match build_tab name pl w with
      | (w', Ret _) => recreate_tabs rest w'
      | (w', Raise e) => (w', Raise e)
      end
  end.

(** the body of the [try] block; [content] is what opening and
    unpickling the file gives *)
Definition load_session_try (w : MainWindow) (file_path : str)
           (content : outcome pyval) : MainWindow * outcome unit :=
  match v ← content; unpack4 v with
  | Raise e => (w, Raise e)
  | Ret (a, b, c, current_index) =>
      let w1 := mkWindow a b c (current_session_path w) (tab_names w)
                         (currentIndex w) in
      let w2 := clear_tabs (tab_names w1) w1 in
      match items_of (phrase_lists w2) with
      | Raise e => (w2, Raise e)
      | Ret kvs =>
          match recreate_tabs kvs w2 with
          | (w3, Raise e) => (w3, Raise e)
          | (w3, Ret _) =>
              match restore_widgets current_index w3 with
              | (w4, Raise e) => (w4, Raise e)
              | (w4, Ret _) =>
                  (mkWindow (phrase_lists w4) (global_stop_words w4)
                            (global_folders w4) (Some file_path)
                            (tab_names w4) (currentIndex w4), Ret ())
              end
          end
      end
  end.

(** [load_session]: the window afterwards and the error shown to the
    user, if any.  An empty [file_path] is a cancelled dialog. *)
Definition load_session (w : MainWindow) (file_path : str)
           (content : outcome pyval) : MainWindow * option exn :=
  match file_path with
  | [] => (w, None)
  | _ =>
      match load_session_try w file_path content with
      | (w', Ret _) => (w', None)
      | (w', Raise e) => (w', Some e)
      end
  end.

(** the workspace: phrase lists (with their histories), global stop
    words, global folders and the active-list index *)
Definition workspace (w : MainWindow) : pyval * pyval * pyval * Z :=
  (phrase_lists w, global_stop_words w, global_folders w, currentIndex w).

(** the stated contract: a failed load leaves the workspace untouched *)
Definition all_or_nothing : Prop :=
  forall w file_path content w' e,
    load_session w file_path content = (w', Some e) ->
    workspace w' = workspace w.

(** the load failed while opening, reading, unpickling or unpacking *)
Definition fails_before_assignment (content : outcome pyval) (e : exn)
  : Prop :=
  (v ← content; unpack4 v) = Raise e.

(** the file was opened, read, unpickled and unpacked into [a], [b], [c]
    and [current_index] *)
Definition unpacks_to (content : outcome pyval) (a b c current_index : pyval)
  : Prop :=
  (v ← content; unpack4 v) = Ret (a, b, c, current_index).

(** two windows that differ at most in the phrase lists, the global stop
    words and the global folders *)
Definition same_but_lists (w1 w2 : MainWindow) : Prop :=
  current_session_path w1 = current_session_path w2 /\
  tab_names w1 = tab_names w2 /\
  currentIndex w1 = currentIndex w2.

End Loader.

(** a window right after start: no lists, no tabs *)
Definition fresh : MainWindow :=
  mkWindow (PDict []) (PSet []) (PDict []) None [] (-1).

(** a Qt side that does nothing, for evaluation *)
Definition headless : Qt :=
  {| tab_removed := fun w => w;
     build_tab := fun _ _ w => (w, Ret ());
     restore_widgets := fun _ w => (w, Ret ()) |}.

End Session.

(** ** Statements of the specification, for comparison with the code *)
Module Spec.
Section Spec.
Context `{P : Platform}.
Import PhraseProcessor.

(** Deduplication as the specification words it: an entry is kept, as it
    is, exactly when no earlier entry of the input has the same trimmed,
    lower-cased text.  [earlier] is the part of the input already
    passed. *)
Fixpoint first_occurrences_from (earlier : list entry)
         (phrases : list entry) : list entry :=
  match phrases with
  | [] => []
  | e :: rest =>
      if bool_decide (norm_key e.1 ∈ (fun x : entry => norm_key x.1) <$> earlier)
      then first_occurrences_from (earlier ++ [e]) rest
      else e :: first_occurrences_from (earlier ++ [e]) rest
  end.

Definition first_occurrences (phrases : list entry) : list entry :=
  first_occurrences_from [] phrases.

(** an entry with its text trimmed *)
Definition trimmed (e : entry) : entry := (strip e.1, e.2).

(** Whole-token stop-word mode: an entry is removed iff some token of its
    lower-cased text is a stop word. *)
Definition has_stop_token (stop_words : gset str) (e : entry) : bool :=
  existsb (fun t => bool_decide (t ∈ stop_words)) (split (lower e.1)).

(** Group key: among the tokens of the lower-cased text that are longer
    than 3 characters, the first one of maximal length. *)
Definition max_len (l : list str) : nat := foldr Nat.max 0%nat (length <$> l).

Definition first_longest (l : list str) : option str :=
  List.find (fun w => (length w =? max_len l)%nat) l.

Definition long_tokens (phrase : str) : list str :=
  List.filter (fun w => (3 <? length w)%nat) (split (lower phrase)).

Definition group_key (phrase : str) : str :=
  default other_bucket (first_longest (long_tokens phrase)).

(** what reading one more token does to the first longest token *)
Definition pick (o : option str) (w : str) : str :=
  match o with
  | Some b => if (length b <? length w)%nat then w else b
  | None => w
  end.

(** the keys of the counter stand for the long tokens read so far *)
Definition stands_for (keys cands : list str) : Prop :=
  first_longest keys = first_longest cands /\
  (forall x, x ∈ keys <-> x ∈ cands).

(** The reading of "one single reserved bucket": a group that holds an
    entry without a token longer than 3 characters holds no entry that
    has one. *)
Definition reserved_bucket (phrases : list entry) : Prop :=
  forall k g x y,
    (k, g) ∈ group_phrases phrases -> x ∈ g -> y ∈ g ->
    long_tokens x.1 = [] -> long_tokens y.1 = [].

(** An output entry [o] derives from the input entry [i]: it carries the
    frequency of [i], and [R] relates the text of [i] to the text of
    [o]. *)
Definition derives (R : str -> str -> Prop) (o i : entry) : Prop :=
  R i.1 o.1 /\ o.2 = i.2.

(** every input entry gives the output entry at its position *)
Definition derived_each (R : str -> str -> Prop) (out inp : list entry)
  : Prop :=
  Forall2 (derives R) out inp.

(** some of the input entries give one output entry each, in input
    order, and the others give none *)
Definition derived_some (R : str -> str -> Prop) (out inp : list entry)
  : Prop :=
  exists sel, sel `sublist_of` inp /\ Forall2 (derives R) out sel.

End Spec.
End Spec.

(** ** A sample window for evaluation *)
Module Samples.
Import History Folder Window.

(** one tab "t" showing two entries, one empty local folder "f" *)
Definition sample_window : MainWindow :=
  let data := [(u8 " Apple ", 100); (u8 "pear", 5)] in
  let folders : gmap str Folder := {[ u8 "f" := Folder.new (u8 "f") ]} in
  let h := set_initial_state (History.init 50) data in
  mkWindow {[ u8 "t" := mkPhraseList (u8 "t") data ∅ folders h ]}
           ∅ folders ∅ ∅
           [mkTab (u8 "t") (mkTable data h folders ∅)] 0.

End Samples.

(** ** The states of a history *)
Module HistoryState.
Import History.

(** The states a [HistoryManager] can be in: the deque is within its
    capacity and the cursor is -1 on an empty deque or points into it. *)
Definition well_formed (h : HistoryManager) : Prop :=
  (length (history h) <= maxlen h)%nat /\
  (current_index h = -1 /\ history h = []
   \/ 0 <= current_index h < Z.of_nat (length (history h))).

End HistoryState.

(** ** The undo/redo of a table (main_merged_qt5.py 1048-1127, 1262-1303)

    [MainPhraseTable] keeps the list it shows in [current_data] and hands
    snapshots of it to its [HistoryManager]. *)
Module Table.
Import History Window.

(** [load_data] *)
Definition load_data (t : MainPhraseTable) (data : list entry)
  : MainPhraseTable :=
  mkTable data (set_initial_state (t_history t) data) (t_folders t)
          (t_global_folders t).

(** The shape of [remove_duplicates], [remove_special_chars],
    [remove_long_phrases], [convert_case] and the two sorts of the table:
    [self.save_state()], then the processor's result becomes the data. *)
Definition edit (f : list entry -> list entry) (t : MainPhraseTable)
  : outcome MainPhraseTable :=
  t' ← save_state t;
  Ret (mkTable (f (current_data t')) (t_history t') (t_folders t')
               (t_global_folders t')).

(** [if state:] on the result of the history: [None] and the empty list
    are both false. *)
Definition truthy (s : option state) : option state :=
  match s with
  | Some (e :: l) => Some (e :: l)
  | _ => None
  end.

Definition restore (t : MainPhraseTable)
           (r : HistoryManager * outcome (option state))
  : MainPhraseTable * outcome unit :=
  let '(h, res) := r in
  match res with
  | Ret s =>
      match truthy s with
      | Some data =>
          (mkTable data h (t_folders t) (t_global_folders t), Ret ())
      | None =>
          (mkTable (current_data t) h (t_folders t) (t_global_folders t),
           Ret ())
      end
  | Raise e =>
      (mkTable (current_data t) h (t_folders t) (t_global_folders t), Raise e)
  end.

(** [MainPhraseTable.undo] and [MainPhraseTable.redo] *)
Definition undo (t : MainPhraseTable) : MainPhraseTable * outcome unit :=
  restore t (History.undo (t_history t)).

Definition redo (t : MainPhraseTable) : MainPhraseTable * outcome unit :=
  restore t (History.redo (t_history t)).

End Table.

(** ** Orders used to state what the sorts return *)
Module Order.
Import PhraseProcessor.

(** [a <= b] for strings, by code points *)
Definition str_le (a b : str) : bool := negb (str_lt b a).

(** the entries of [l] whose key is [k], in the order of [l] *)
Definition with_key {K} `{EqDecision K} (key : entry -> K) (k : K)
           (l : list entry) : list entry :=
  List.filter (fun e => bool_decide (key e = k)) l.

(** [x] may stand before [y] in the output of [sorted key before] *)
Definition in_order {K} (key : entry -> K) (before : K -> K -> bool)
           (x y : entry) : Prop :=
  before (key y) (key x) = false.

End Order.

(** ** Shapes of texts and of group dictionaries, to state results *)
Module Shapes.
Section Shapes.
Context `{P : Platform}.
Import PhraseProcessor.

(** no white space at the start, at the end *)
Definition starts_clean (s : str) : Prop :=
  match s with
  | c :: _ => isspace c = false
  | [] => True
  end.

Definition ends_clean (s : str) : Prop := starts_clean (reverse s).

(** no two white-space characters next to each other *)
Definition spaced_once (s : str) : Prop :=
  forall i a b, s !! i = Some a -> s !! S i = Some b ->
                isspace a = false \/ isspace b = false.

(** a character of a cleaned text: the space U+0020, or a word character
    that is not white space *)
Definition clean_char (c : char) : Prop :=
  c = 32%N \/ isspace c = false /\ is_word c = true.

Definition clean_text (s : str) : Prop :=
  s <> [] /\ starts_clean s /\ ends_clean s /\ spaced_once s /\
  Forall clean_char s.

(** a dictionary of groups as [group_phrases] builds it: no key twice, no
    empty group, every entry under its own key *)
Definition grouped (d : list (str * list entry)) : Prop :=
  NoDup d.*1 /\
  forall k g, (k, g) ∈ d -> g <> [] /\ Forall (fun e => main_word e.1 = k) g.

End Shapes.
End Shapes.

(** ** Phrases back from a folder (main_merged_qt5.py 1745-1762,
    2204-2224) *)
Module FolderActions.
Section FolderActions.
Context `{P : Platform}.
Import History Folder Window PhraseProcessor.

(** [FoldersWidget.remove_from_folder], without the redraw *)
Definition remove_from_folder (folders : gmap str Folder)
           (folder_name phrase : str) : gmap str Folder :=
  match folders !! folder_name with
  | Some fd => <[folder_name := remove_phrase fd phrase]> folders
  | None => folders
  end.

(** [FoldersWidget.batch_remove_from_folder], the loop over [selected] *)
Definition batch_remove_from_folder (folders : gmap str Folder)
           (selected : list (str * str * Z)) : gmap str Folder :=
  fold_left
    (fun fs d =>
       let '(folder_name, phrase, _) := d in
       match fs !! folder_name with
       | Some fd => <[folder_name := remove_phrase fd phrase]> fs
       | None => fs
       end)
    selected folders.

(** the loop of [on_phrases_back] that appends to [current_data];
    [existing] is computed once, before the loop *)
Definition append_missing (data : list entry)
           (selected : list (str * str * Z)) : list entry :=
  let existing : gset str :=
    list_to_set (List.map (fun e : entry => strip (lower e.1)) data) in
  fold_left
    (fun d (s : str * str * Z) =>
       let '(_, phrase, freq) := s in
       if bool_decide (strip (lower phrase) ∉ existing)
       then d ++ [(phrase, freq)]
       else d)
    selected data.

(** [general_folders.remove_from_folder] followed, when the folder
    exists, by the slot of [folders_changed] *)
Definition remove_from_general (w : MainWindow) (folder_name phrase : str)
  : MainWindow :=
  match general_folders w !! folder_name with
  | Some _ =>
      update_all_tables_global_folders
        (mkWindow (phrase_lists w) (global_folders w) (folders_widget w)
                  (remove_from_folder (general_folders w) folder_name phrase)
                  (stop_words_widget w) (phrase_tabs w) (currentIndex w))
  | None => w
  end.

(** the block under [if is_move:] of [on_phrases_back] *)
Definition remove_from_folders (w : MainWindow)
           (selected : list (str * str * Z)) (is_global : bool)
  : MainWindow :=
  if is_global then
    fold_left
      (fun w (s : str * str * Z) =>
         let '(folder_name, phrase, _) := s in
         remove_from_general w folder_name phrase)
      selected w
  else
    update_current_table_folders
      (mkWindow (phrase_lists w) (global_folders w)
                (batch_remove_from_folder (folders_widget w) selected)
                (general_folders w) (stop_words_widget w) (phrase_tabs w)
                (currentIndex w)).

Definition on_phrases_back (w : MainWindow)
           (selected : list (str * str * Z)) (is_move is_global : bool)
  : outcome MainWindow :=
  match get_current_table w with
  | Some current_table =>
      t ← save_state current_table;
      let data' := append_missing (current_data t) selected in
      let t' := mkTable data' (t_history t) (t_folders t)
                        (t_global_folders t) in
      let w2 := set_current_table w t' in
      let w3 := if is_move then remove_from_folders w2 selected is_global
                else w2 in
      current_list ← get_current_phrase_list w3;
      let w4 :=
        match current_list, get_current_tab w3 with
        | Some pl, Some tab =>
            set_phrase_list w3 (tab_name tab)
              (mkPhraseList (pl_name pl) data' (pl_stop_words pl)
                            (pl_folders pl) (pl_history pl))
        | _, _ => w3
        end in
      Ret (update_global_grouping (update_grouping_widget w4))
  | None => Ret w
  end.

(** the pairs of [data] addressed to folder [k], in order *)
Definition addressed_to (k : str) (data : list (str * str * Z))
  : list entry :=
  (fun d : str * str * Z => (d.1.2, d.2))
    <$> List.filter (fun d : str * str * Z => bool_decide (d.1.1 = k)) data.

(** a folder after [remove_phrase] of every text, in order *)
Definition remove_all (fd : Folder) (phrases : list entry) : Folder :=
  fold_left (fun fd (e : entry) => remove_phrase fd e.1) phrases fd.

(** the selected pairs whose trimmed, lower-cased text is that of no
    entry of [data] *)
Definition brought_back (data : list entry)
           (selected : list (str * str * Z)) : list entry :=
  List.filter
    (fun e : entry =>
       negb (existsb
               (fun d : entry =>
                  bool_decide (strip (lower e.1) = strip (lower d.1)))
               data))
    ((fun d : str * str * Z => (d.1.2, d.2)) <$> selected).

End FolderActions.
End FolderActions.

(** ** Search in the table (main_merged_qt5.py 1183-1245)

    The rows are those of the table widget, read through [self.item(row,
    1)]: [None] for a row without a phrase item. *)
Module Search.
Section Search.
Context `{P : Platform}.
Import PhraseProcessor.

Record SearchTable := mkSearch {
  rows : list (option str);
  search_text : str;
  exact_search : bool;
  current_search_index : Z;
  (** the row last given to [scrollToItem] and [selectRow] *)
  selected_row : option nat
}.

(** is the first character a word character; [false] at the end *)
Definition word_head (s : str) : bool :=
  match s with
  | c :: _ => is_word c
  | [] => false
  end.

Definition word_last (prev : bool) (s : str) : bool :=
  match last s with
  | Some c => is_word c
  | None => prev
  end.

(** [re.search(r'\b' + re.escape(needle) + r'\b', hay)]: some occurrence
    of [needle] with a word boundary on both sides; [prev] tells whether
    the character before [hay] is a word character. *)
Fixpoint search_word (prev : bool) (needle hay : str) : bool :=
  bool_decide (needle `prefix_of` hay)
  && xorb prev (word_head hay)
  && xorb (word_last prev needle) (word_head (drop (length needle) hay))
  || match hay with
     | [] => false
     | c :: hay' => search_word (is_word c) needle hay'
     end.

Definition is_match (t : SearchTable) (phrase : str) : bool :=
  if exact_search t
  then search_word false (lower (search_text t)) (lower phrase)
  else str_contains (lower (search_text t)) (lower phrase).

(** the loop of [get_matching_rows], from row [row] on *)
Fixpoint matching_from (t : SearchTable) (row : nat)
         (items : list (option str)) : list nat :=
  match items with
  | [] => []
  | phrase_item :: rest =>
      match phrase_item with
      | Some text =>
          if is_match t text then row :: matching_from t (S row) rest
          else matching_from t (S row) rest
      | None => matching_from t (S row) rest
      end
  end.

Definition get_matching_rows (t : SearchTable) : list nat :=
  matching_from t 0%nat (rows t).

(** [l[i]] of a Python list *)
Definition list_index {A} (l : list A) (i : Z) : outcome A :=
  let n := Z.of_nat (length l) in
  let j := if i <? 0 then i + n else i in
  if (j <? 0) || (n <=? j) then Raise IndexError
  else match l !! Z.to_nat j with
       | Some x => Ret x
       | None => Raise IndexError
       end.

(** [next_search_result] with [step] 1, [prev_search_result] with -1 *)
Definition search_result (step : Z) (t : SearchTable)
  : outcome (SearchTable * (Z * Z)) :=
  let rows_ := get_matching_rows t in
  match rows_ with
  | _ :: _ =>
      let i := (current_search_index t + step) `mod` Z.of_nat (length rows_) in
      row ← list_index rows_ i;
      Ret (mkSearch (rows t) (search_text t) (exact_search t) i (Some row),
           (i + 1, Z.of_nat (length rows_)))
  | [] => Ret (t, (0, 0))
  end.

Definition next_search_result (t : SearchTable)
  : outcome (SearchTable * (Z * Z)) := search_result 1 t.

Definition prev_search_result (t : SearchTable)
  : outcome (SearchTable * (Z * Z)) := search_result (-1) t.

(** what a step of the navigation reports and selects: a position
    between 1 and the number of matching rows, and the matching row at
    that position *)
Definition lands_on (t : SearchTable)
           (r : outcome (SearchTable * (Z * Z))) : Prop :=
  exists t' row text,
    r = Ret (t', (current_search_index t' + 1,
                  Z.of_nat (length (get_matching_rows t)))) /\
    0 <= current_search_index t' < Z.of_nat (length (get_matching_rows t)) /\
    get_matching_rows t !! Z.to_nat (current_search_index t') = Some row /\
    selected_row t' = Some row /\
    rows t !! row = Some (Some text) /\
    is_match t text = true /\
    rows t' = rows t /\
    search_text t' = search_text t /\
    exact_search t' = exact_search t.

End Search.
End Search.

(** ** Licence keys (main_merged_qt5.py 112-131, key_generator.py 46-59)

    [hashlib.sha256(s.encode()).hexdigest()] and the same for sha512 are
    parameters. *)
Module License.

Definition is_hex (c : char) : bool :=
  ((48 <=? c) && (c <=? 57) || (97 <=? c) && (c <=? 102))%N.

(** a digit or one of A to F *)
Definition is_upper_hex (c : char) : bool :=
  ((48 <=? c) && (c <=? 57) || (65 <=? c) && (c <=? 70))%N.

(** [str.upper] on an ASCII character *)
Definition ascii_upper (c : char) : char :=
  (if (97 <=? c) && (c <=? 122) then c - 32 else c)%N.

Class Hashes := {
  sha256 : str -> str;
  sha512 : str -> str
}.

Section License.
Context `{P : Platform} `{H : Hashes}.

(** [sep.join(parts)] *)
Fixpoint join (sep : str) (parts : list str) : str :=
  match parts with
  | [] => []
  | x :: rest =>
      match rest with
      | [] => x
      | _ :: _ => x ++ sep ++ join sep rest
      end
  end.

(** [[key[i:i + 4] for i in range(0, 16, 4)]] *)
Definition groups_of_four (key : str) : list str :=
  List.map (fun i => take 4 (drop i key)) [0; 4; 8; 12]%nat.

Definition secret : str := u8 "SuperSecretKey2024PhraseTools".

(** [LicenseManager._generate_license_key] *)
Definition _generate_license_key (hardware_id : str) : str :=
  let combined := hardware_id ++ secret in
  let hash1 := sha256 combined in
  let hash2 := sha512 (hash1 ++ secret) in
  let hash3 := sha256 (hash2 ++ hardware_id) in
  let key := upper (take 16 hash3) in
  join (u8 "-") (groups_of_four key).

(** [LicenseManager.verify_license]; [hardware_id] is
    [self.hardware_id] *)
Definition verify_license (hardware_id license_key : str) : bool :=
  let expected_key := _generate_license_key hardware_id in
  bool_decide (upper (strip license_key) = expected_key).

(** [LicenseKeyGenerator.generate_key_for_hardware] of key_generator.py;
    [self_secret] is [self.secret] *)
Definition self_secret : str := u8 "SuperSecretKey2024PhraseTools".

Definition generate_key_for_hardware (hardware_id : str) : str :=
  let combined := hardware_id ++ self_secret in
  let hash1 := sha256 combined in
  let hash2 := sha512 (hash1 ++ self_secret) in
  let hash3 := sha256 (hash2 ++ hardware_id) in
  let key := upper (take 16 hash3) in
  join (u8 "-") (groups_of_four key).

(** the shape XXXX-XXXX-XXXX-XXXX, every X a digit or one of A to F *)
Definition key_shape (k : str) : Prop :=
  exists a b c d,
    k = a ++ u8 "-" ++ b ++ u8 "-" ++ c ++ u8 "-" ++ d /\
    Forall (fun g : str => length g = 4%nat /\ forallb is_upper_hex g = true)
           [a; b; c; d].

(** a SHA-256 digest in hexadecimal: 64 characters, digits and a to f *)
Definition sha256_is_hex : Prop :=
  forall s, length (sha256 s) = 64%nat /\ forallb is_hex (sha256 s) = true.

(** [str.upper] on ASCII text *)
Definition upper_is_ascii : Prop :=
  forall s, forallb (fun c => (c <? 128)%N) s = true ->
            upper s = ascii_upper <$> s.

End License.

(** a stand-in for the two digests, to evaluate with: not SHA *)
Definition toy_digest (n : nat) (s : str) : str :=
  replicate n (if (length s mod 2 =? 0)%nat then 97%N else 55%N).

Definition toy_hashes : Hashes :=
  {| sha256 := toy_digest 64; sha512 := toy_digest 128 |}.

End License.

(** * Properties *)

Module HistoryFacts.
Import History.

Lemma deque_append_room maxlen (d : list state) x :
  (length d < maxlen)%nat -> deque_append maxlen d x = d ++ [x].
Proof.
  intros Hlt. unfold deque_append.
  replace (length (d ++ [x]) - maxlen)%nat with 0%nat; [done|].
  rewrite length_app. simpl. lia.
Qed.

Lemma pop_while_rev_take (r : list state) (idx : Z) :
  -1 <= idx ->
  pop_while_rev r idx = Ret (drop (length r - Z.to_nat (idx + 1)) r).
Proof.
  intros Hidx. induction r as [|x r IH].
  - simpl. destruct (0 >? idx + 1) eqn:E; [|done].
    rewrite Z.gtb_ltb in E. apply Z.ltb_lt in E. lia.
  - cbn [pop_while_rev].
    destruct (Z.of_nat (length (x :: r)) >? idx + 1) eqn:E;
      rewrite Z.gtb_ltb in E;
      [apply Z.ltb_lt in E | apply Z.ltb_ge in E];
      rewrite length_cons in *.
    + rewrite IH. f_equal.
      replace (S (length r) - Z.to_nat (idx + 1))%nat
        with (S (length r - Z.to_nat (idx + 1)))%nat by lia.
      done.
    + replace (S (length r) - Z.to_nat (idx + 1))%nat with 0%nat by lia.
      done.
Qed.

(** the loop of [add_state] keeps the snapshots up to the cursor *)
Lemma pop_while_take (d : list state) (idx : Z) :
  -1 <= idx -> pop_while d idx = Ret (take (Z.to_nat (idx + 1)) d).
Proof.
  intros Hidx. unfold pop_while. rewrite pop_while_rev_take by done.
  cbn. f_equal. rewrite length_reverse, <- reverse_take.
  apply reverse_involutive.
Qed.

Lemma add_state_ok (h : HistoryManager) (s : state) :
  -1 <= current_index h ->
  add_state h s =
    Ret (let d := deque_append (maxlen h)
                    (take (Z.to_nat (current_index h + 1)) (history h)) s in
         mkHistory d (maxlen h) (Z.of_nat (length d) - 1)
                   (initial_state h)).
Proof.
  intros Hidx. unfold add_state. rewrite pop_while_take by done. done.
Qed.

(** C1: after [set_initial_state S0], [add_state S1], [add_state S2], an
    [undo] returns S1 and a following [redo] returns S2; if [add_state S3]
    comes right after the undo instead, the history is S0, S1, S3 and
    [redo] returns nothing.  The deque must hold at least three snapshots
    (the application builds it with room for 50). *)
Theorem undo_redo_scenario (h0 : HistoryManager) (S0 S1 S2 S3 : state) :
  (3 <= maxlen h0)%nat ->
  exists h1 h2 h3 h4 h5,
    add_state (set_initial_state h0 S0) S1 = Ret h1 /\
    add_state h1 S2 = Ret h2 /\
    undo h2 = (h3, Ret (Some S1)) /\
    redo h3 = (h4, Ret (Some S2)) /\
    add_state h3 S3 = Ret h5 /\
    history h5 = [S0; S1; S3] /\
    can_redo h5 = false /\
    redo h5 = (h5, Ret None).
Proof.
  intros Hcap. destruct h0 as [d0 m i0 s0]. simpl in Hcap.
  exists (mkHistory [S0; S1] m 1 (Some S0)),
         (mkHistory [S0; S1; S2] m 2 (Some S0)),
         (mkHistory [S0; S1; S2] m 1 (Some S0)),
         (mkHistory [S0; S1; S2] m 2 (Some S0)),
         (mkHistory [S0; S1; S3] m 2 (Some S0)).
  unfold set_initial_state, deepcopy. cbn [maxlen].
  rewrite (deque_append_room m [] S0) by (simpl; lia).
  rewrite !add_state_ok by (simpl; lia).
  cbn [history maxlen current_index initial_state deepcopy].
  change (take (Z.to_nat (0 + 1)) ([] ++ [S0])) with [S0].
  change (take (Z.to_nat (1 + 1)) [S0; S1]) with [S0; S1].
  change (take (Z.to_nat (1 + 1)) [S0; S1; S2]) with [S0; S1].
  rewrite (deque_append_room m [S0] S1) by (simpl; lia).
  rewrite !(deque_append_room m [S0; S1]) by (simpl; lia).
  repeat split.
Qed.

Lemma undo_redo_scenario_witness :
  exists h1 h2 h3 h4 h5,
    add_state (set_initial_state (init 50) []) [([97%N], 1)] = Ret h1 /\
    add_state h1 [([98%N], 2)] = Ret h2 /\
    undo h2 = (h3, Ret (Some [([97%N], 1)])) /\
    redo h3 = (h4, Ret (Some [([98%N], 2)])) /\
    add_state h3 [([99%N], 3)] = Ret h5 /\
    history h5 = [[]; [([97%N], 1)]; [([99%N], 3)]] /\
    can_redo h5 = false /\
    redo h5 = (h5, Ret None).
Proof.
  apply (undo_redo_scenario (init 50) [] [([97%N], 1)] [([98%N], 2)]
                            [([99%N], 3)]).
  simpl. lia.
Defined.
End HistoryFacts.

Module FolderFacts.
Import Folder.

Lemma add_phrase_member (fd : Folder) (p : str) (f : Z) :
  (p, f) ∈ phrases fd -> add_phrase fd p f = fd.
Proof. intros Hin. unfold add_phrase. by rewrite bool_decide_eq_true_2. Qed.

Lemma add_phrase_fresh (fd : Folder) (p : str) (f : Z) :
  (p, f) ∉ phrases fd ->
  add_phrase fd p f = mkFolder (name fd) (phrases fd ++ [(p, f)]).
Proof. intros Hin. unfold add_phrase. by rewrite bool_decide_eq_false_2. Qed.

Lemma add_phrase_elem (fd : Folder) (p : str) (f : Z) :
  (p, f) ∈ phrases (add_phrase fd p f).
Proof.
  destruct (decide ((p, f) ∈ phrases fd)) as [Hin|Hin].
  - by rewrite add_phrase_member.
  - rewrite add_phrase_fresh by done. simpl. set_solver.
Qed.

Lemma add_phrase_keeps (fd : Folder) (p : str) (f : Z) (e : entry) :
  e ∈ phrases fd -> e ∈ phrases (add_phrase fd p f).
Proof.
  intros He. destruct (decide ((p, f) ∈ phrases fd)) as [Hin|Hin].
  - by rewrite add_phrase_member.
  - rewrite add_phrase_fresh by done. simpl. set_solver.
Qed.

Lemma add_phrase_NoDup (fd : Folder) (p : str) (f : Z) :
  NoDup (phrases fd) -> NoDup (phrases (add_phrase fd p f)).
Proof.
  intros Hnd. destruct (decide ((p, f) ∈ phrases fd)) as [Hin|Hin].
  - by rewrite add_phrase_member.
  - rewrite add_phrase_fresh by done. simpl.
    apply NoDup_app. split; [done|]. split; [|apply NoDup_singleton].
    intros e He ->%list_elem_of_singleton. done.
Qed.

(** C8: [add_phrase] does nothing when the exact tuple is a member, so
    adding the same tuple twice is adding it once and leaves one copy of
    it; the same text with another frequency is a different member, and
    both are in the folder afterwards.  A folder without repeated members
    stays so. *)
Theorem add_phrase_exact_tuple (fd : Folder) (p : str) (f f' : Z) :
  add_phrase (add_phrase fd p f) p f = add_phrase fd p f /\
  ((p, f) ∈ phrases fd -> add_phrase fd p f = fd) /\
  ((p, f) ∉ phrases fd ->
   phrases (add_phrase (add_phrase fd p f) p f) = phrases fd ++ [(p, f)]) /\
  (f ≠ f' ->
   (p, f) ≠ (p, f') /\
   (p, f) ∈ phrases (add_phrase (add_phrase fd p f) p f') /\
   (p, f') ∈ phrases (add_phrase (add_phrase fd p f) p f')) /\
  (NoDup (phrases fd) ->
   NoDup (phrases (add_phrase (add_phrase fd p f) p f'))).
Proof.
  split; [|split; [|split; [|split]]].
  - apply add_phrase_member, add_phrase_elem.
  - apply add_phrase_member.
  - intros Hin. rewrite add_phrase_member by apply add_phrase_elem.
    by rewrite add_phrase_fresh.
  - intros Hne. split; [congruence|]. split.
    + apply add_phrase_keeps, add_phrase_elem.
    + apply add_phrase_elem.
  - intros Hnd. by do 2 apply add_phrase_NoDup.
Qed.

Lemma add_phrase_exact_tuple_witness :
  phrases (add_phrase (add_phrase (new (u8 "f")) (u8 "buy tea") 1)
                      (u8 "buy tea") 1)
    = [(u8 "buy tea", 1)] /\
  phrases (add_phrase (add_phrase (new (u8 "f")) (u8 "buy tea") 1)
                      (u8 "buy tea") 2)
    = [(u8 "buy tea", 1); (u8 "buy tea", 2)] /\
  (u8 "buy tea", 1) ∈
    phrases (add_phrase (add_phrase (new (u8 "f")) (u8 "buy tea") 1)
                        (u8 "buy tea") 2) /\
  NoDup (phrases (add_phrase (add_phrase (new (u8 "f")) (u8 "buy tea") 1)
                             (u8 "buy tea") 2)).
Proof.
  destruct (add_phrase_exact_tuple (new (u8 "f")) (u8 "buy tea") 1 2)
    as (_ & _ & Hone & Htwo & Hnd).
  split; [|split; [|split]].
  - apply Hone. simpl. apply not_elem_of_nil.
  - vm_compute. reflexivity.
  - apply Htwo. lia.
  - apply Hnd. simpl. apply NoDup_nil_2.
Defined.
End FolderFacts.

Module DedupFacts.
Section Dedup.
Context `{P : Platform}.
Import PhraseProcessor Spec.

Lemma remove_duplicates_loop_spec (phrases earlier : list entry)
      (seen : gset str) (result : list entry) :
  (forall k, k ∈ seen <-> k ∈ (fun x : entry => norm_key x.1) <$> earlier) ->
  remove_duplicates_loop seen result phrases
  = result ++ (trimmed <$> first_occurrences_from earlier phrases).
Proof.
  revert earlier seen result.
  induction phrases as [|[phrase freq] rest IH]; intros earlier seen result Hseen.
  - simpl. by rewrite app_nil_r.
  - cbn [remove_duplicates_loop first_occurrences_from fst].
    fold (norm_key phrase).
    destruct (decide (norm_key phrase ∈ seen)) as [Hin|Hin].
    + rewrite (bool_decide_eq_false_2 (norm_key phrase ∉ seen)) by tauto.
      rewrite bool_decide_eq_true_2 by (by apply Hseen).
      apply IH. intros k. rewrite fmap_app, elem_of_app. simpl.
      rewrite list_elem_of_singleton, <- Hseen. split; [tauto|].
      intros [?| ->]; done.
    + rewrite (bool_decide_eq_true_2 (norm_key phrase ∉ seen)) by done.
      rewrite bool_decide_eq_false_2 by (by rewrite <- Hseen).
      rewrite (IH (earlier ++ [(phrase, freq)])).
      * rewrite fmap_cons, <- app_assoc. done.
      * intros k. rewrite fmap_app, elem_of_app. simpl.
        rewrite list_elem_of_singleton, <- Hseen.
        rewrite elem_of_union, elem_of_singleton. tauto.
Qed.

Lemma first_occurrences_from_sublist (phrases earlier : list entry) :
  first_occurrences_from earlier phrases `sublist_of` phrases.
Proof.
  revert earlier. induction phrases as [|e rest IH]; intros earlier; simpl.
  - constructor.
  - case_bool_decide; [apply sublist_cons | apply sublist_skip]; apply IH.
Qed.

(** the code returns the first occurrences with their text trimmed *)
Lemma remove_duplicates_eq (phrases : list entry) :
  remove_duplicates phrases = trimmed <$> first_occurrences phrases.
Proof.
  unfold remove_duplicates, first_occurrences.
  rewrite (remove_duplicates_loop_spec phrases [] ∅ []); [done|].
  intros k. rewrite fmap_nil. by rewrite elem_of_nil, elem_of_empty.
Qed.

Lemma first_occurrences_from_new (phrases earlier : list entry) (x : entry) :
  x ∈ first_occurrences_from earlier phrases ->
  norm_key x.1 ∉ (fun e : entry => norm_key e.1) <$> earlier.
Proof.
  revert earlier. induction phrases as [|e rest IH]; intros earlier Hx.
  - by apply elem_of_nil in Hx.
  - cbn [first_occurrences_from] in Hx.
    assert (x ∈ first_occurrences_from (earlier ++ [e]) rest ->
            norm_key x.1 ∉ (fun e : entry => norm_key e.1) <$> earlier)
      as Hrest.
    { intros Hin%IH. rewrite fmap_app, elem_of_app in Hin. tauto. }
    case_bool_decide as Hseen; [by apply Hrest|].
    apply elem_of_cons in Hx as [->|Hx]; [done | by apply Hrest].
Qed.

Lemma first_occurrences_from_NoDup (phrases earlier : list entry) :
  NoDup ((fun e : entry => norm_key e.1)
           <$> first_occurrences_from earlier phrases).
Proof.
  revert earlier. induction phrases as [|e rest IH]; intros earlier.
  - constructor.
  - cbn [first_occurrences_from]. case_bool_decide as Hseen; [apply IH|].
    rewrite fmap_cons. constructor; [|apply IH].
    intros (x & Hkey & Hx)%list_elem_of_fmap.
    apply first_occurrences_from_new in Hx.
    apply Hx. rewrite fmap_app, elem_of_app, <- Hkey. right.
    simpl. apply list_elem_of_singleton. done.
Qed.

Lemma first_occurrences_from_covers (phrases earlier : list entry)
      (e : entry) :
  e ∈ phrases ->
  norm_key e.1 ∈ (fun x : entry => norm_key x.1)
    <$> (earlier ++ first_occurrences_from earlier phrases).
Proof.
  revert earlier. induction phrases as [|x rest IH]; intros earlier He.
  - by apply elem_of_nil in He.
  - cbn [first_occurrences_from].
    assert (norm_key x.1 ∈ (fun x : entry => norm_key x.1)
              <$> (earlier ++ (if bool_decide
                                    (norm_key x.1
                                       ∈ (fun x : entry => norm_key x.1)
                                           <$> earlier)
                               then []
                               else [x]))) as Hx.
    { rewrite fmap_app, elem_of_app. case_bool_decide; [by left|].
      right. simpl. by apply list_elem_of_singleton. }
    apply elem_of_cons in He as [->|He].
    + case_bool_decide.
      * rewrite app_nil_r in Hx. rewrite fmap_app, elem_of_app. by left.
      * rewrite fmap_app, elem_of_app in Hx. rewrite fmap_app, elem_of_app.
        destruct Hx as [?|Hx]; [by left|]. right.
        rewrite fmap_cons. apply elem_of_cons. left.
        simpl in Hx. by apply list_elem_of_singleton in Hx.
    + specialize (IH (earlier ++ [x]) He).
      rewrite !fmap_app, !elem_of_app in IH.
      rewrite fmap_app, elem_of_app.
      destruct IH as [[?|Hx']|Hrest]; [by left| |].
      * simpl in Hx'. apply list_elem_of_singleton in Hx'. rewrite Hx'.
        rewrite fmap_app, elem_of_app in Hx.
        destruct Hx as [?|Hx]; [by left|]. right.
        case_bool_decide; [by apply elem_of_nil in Hx|].
        rewrite fmap_cons. apply elem_of_cons. by left.
      * right. case_bool_decide; [done|].
        rewrite fmap_cons. apply elem_of_cons. by right.
Qed.

(** C3 as amended: the entries kept are the first occurrences of their
    trimmed, lower-cased text, in input order and with their frequency,
    one for each such text of the input; their text is the original text
    trimmed. *)
Theorem remove_duplicates_first_occurrences (phrases : list entry) :
  remove_duplicates phrases = trimmed <$> first_occurrences phrases /\
  first_occurrences phrases `sublist_of` phrases /\
  NoDup ((fun e : entry => norm_key e.1) <$> first_occurrences phrases) /\
  (forall e, e ∈ phrases ->
             norm_key e.1 ∈ (fun x : entry => norm_key x.1)
               <$> first_occurrences phrases).
Proof.
  split; [apply remove_duplicates_eq|].
  split; [apply first_occurrences_from_sublist|].
  split; [apply first_occurrences_from_NoDup|].
  intros e He. apply (first_occurrences_from_covers phrases [] e He).
Qed.

(** when no text has surrounding white space, the entries kept are the
    first occurrences as they are *)
Lemma remove_duplicates_exact_when_trimmed (phrases : list entry) :
  Forall (fun e : entry => strip e.1 = e.1) phrases ->
  remove_duplicates phrases = first_occurrences phrases.
Proof.
  intros Htrim.
  rewrite remove_duplicates_eq.
  pose proof (first_occurrences_from_sublist phrases []) as Hsub.
  fold (first_occurrences phrases) in Hsub.
  assert (Forall (fun e : entry => strip e.1 = e.1)
                 (first_occurrences phrases)) as Hkept.
  { rewrite Forall_forall in *. intros e He.
    by apply Htrim, (sublist_subseteq _ _ Hsub). }
  clear Htrim Hsub.
  induction (first_occurrences phrases) as [|[p f] l IH]; [done|].
  apply Forall_cons in Hkept as [Hp Hkept].
  rewrite fmap_cons, IH by done. unfold trimmed. simpl in *. by rewrite Hp.
Qed.

End Dedup.

Import PhraseProcessor Spec.

(** C3 as stated fails: the text that is kept is not the exact original
    text when that text has surrounding white space. *)
Lemma remove_duplicates_not_exact_text :
  @remove_duplicates Basic.platform [(u8 " Apple ", 100); (u8 "apple", 5)]
    = [(u8 "Apple", 100)] /\
  @first_occurrences Basic.platform [(u8 " Apple ", 100); (u8 "apple", 5)]
    = [(u8 " Apple ", 100)] /\
  @remove_duplicates Basic.platform [(u8 " Apple ", 100); (u8 "apple", 5)]
    <> @first_occurrences Basic.platform
         [(u8 " Apple ", 100); (u8 "apple", 5)].
Proof. repeat split. vm_compute. discriminate. Qed.
End DedupFacts.

Module StopWordFacts.
Import PhraseProcessor Spec.

Lemma filter_true {A} (l : list A) (f : A -> bool) :
  (forall x, f x = true) -> List.filter f l = l.
Proof.
  intros Hf. induction l as [|x l IH]; simpl; [done|].
  by rewrite Hf, IH.
Qed.

Lemma tokens_disjoint `{P : Platform} (sw : gset str) (e : entry) :
  bool_decide (list_to_set (split (lower e.1)) ∩ sw = (∅ : gset str))
  = negb (has_stop_token sw e).
Proof.
  unfold has_stop_token. apply eq_true_iff_eq.
  rewrite bool_decide_eq_true, negb_true_iff.
  rewrite <- not_true_iff_false, existsb_exists.
  split.
  - intros Hd (t & Ht & Hsw). apply bool_decide_eq_true in Hsw.
    apply list_elem_of_In in Ht. set_solver.
  - intros Hn. apply set_eq. intros t. split; [|set_solver].
    rewrite elem_of_intersection, elem_of_list_to_set.
    intros [Ht Hsw]. exfalso. apply Hn. exists t.
    split; [by apply list_elem_of_In | by apply bool_decide_eq_true].
Qed.

(** C5: in whole-token mode an entry is removed iff one of the tokens of
    its lower-cased text is a stop word; with the stop word "cheap", of
    ("cheap flights", 10) and ("flights", 5) only the second remains (the
    substring variant of main_merged_qt5.py agrees on this input). *)
Theorem filter_by_stop_words_whole_token :
  (forall (P : Platform) (phrases : list entry) (stop_words : gset str),
      filter_by_stop_words phrases stop_words
      = List.filter (fun e => negb (has_stop_token stop_words e)) phrases) /\
  @filter_by_stop_words Basic.platform
     [(u8 "cheap flights", 10); (u8 "flights", 5)] {[ u8 "cheap" ]}
  = [(u8 "flights", 5)] /\
  @filter_by_stop_words_qt5 Basic.platform
     [(u8 "cheap flights", 10); (u8 "flights", 5)] {[ u8 "cheap" ]}
  = [(u8 "flights", 5)].
Proof.
  split; [|split; vm_compute; reflexivity].
  intros P phrases sw. unfold filter_by_stop_words.
  case_bool_decide as Hsw.
  - subst sw. symmetry. apply filter_true. intros e.
    rewrite <- tokens_disjoint. apply bool_decide_eq_true.
    apply (right_absorb_L _ _).
  - apply List.filter_ext. intros e. apply tokens_disjoint.
Qed.
End StopWordFacts.

Module GroupFacts.
Section Group.
Context `{P : Platform}.
Import PhraseProcessor Spec.

Lemma max_len_snoc (l : list str) (w : str) :
  max_len (l ++ [w]) = (max_len l `max` length w)%nat.
Proof.
  unfold max_len. induction l as [|x l IH]; simpl; [lia|].
  unfold fmap in IH. rewrite IH. lia.
Qed.

Lemma max_len_bound (l : list str) (x : str) :
  x ∈ l -> (length x <= max_len l)%nat.
Proof.
  unfold max_len. induction 1 as [x l|x y l Hin IH]; cbn [fmap list_fmap foldr]; [|revert IH]; lia.
Qed.

Lemma max_len_attained (l : list str) :
  l <> [] -> exists x, x ∈ l /\ length x = max_len l.
Proof.
  induction l as [|x l IH]; [done|]. intros _.
  destruct l as [|y l].
  - exists x. split; [left|]. unfold max_len. simpl. lia.
  - destruct IH as (z & Hz & Hlen); [done|].
    destruct (decide (max_len (y :: l) <= length x)%nat).
    + exists x. split; [left|]. unfold max_len in *. simpl in *. lia.
    + exists z. split; [by right|]. unfold max_len in *. simpl in *. lia.
Qed.

Lemma find_snoc {A} (f : A -> bool) (l : list A) (w : A) :
  List.find f (l ++ [w])
  = match List.find f l with
    | Some x => Some x
    | None => if f w then Some w else None
    end.
Proof.
  induction l as [|x l IH]; simpl; [done|]. by destruct (f x).
Qed.

Lemma first_longest_Some (l : list str) (b : str) :
  first_longest l = Some b -> b ∈ l /\ length b = max_len l.
Proof.
  unfold first_longest. intros Hf. apply find_some in Hf as [Hin Hlen].
  split; [by apply list_elem_of_In | by apply Nat.eqb_eq].
Qed.

Lemma first_longest_is_Some (l : list str) :
  l <> [] -> is_Some (first_longest l).
Proof.
  intros Hl. destruct (max_len_attained l Hl) as (x & Hx & Hlen).
  unfold first_longest.
  destruct (List.find (fun w => (length w =? max_len l)%nat) l) eqn:Hf;
    [done|].
  eapply find_none in Hf; [|by apply list_elem_of_In].
  apply Nat.eqb_neq in Hf. done.
Qed.

Lemma first_longest_snoc (l : list str) (w : str) :
  first_longest (l ++ [w]) = Some (pick (first_longest l) w).
Proof.
  destruct (decide (max_len l < length w)%nat) as [Hlt|Hge].
  - unfold first_longest at 1. rewrite max_len_snoc, find_snoc.
    replace (max_len l `max` length w)%nat with (length w) by lia.
    destruct (List.find (fun w0 => (length w0 =? length w)%nat) l)
      as [x|] eqn:Hf.
    + apply find_some in Hf as [Hin Hlen]. apply Nat.eqb_eq in Hlen.
      apply list_elem_of_In, max_len_bound in Hin. lia.
    + rewrite Nat.eqb_refl. f_equal. unfold pick.
      destruct (first_longest l) as [b|] eqn:Hb; [|done].
      apply first_longest_Some in Hb as [_ Hb].
      destruct (Nat.ltb_spec (length b) (length w)); [done | lia].
  - unfold first_longest at 1. rewrite max_len_snoc, find_snoc.
    replace (max_len l `max` length w)%nat with (max_len l) by lia.
    fold (first_longest l).
    destruct l as [|x l].
    + simpl. unfold max_len in *. simpl in *.
      destruct (Nat.eqb_spec (length w) 0); [done | lia].
    + destruct (first_longest_is_Some (x :: l)) as [b Hb]; [done|].
      rewrite Hb. f_equal. simpl.
      apply first_longest_Some in Hb as [_ Hb].
      destruct (Nat.ltb_spec (length b) (length w)); [lia | done].
Qed.

Lemma max_by_len_first_longest (others pre : list str) (b : str) :
  first_longest pre = Some b ->
  first_longest (pre ++ others) = Some (max_by_len b others).
Proof.
  revert pre b. induction others as [|w rest IH]; intros pre b Hb.
  - by rewrite app_nil_r.
  - rewrite cons_middle, (assoc_L (++) pre [w] rest).
    unfold max_by_len. simpl. apply IH.
    rewrite first_longest_snoc, Hb. done.
Qed.

Lemma dict_incr_keys (d : list (str * Z)) (k : str) :
  (dict_incr d k).*1 = if bool_decide (k ∈ d.*1) then d.*1 else d.*1 ++ [k].
Proof.
  induction d as [|[k' n] d IH].
  - rewrite bool_decide_eq_false_2; [done | apply not_elem_of_nil].
  - cbn [dict_incr]. rewrite fmap_cons. cbn [fst].
    destruct (decide (k' = k)) as [->|Hk].
    + rewrite !bool_decide_eq_true_2; [done | left | done].
    + rewrite (bool_decide_eq_false_2 (k' = k)) by done.
      rewrite fmap_cons, IH. cbn [fst].
      destruct (decide (k ∈ d.*1)) as [Hin|Hin].
      * rewrite !bool_decide_eq_true_2; [done | by right | done].
      * rewrite !bool_decide_eq_false_2; [done | | done].
        rewrite elem_of_cons. intros [?|?]; congruence.
Qed.

Lemma count_words_stands_for (words : list str) (d : list (str * Z))
      (cands : list str) :
  stands_for d.*1 cands ->
  stands_for
    (fold_left (fun word_freq word =>
                  if (3 <? length word)%nat then dict_incr word_freq word
                  else word_freq) words d).*1
    (cands ++ List.filter (fun w => (3 <? length w)%nat) words).
Proof.
  revert d cands. induction words as [|w rest IH]; intros d cands Hs.
  - simpl. by rewrite app_nil_r.
  - cbn [fold_left List.filter].
    destruct (3 <? length w)%nat eqn:Hlong; [|by apply IH].
    rewrite cons_middle, (assoc_L (++) cands [w]). apply IH.
    destruct Hs as [Hfl Hel]. rewrite dict_incr_keys.
    case_bool_decide as Hin; split.
    + rewrite first_longest_snoc, <- Hfl.
      destruct (first_longest d.*1) as [b|] eqn:Hb.
      * simpl. apply first_longest_Some in Hb as Hb'.
        destruct Hb' as [_ Hb']. apply max_len_bound in Hin.
        destruct (Nat.ltb_spec (length b) (length w)); [lia | done].
      * destruct d as [|kv d]; [by apply elem_of_nil in Hin|].
        destruct (first_longest_is_Some (kv :: d).*1) as [? Hx]; [done|].
        congruence.
    + intros x. rewrite elem_of_app, list_elem_of_singleton, <- Hel.
      split; [tauto|]. intros [?| ->]; done.
    + by rewrite !first_longest_snoc, Hfl.
    + intros x. rewrite !elem_of_app, list_elem_of_singleton, Hel. done.
Qed.

(** the key computed by the code is the key of the specification *)
Lemma main_word_group_key (phrase : str) :
  main_word phrase = group_key phrase.
Proof.
  unfold main_word, group_key, long_tokens.
  destruct (count_words_stands_for (split (lower phrase)) [] [])
    as [Hfl _]; [done|].
  rewrite app_nil_l in Hfl.
  fold (count_words (split (lower phrase))) in Hfl.
  rewrite <- Hfl.
  change (List.map fst (count_words (split (lower phrase))))
    with ((count_words (split (lower phrase))).*1).
  destruct ((count_words (split (lower phrase))).*1) as [|k ks]; [done|].
  change (k :: ks) with ([k] ++ ks).
  rewrite (max_by_len_first_longest ks [k] k); [done|].
  unfold first_longest, max_len. cbn [fmap list_fmap foldr List.find].
  by rewrite Nat.max_0_r, Nat.eqb_refl.
Qed.

Lemma dict_get_append (d : list (str * list entry)) (k k' : str)
      (x : entry) :
  dict_get (dict_append d k x) k'
  = if bool_decide (k = k') then Some (default [] (dict_get d k) ++ [x])
    else dict_get d k'.
Proof.
  induction d as [|[k0 v] d IH]; simpl.
  - by repeat case_bool_decide.
  - repeat (case_bool_decide; simpl; simplify_eq; try done).
    all: rewrite IH; by repeat (case_bool_decide; simplify_eq).
Qed.

Lemma group_fold_get (phrases : list entry)
      (groups : list (str * list entry)) (k : str) :
  dict_get (fold_left (fun groups e => dict_append groups (main_word e.1) e)
                      phrases groups) k
  = match List.filter (fun e : entry => bool_decide (main_word e.1 = k))
                      phrases with
    | [] => dict_get groups k
    | members => Some (default [] (dict_get groups k) ++ members)
    end.
Proof.
  revert groups. induction phrases as [|e rest IH]; intros groups; [done|].
  simpl. rewrite IH, dict_get_append.
  case_bool_decide as Hk; simpl.
  - subst k.
    destruct (List.filter _ rest) as [|m ms]; [done|].
    by rewrite <- app_assoc.
  - done.
Qed.

(** C4 as amended: every entry is filed under the first of the longest
    tokens of its lower-cased text among those longer than 3 characters,
    and the group under a key holds exactly the entries with that key, in
    input order.  The entries without such a token all have the key
    "другое" and are together in the one group under that key.  The key
    is not reserved: an entry has it exactly when it has no such token or
    when the first of its longest tokens is the word "другое" itself. *)
Theorem group_phrases_first_longest (phrases : list entry) (e : entry) :
  e ∈ phrases ->
  main_word e.1 = group_key e.1 /\
  dict_get (group_phrases phrases) (group_key e.1)
  = Some (List.filter
            (fun x : entry => bool_decide (group_key x.1 = group_key e.1))
            phrases) /\
  (long_tokens e.1 = [] -> group_key e.1 = other_bucket) /\
  (group_key e.1 = other_bucket <->
   long_tokens e.1 = [] \/
   first_longest (long_tokens e.1) = Some other_bucket) /\
  (long_tokens e.1 = [] ->
   exists g,
     dict_get (group_phrases phrases) other_bucket = Some g /\
     forall x, x ∈ phrases -> long_tokens x.1 = [] -> x ∈ g).
Proof.
  intros He.
  assert (dict_get (group_phrases phrases) (group_key e.1)
          = Some (List.filter
                    (fun x : entry =>
                       bool_decide (group_key x.1 = group_key e.1))
                    phrases)) as Hgroup.
  { unfold group_phrases. rewrite group_fold_get.
    rewrite (List.filter_ext _
               (fun x : entry => bool_decide (group_key x.1 = group_key e.1))).
    2:{ intros x. by rewrite main_word_group_key. }
    destruct (List.filter _ phrases) as [|m ms] eqn:Hf; [|done].
    exfalso. apply list_elem_of_In in He.
    assert (In e (List.filter
              (fun x : entry => bool_decide (group_key x.1 = group_key e.1))
              phrases)) as Hin
      by (apply filter_In; split; [done | by apply bool_decide_eq_true]).
    rewrite Hf in Hin. done. }
  assert (forall x : entry, long_tokens x.1 = [] ->
                            group_key x.1 = other_bucket) as Hnone.
  { intros x Hx. unfold group_key. by rewrite Hx. }
  split; [apply main_word_group_key|]. split; [exact Hgroup|].
  split; [apply Hnone|]. split.
  - split.
    + intros Hk. destruct (long_tokens e.1) as [|t ts] eqn:Hl; [by left|].
      right. rewrite <- Hl in *. unfold group_key in Hk.
      destruct (first_longest_is_Some (long_tokens e.1)) as [b Hb];
        [by rewrite Hl|].
      rewrite Hb in Hk. simpl in Hk. rewrite Hb. by f_equal.
    + intros [Hl|Hf]; [by apply Hnone|].
      unfold group_key. by rewrite Hf.
  - intros Hl. rewrite (Hnone e Hl) in Hgroup.
    eexists. split; [exact Hgroup|].
    intros x Hx Hxl. apply list_elem_of_In, filter_In.
    split; [by apply list_elem_of_In|].
    apply bool_decide_eq_true. by apply Hnone.
Qed.
End Group.

Import PhraseProcessor Spec.

Lemma group_phrases_first_longest_witness :
  @main_word Basic.platform (u8 "white house") = u8 "white" /\
  dict_get (@group_phrases Basic.platform
              [(u8 "white house", 1); (u8 "a bb", 2); (u8 "is it", 3)])
           (u8 "другое")
  = Some [(u8 "a bb", 2); (u8 "is it", 3)].
Proof.
  pose proof (@group_phrases_first_longest Basic.platform
                [(u8 "white house", 1); (u8 "a bb", 2); (u8 "is it", 3)]
                (u8 "white house", 1)) as H1.
  pose proof (@group_phrases_first_longest Basic.platform
                [(u8 "white house", 1); (u8 "a bb", 2); (u8 "is it", 3)]
                (u8 "a bb", 2)) as H2.
  split.
  - destruct H1 as (Hk & _); [left|]. cbn [fst] in Hk.
    rewrite Hk. vm_compute. reflexivity.
  - destruct H2 as (_ & Hg & Hb & _); [right; left|]. cbn [fst] in Hg, Hb.
    rewrite Hb in Hg by (vm_compute; reflexivity).
    unfold other_bucket in Hg. rewrite Hg. vm_compute. reflexivity.
Defined.

(** C4 as stated fails: the bucket "другое" is not reserved for the
    entries without a long token.  "другое слово" has the long tokens
    "другое" and "слово", is filed under the first longest of them, and
    so shares the group of "abc", which has none. *)
Lemma group_phrases_bucket_not_reserved :
  @group_phrases Basic.platform
    [(u8 "abc", 1); (u8 "другое слово", 2)]
  = [(u8 "другое", [(u8 "abc", 1); (u8 "другое слово", 2)])] /\
  @long_tokens Basic.platform (u8 "abc") = [] /\
  @long_tokens Basic.platform (u8 "другое слово")
  = [u8 "другое"; u8 "слово"] /\
  ~ @reserved_bucket Basic.platform
      [(u8 "abc", 1); (u8 "другое слово", 2)].
Proof.
  split; [vm_compute; reflexivity|]. split; [vm_compute; reflexivity|].
  split; [vm_compute; reflexivity|].
  intros Hres.
  specialize (Hres (u8 "другое") [(u8 "abc", 1); (u8 "другое слово", 2)]
                   (u8 "abc", 1) (u8 "другое слово", 2)).
  assert (@long_tokens Basic.platform (u8 "другое слово", 2).1 = [])
    as Hbad.
  { apply Hres.
    - vm_compute. constructor.
    - constructor.
    - constructor. constructor.
    - vm_compute. reflexivity. }
  vm_compute in Hbad. discriminate Hbad.
Qed.

(** the fixtures of the specification: "красивый дом" goes under
    "красивый" ("дом" has 3 characters), "дом большой" under "большой" *)
Example group_phrases_fixture :
  @group_phrases Basic.platform
    [(u8 "красивый дом", 3); (u8 "дом большой", 2); (u8 "White House", 1)]
  = [(u8 "красивый", [(u8 "красивый дом", 3)]);
     (u8 "большой", [(u8 "дом большой", 2)]);
     (u8 "white", [(u8 "White House", 1)])].
Proof. vm_compute. reflexivity. Qed.
End GroupFacts.

Module TranslitFacts.
Section Translit.
Context `{P : Platform}.
Import PhraseProcessor Spec.

Lemma transliterate_loop_map (reverse : bool) (phrases result : list entry) :
  transliterate_loop reverse result phrases
  = Ret (result ++ (transliterate_entry reverse <$> phrases)).
Proof.
  revert result. induction phrases as [|[phrase freq] rest IH]; intros result.
  - simpl. by rewrite app_nil_r.
  - cbn [transliterate_loop].
    assert (try_except
              (if reverse
               then if negb (has_cyrillic phrase)
                    then t ← translit phrase false;
                         Ret (result ++ [(t, freq)])
                    else Ret (result ++ [(phrase, freq)])
               else if has_cyrillic phrase
                    then t ← translit phrase true;
                         Ret (result ++ [(t, freq)])
                    else Ret (result ++ [(phrase, freq)]))
              (fun _ => Ret (result ++ [(phrase, freq)]))
            = Ret (result ++ [transliterate_entry reverse (phrase, freq)]))
      as ->.
    { unfold transliterate_entry. cbn [fst snd].
      destruct reverse, (has_cyrillic phrase); cbn [negb]; try done.
      - by destruct (translit phrase false).
      - by destruct (translit phrase true). }
    rewrite fmap_cons. cbn [mbind outcome_bind obind].
    rewrite IH, <- app_assoc. done.
Qed.

Lemma transliterate_loop_qt5_map (reverse : bool)
      (phrases result : list entry) :
  transliterate_loop_qt5 reverse result phrases
  = Ret (result ++ (transliterate_entry_qt5 reverse <$> phrases)).
Proof.
  revert result. induction phrases as [|[phrase freq] rest IH]; intros result.
  - simpl. by rewrite app_nil_r.
  - cbn [transliterate_loop_qt5].
    assert (try_except
              (if reverse
               then t ← translit phrase true; Ret (result ++ [(t, freq)])
               else t ← translit phrase false; Ret (result ++ [(t, freq)]))
              (fun _ => Ret (result ++ [(phrase, freq)]))
            = Ret (result ++ [transliterate_entry_qt5 reverse (phrase, freq)]))
      as ->.
    { unfold transliterate_entry_qt5. cbn [fst snd].
      destruct reverse.
      - by destruct (translit phrase true).
      - by destruct (translit phrase false). }
    rewrite fmap_cons. cbn [mbind outcome_bind obind].
    rewrite IH, <- app_assoc. done.
Qed.

(** the variant of main.py never raises, leaves an entry without
    Cyrillic letters alone in the forward direction, and keeps the entry
    when the converter fails *)
Lemma transliterate_phrases_fail_soft (phrases : list entry)
      (reverse : bool) :
  transliterate_phrases phrases reverse
  = Ret (transliterate_entry reverse <$> phrases) /\
  (forall e, has_cyrillic e.1 = false -> transliterate_entry false e = e) /\
  (forall e, (forall r, exists x, translit e.1 r = Raise x) ->
             transliterate_entry reverse e = e).
Proof.
  split; [apply (transliterate_loop_map reverse phrases [])|split].
  - intros [p f] Hc. unfold transliterate_entry. simpl in *. by rewrite Hc.
  - intros [p f] Hfail. unfold transliterate_entry. cbn [fst snd].
    destruct (Hfail true) as [x1 H1], (Hfail false) as [x2 H2].
    cbn [fst] in H1, H2.
    destruct reverse, (has_cyrillic p); cbn [negb];
      rewrite ?H1, ?H2; done.
Qed.

(** C6, the variant of main_merged_qt5.py: the forward direction hands
    every entry to the converter, so an entry without Cyrillic letters is
    replaced by whatever the converter returns, where the variant of
    main.py returns it unchanged. *)
Theorem transliterate_qt5_touches_latin (p q : str) (f : Z) :
  has_cyrillic p = false ->
  translit p false = Ret q ->
  transliterate_phrases_qt5 [(p, f)] false = Ret [(q, f)] /\
  transliterate_phrases [(p, f)] false = Ret [(p, f)].
Proof.
  intros Hc Ht. split.
  - unfold transliterate_phrases_qt5. rewrite transliterate_loop_qt5_map.
    unfold transliterate_entry_qt5. simpl. by rewrite Ht.
  - unfold transliterate_phrases. rewrite transliterate_loop_map.
    unfold transliterate_entry. simpl. by rewrite Hc.
Qed.
End Translit.

Import PhraseProcessor Spec.

Lemma transliterate_qt5_touches_latin_witness :
  @transliterate_phrases_qt5 Basic.platform [(u8 "hello", 1)] false
    = Ret [(u8 "хелло", 1)] /\
  @transliterate_phrases Basic.platform [(u8 "hello", 1)] false
    = Ret [(u8 "hello", 1)].
Proof.
  apply (@transliterate_qt5_touches_latin Basic.platform
           (u8 "hello") (u8 "хелло") 1); vm_compute; reflexivity.
Defined.
End TranslitFacts.

Module CleanFacts.
Import PhraseProcessor Spec.

(** C9: the underscore belongs to the class [\w], so it is kept although
    it is neither a letter, a digit nor white space. *)
Theorem remove_special_chars_keeps_underscore :
  (forall (P : Platform) (f : Z),
      remove_special_chars [(u8 "_", f)] = [(u8 "_", f)]) /\
  Basic.isalnum_char 95%N = false /\
  isspace 95%N = false /\
  @remove_special_chars Basic.platform [(u8 "a_b", 1); (u8 "a-b", 2)]
  = [(u8 "a_b", 1); (u8 "a b", 2)].
Proof.
  repeat split.
  intros P f.
  assert (is_word 95%N = true) as Hw
    by (unfold is_word; apply orb_true_iff; right; reflexivity).
  unfold remove_special_chars, clean, sub_special.
  change (u8 "_") with [95%N]. cbn [fst snd List.map omap list_omap].
  rewrite Hw. reflexivity.
Qed.
End CleanFacts.

Module FrequencyFacts.
Section Frequency.
Context `{P : Platform}.
Import PhraseProcessor Spec.

Lemma derived_each_map (R : str -> str -> Prop) (g : entry -> entry)
      (l : list entry) :
  (forall e, derives R (g e) e) -> derived_each R (g <$> l) l.
Proof.
  intros Hg. unfold derived_each.
  induction l as [|e l IH]; [constructor|].
  rewrite fmap_cons. constructor; [apply Hg | apply IH].
Qed.

Lemma derived_some_map_sublist (R : str -> str -> Prop) (g : entry -> entry)
      (sel inp : list entry) :
  (forall e, derives R (g e) e) -> sel `sublist_of` inp ->
  derived_some R (g <$> sel) inp.
Proof.
  intros Hg Hs. exists sel. split; [done|].
  by apply derived_each_map.
Qed.

Lemma filter_sublist (f : entry -> bool) (l : list entry) :
  List.filter f l `sublist_of` l.
Proof.
  induction l as [|e l IH]; simpl; [constructor|].
  destruct (f e); by constructor.
Qed.

Lemma derived_some_omap (R : str -> str -> Prop)
      (f : entry -> option entry) (l : list entry) :
  (forall e o, f e = Some o -> derives R o e) ->
  derived_some R (omap f l) l.
Proof.
  intros Hf. induction l as [|e l (sel & Hsub & Hall)].
  - exists []. split; [done | constructor].
  - cbn [omap list_omap]. destruct (f e) as [o|] eqn:Ho.
    + exists (e :: sel). split; [by constructor|].
      constructor; [by apply Hf | done].
    + exists sel. split; [by constructor | done].
Qed.

Lemma sorted_insert_perm {K} (key : entry -> K) (before : K -> K -> bool)
      (x : entry) (l : list entry) :
  sorted_insert key before x l ≡ₚ x :: l.
Proof.
  induction l as [|y l IH]; simpl; [done|].
  destruct (before (key y) (key x)); [|done].
  rewrite IH. apply Permutation_swap.
Qed.

Lemma sorted_perm {K} (key : entry -> K) (before : K -> K -> bool)
      (l : list entry) :
  sorted key before l ≡ₚ l.
Proof.
  unfold sorted. induction l as [|x l IH]; simpl; [done|].
  by rewrite sorted_insert_perm, IH.
Qed.

(** C10: every output entry of the eight operations carries the
    frequency of the input entry it derives from.  The two sorts return
    the input entries themselves, rearranged.  [convert_case] and both
    variants of [transliterate_phrases] return one entry for every input
    entry, at its position, with the frequency of that entry and with its
    text upper-cased or lower-cased, respectively left alone or
    converted.  [remove_long_phrases] and both variants of
    [filter_by_stop_words] return some of the input entries as they are,
    in input order.  [remove_special_chars] and [remove_duplicates]
    return, for some of the input entries in input order, the entry with
    its text cleaned, respectively trimmed, and its frequency. *)
Theorem operations_keep_frequencies (phrases : list entry) (flag : bool)
        (max_words : Z) (stop_words : gset str) :
  sort_phrases_alphabetically phrases flag ≡ₚ phrases /\
  sort_phrases_by_frequency phrases flag ≡ₚ phrases /\
  derived_each (fun t t' => t' = if flag then upper t else lower t)
               (convert_case phrases flag) phrases /\
  derived_some (fun t t' => t' = clean t)
               (remove_special_chars phrases) phrases /\
  remove_long_phrases phrases max_words `sublist_of` phrases /\
  (exists out,
      transliterate_phrases phrases flag = Ret out /\
      derived_each (fun t t' => t' = t \/ translit t (negb flag) = Ret t')
                   out phrases) /\
  (exists out,
      transliterate_phrases_qt5 phrases flag = Ret out /\
      derived_each (fun t t' => t' = t \/ translit t flag = Ret t')
                   out phrases) /\
  filter_by_stop_words phrases stop_words `sublist_of` phrases /\
  filter_by_stop_words_qt5 phrases stop_words `sublist_of` phrases /\
  derived_some (fun t t' => t' = strip t)
               (remove_duplicates phrases) phrases.
Proof.
  split; [apply sorted_perm|]. split; [apply sorted_perm|].
  split.
  { apply (derived_each_map _ (fun e : entry =>
             if flag then (upper e.1, e.2) else (lower e.1, e.2))).
    intros e. by destruct flag. }
  split.
  { apply derived_some_omap. intros e o.
    destruct (clean e.1) eqn:Hc; [done|]. intros [= <-].
    split; [by rewrite Hc | done]. }
  split; [apply filter_sublist|].
  split.
  { exists (transliterate_entry flag <$> phrases). split.
    - apply (TranslitFacts.transliterate_loop_map flag phrases []).
    - apply derived_each_map. intros e. unfold transliterate_entry, derives.
      destruct flag, (has_cyrillic e.1); cbn [negb fst snd];
        try (split; [by left | done]).
      + destruct (translit e.1 false) eqn:Ht; cbn [fst snd];
          (split; [|done]); [by right | by left].
      + destruct (translit e.1 true) eqn:Ht; cbn [fst snd];
          (split; [|done]); [by right | by left]. }
  split.
  { exists (transliterate_entry_qt5 flag <$> phrases). split.
    - apply (TranslitFacts.transliterate_loop_qt5_map flag phrases []).
    - apply derived_each_map. intros e.
      unfold transliterate_entry_qt5, derives.
      destruct flag.
      + destruct (translit e.1 true) eqn:Ht; cbn [fst snd];
          (split; [|done]); [by right | by left].
      + destruct (translit e.1 false) eqn:Ht; cbn [fst snd];
          (split; [|done]); [by right | by left]. }
  split.
  { unfold filter_by_stop_words. case_bool_decide; [done|].
    apply filter_sublist. }
  split.
  { unfold filter_by_stop_words_qt5. case_bool_decide; [done|].
    apply filter_sublist. }
  rewrite DedupFacts.remove_duplicates_eq.
  apply derived_some_map_sublist; [done|].
  apply DedupFacts.first_occurrences_from_sublist.
Qed.
End Frequency.

Import PhraseProcessor Spec.

(** the relation tells apart an output whose frequencies are swapped
    between two entries, and an entry given the frequency of another *)
Example derived_rejects_other_frequency :
  ~ derived_each (fun t t' => t' = @upper Basic.platform t)
      [(u8 "A", 2); (u8 "B", 1)] [(u8 "a", 1); (u8 "b", 2)] /\
  ~ derived_some (fun t t' => t' = strip t)
      [(u8 "Apple", 5)] [(u8 " Apple ", 100); (u8 "apple", 5)].
Proof.
  split.
  - intros H. apply Forall2_cons_1 in H as [[_ H] _]. discriminate H.
  - intros (sel & Hsub & H).
    destruct sel as [|i sel]; [by apply Forall2_cons_nil_inv in H|].
    apply Forall2_cons_1 in H as [[Ht Hf] _]. cbn [fst snd] in Ht, Hf.
    assert (i ∈ [(u8 " Apple ", 100); (u8 "apple", 5)]) as Hi.
    { apply (sublist_subseteq _ _ Hsub). by left. }
    apply elem_of_cons in Hi as [->|Hi]; [discriminate Hf|].
    apply list_elem_of_singleton in Hi as ->.
    vm_compute in Ht. discriminate Ht.
Qed.
End FrequencyFacts.

Module WindowFacts.
Section WindowFacts.
Context `{P : Platform}.
Import History Folder Window PhraseProcessor.

Lemma add_all_keeps (phrases : list entry) (fd : Folder) (e : entry) :
  e ∈ Folder.phrases fd -> e ∈ Folder.phrases (add_all fd phrases).
Proof.
  revert fd. induction phrases as [|x rest IH]; intros fd He; [done|].
  simpl. apply IH. by apply FolderFacts.add_phrase_keeps.
Qed.

Lemma add_all_elem (phrases : list entry) (fd : Folder) (e : entry) :
  e ∈ phrases -> e ∈ Folder.phrases (add_all fd phrases).
Proof.
  revert fd. induction phrases as [|x rest IH]; intros fd He.
  - by apply elem_of_nil in He.
  - simpl. apply elem_of_cons in He as [->|He]; [|by apply IH].
    apply add_all_keeps. destruct x. apply FolderFacts.add_phrase_elem.
Qed.

Lemma add_phrases_to_folder_target (phrases : list entry)
      (folders : gmap str Folder) (folder_name : str) (fd : Folder) :
  folders !! folder_name = Some fd ->
  add_phrases_to_folder folders
    (List.map (fun e : entry => (folder_name, e.1, e.2)) phrases)
    !! folder_name
  = Some (add_all fd phrases).
Proof.
  unfold add_phrases_to_folder.
  revert folders fd. induction phrases as [|x rest IH]; intros folders fd Hfd.
  - done.
  - cbn [List.map fold_left]. rewrite Hfd. apply IH.
    by rewrite lookup_insert_eq.
Qed.

Lemma current_tab_index (w : MainWindow) (tab : PhraseTab) :
  get_current_tab w = Some tab ->
  0 <= currentIndex w /\
  phrase_tabs w !! Z.to_nat (currentIndex w) = Some tab.
Proof.
  unfold get_current_tab. destruct (Z.ltb_spec (currentIndex w) 0); [done|].
  intros Htab. split; [lia | done].
Qed.

Lemma get_current_tab_set (w : MainWindow) (tab : PhraseTab)
      (t : MainPhraseTable) :
  get_current_tab w = Some tab ->
  get_current_tab (set_current_table w t) = Some (mkTab (tab_name tab) t).
Proof.
  intros Htab. unfold set_current_table. rewrite Htab.
  apply current_tab_index in Htab as [Hidx Htab].
  unfold get_current_tab. cbn [currentIndex phrase_tabs].
  destruct (Z.ltb_spec (currentIndex w) 0); [lia|].
  apply list_lookup_insert_eq. by eapply lookup_lt_Some.
Qed.

Lemma tabs_data_insert (tabs : list PhraseTab) (i : nat) (tab : PhraseTab)
      (t : MainPhraseTable) :
  tabs !! i = Some tab ->
  current_data t = current_data (table tab) ->
  (fun x => current_data (table x)) <$> <[i := mkTab (tab_name tab) t]> tabs
  = (fun x => current_data (table x)) <$> tabs.
Proof.
  intros Hi Hd. rewrite list_fmap_insert. cbn [table].
  apply list_insert_id. rewrite list_lookup_fmap, Hi. simpl. by rewrite Hd.
Qed.

Lemma lists_phrases_insert (m : gmap str PhraseList) (k : str)
      (pl pl' : PhraseList) :
  m !! k = Some pl -> pl_phrases pl' = pl_phrases pl ->
  pl_phrases <$> <[k := pl']> m = pl_phrases <$> m.
Proof.
  intros Hk Hp. rewrite fmap_insert. apply insert_id.
  rewrite lookup_fmap, Hk. simpl. by rewrite Hp.
Qed.

Lemma add_to_target_spec (w : MainWindow) (tab : PhraseTab) (pl : PhraseList)
      (fd : Folder) (folder_name : str) (phrases : list entry)
      (is_global : bool) :
  get_current_tab w = Some tab ->
  phrase_lists w !! tab_name tab = Some pl ->
  target_folders is_global w !! folder_name = Some fd ->
  exists w1,
    add_to_target w folder_name phrases is_global = Ret w1 /\
    target_folders is_global w1 !! folder_name = Some (add_all fd phrases) /\
    (fun t => current_data (table t)) <$> phrase_tabs w1
      = (fun t => current_data (table t)) <$> phrase_tabs w /\
    pl_phrases <$> phrase_lists w1 = pl_phrases <$> phrase_lists w /\
    same_source w1 tab.
Proof.
  intros Htab Hpl Hfd.
  destruct (current_tab_index w tab Htab) as [Hidx Hlook].
  destruct is_global; cbn [target_folders] in *.
  - unfold add_to_target. eexists. split; [reflexivity|].
    cbn [general_folders phrase_tabs phrase_lists
         update_all_tables_global_folders].
    split; [by apply add_phrases_to_folder_target|].
    split; [by rewrite <- list_fmap_compose|]. split; [done|].
    eexists. split.
    { unfold get_current_tab, update_all_tables_global_folders.
      cbn [currentIndex phrase_tabs].
      destruct (Z.ltb_spec (currentIndex w) 0); [lia|].
      change (List.map ?f ?l) with (f <$> l).
      rewrite list_lookup_fmap, Hlook. reflexivity. }
    done.
  - unfold add_to_target.
    set (w0 := mkWindow _ _ _ _ _ _ _).
    assert (get_current_tab w0 = Some tab) as Htab0 by exact Htab.
    unfold update_current_table_folders, get_current_table.
    rewrite Htab0. cbn [fmap option_fmap option_map].
    set (t1 := mkTable _ _ _ _).
    pose proof (get_current_tab_set w0 tab t1 Htab0) as Htab1.
    unfold get_current_phrase_list. rewrite Htab1. cbn [tab_name].
    assert (phrase_lists (set_current_table w0 t1) !! tab_name tab = Some pl)
      as -> by (unfold set_current_table; by rewrite Htab0).
    cbn [mbind outcome_bind obind].
    eexists. split; [reflexivity|].
    unfold set_current_table. rewrite Htab0.
    cbn [set_phrase_list folders_widget phrase_tabs phrase_lists
         currentIndex global_folders general_folders stop_words_widget w0].
    split; [by apply add_phrases_to_folder_target|].
    split; [by apply tabs_data_insert|].
    split; [by eapply lists_phrases_insert|].
    exists (mkTab (tab_name tab) t1). split; [|done].
    unfold get_current_tab, set_phrase_list. cbn [currentIndex phrase_tabs].
    destruct (Z.ltb_spec (currentIndex w) 0); [lia|].
    apply list_lookup_insert_eq. by eapply lookup_lt_Some.
Qed.

Lemma sync_current_tab_spec (w : MainWindow) (tab : PhraseTab)
      (pl : PhraseList) :
  get_current_tab w = Some tab ->
  phrase_lists w !! tab_name tab = Some pl ->
  sync_current_tab w
  = set_phrase_list w (tab_name tab)
      (mkPhraseList (pl_name pl) (current_data (table tab))
                    (stop_words_widget w) (get_folders (folders_widget w))
                    (t_history (table tab))).
Proof. intros Htab Hpl. unfold sync_current_tab. by rewrite Htab, Hpl. Qed.

Lemma moved_filter (phrases : list entry) (data : list entry) :
  List.filter
    (fun e : entry =>
       bool_decide
         (strip (lower e.1)
            ∉ (list_to_set (List.map (fun e : entry => strip (lower e.1))
                                    phrases) : gset str)))
    data
  = not_moved phrases data.
Proof.
  unfold not_moved. apply List.filter_ext. intros e.
  apply eq_true_iff_eq.
  rewrite bool_decide_eq_true, negb_true_iff, <- not_true_iff_false.
  rewrite existsb_exists, elem_of_list_to_set.
  change (List.map ?f ?l) with (f <$> l). rewrite list_elem_of_fmap.
  split; intros Hn (m & H1 & H2); apply Hn; exists m.
  - apply bool_decide_eq_true in H2. split; [done | by apply list_elem_of_In].
  - split; [by apply list_elem_of_In | by apply bool_decide_eq_true].
Qed.

Lemma remove_from_source_spec (w1 : MainWindow) (tab1 : PhraseTab)
      (pl1 : PhraseList) (phrases : list entry) :
  get_current_tab w1 = Some tab1 ->
  phrase_lists w1 !! tab_name tab1 = Some pl1 ->
  -1 <= current_index (t_history (table tab1)) ->
  exists w' tab',
    remove_from_source w1 phrases = Ret w' /\
    general_folders w' = general_folders w1 /\
    folders_widget w' = folders_widget w1 /\
    get_current_tab w' = Some tab' /\
    tab_name tab' = tab_name tab1 /\
    current_data (table tab')
      = not_moved phrases (current_data (table tab1)) /\
    pl_phrases <$> (phrase_lists w' !! tab_name tab1)
      = Some (not_moved phrases (current_data (table tab1))).
Proof.
  intros Htab Hpl Hidx.
  unfold remove_from_source, get_current_table. rewrite Htab.
  cbn [fmap option_fmap option_map].
  unfold save_state at 1.
  rewrite HistoryFacts.add_state_ok by done.
  cbn [mbind outcome_bind obind current_data t_history t_folders
       t_global_folders].
  rewrite moved_filter.
  set (h := mkHistory _ _ _ _).
  set (t' := mkTable _ h _ _).
  pose proof (get_current_tab_set w1 tab1 t' Htab) as Htab2.
  unfold get_current_phrase_list. rewrite Htab2. cbn [tab_name].
  assert (phrase_lists (set_current_table w1 t') !! tab_name tab1 = Some pl1)
    as -> by (unfold set_current_table; by rewrite Htab).
  cbn [mbind outcome_bind obind].
  set (w3 := set_phrase_list _ _ _).
  assert (get_current_tab w3 = Some (mkTab (tab_name tab1) t')) as Htab3
    by exact Htab2.
  unfold update_grouping_widget, update_global_grouping.
  erewrite (sync_current_tab_spec w3); [|exact Htab3|apply lookup_insert_eq].
  set (w4 := set_phrase_list w3 _ _).
  assert (get_current_tab w4 = Some (mkTab (tab_name tab1) t')) as Htab4
    by exact Htab3.
  erewrite (sync_current_tab_spec w4); [|exact Htab4|apply lookup_insert_eq].
  eexists _, (mkTab (tab_name tab1) t'). split; [reflexivity|].
  split.
  { cbn. unfold set_current_table. by rewrite Htab. }
  split.
  { cbn. unfold set_current_table. by rewrite Htab. }
  split; [exact Htab4|]. split; [done|]. split; [done|].
  cbn [set_phrase_list phrase_lists tab_name table current_data].
  by rewrite lookup_insert_eq.
Qed.

Lemma add_phrases_to_folder_insert (phrases : list entry)
      (folders : gmap str Folder) (folder_name : str) (fd : Folder) :
  folders !! folder_name = Some fd ->
  add_phrases_to_folder folders
    (List.map (fun e : entry => (folder_name, e.1, e.2)) phrases)
  = <[folder_name := add_all fd phrases]> folders.
Proof.
  unfold add_phrases_to_folder.
  revert folders fd. induction phrases as [|x rest IH]; intros folders fd Hfd.
  - cbn. by rewrite insert_id.
  - cbn [List.map fold_left]. rewrite Hfd.
    rewrite (IH _ (add_phrase fd x.1 x.2)) by apply lookup_insert_eq.
    by rewrite insert_insert_eq.
Qed.

Lemma add_to_target_stored (w w1 : MainWindow) (tab : PhraseTab)
      (pl : PhraseList) (fd : Folder) (folder_name : str)
      (phrases : list entry) (is_global : bool) :
  get_current_tab w = Some tab ->
  phrase_lists w !! tab_name tab = Some pl ->
  target_folders is_global w !! folder_name = Some fd ->
  add_to_target w folder_name phrases is_global = Ret w1 ->
  stored_in_target is_global w w1 (tab_name tab) folder_name fd phrases /\
  stored_folders (negb is_global) w1 (tab_name tab)
    = stored_folders (negb is_global) w (tab_name tab).
Proof.
  intros Htab Hpl Hfd Hadd.
  destruct (current_tab_index w tab Htab) as [Hidx Hlook].
  unfold stored_in_target.
  destruct is_global;
    cbn [target_folders negb stored_folders shown_folders_agree] in *.
  - unfold add_to_target in Hadd. injection Hadd as <-.
    cbn [general_folders folders_widget global_folders phrase_tabs
         phrase_lists update_all_tables_global_folders].
    rewrite (add_phrases_to_folder_insert _ _ _ _ Hfd).
    split; [|done]. split; [done|]. split; [done|]. split; [done|].
    apply Forall_forall. intros t Ht.
    change (List.map ?f ?l) with (f <$> l) in Ht.
    apply list_elem_of_fmap in Ht as (t0 & -> & _). done.
  - unfold add_to_target in Hadd.
    set (w0 := mkWindow _ _ _ _ _ _ _) in Hadd.
    assert (get_current_tab w0 = Some tab) as Htab0 by exact Htab.
    unfold update_current_table_folders, get_current_table in Hadd.
    rewrite Htab0 in Hadd. cbn [fmap option_fmap option_map] in Hadd.
    set (t1 := mkTable _ _ _ _) in Hadd.
    pose proof (get_current_tab_set w0 tab t1 Htab0) as Htab1.
    unfold get_current_phrase_list in Hadd. rewrite Htab1 in Hadd.
    cbn [tab_name] in Hadd.
    assert (phrase_lists (set_current_table w0 t1) !! tab_name tab = Some pl)
      as Hpl1 by (unfold set_current_table; by rewrite Htab0).
    rewrite Hpl1 in Hadd. cbn [mbind outcome_bind obind] in Hadd.
    injection Hadd as <-.
    assert (folders_widget (set_current_table w0 t1)
            = <[folder_name := add_all fd phrases]> (folders_widget w))
      as Hfw.
    { unfold set_current_table. rewrite Htab0. cbn [folders_widget w0].
      by apply add_phrases_to_folder_insert. }
    assert (general_folders (set_current_table w0 t1) = general_folders w
            /\ global_folders (set_current_table w0 t1) = global_folders w)
      as [Hgf Hgl] by (unfold set_current_table; by rewrite Htab0).
    cbn [set_phrase_list folders_widget general_folders global_folders
         phrase_lists get_folders].
    unfold get_folders. rewrite Hfw, Hgf, Hgl.
    split; [|done]. split; [done|]. split; [done|].
    split; [by rewrite lookup_insert_eq|].
    exists (mkTab (tab_name tab) t1). split; [exact Htab1|].
    cbn [table t_folders t1 w0 folders_widget].
    by apply add_phrases_to_folder_insert.
Qed.

Lemma remove_from_source_stored (w1 w' : MainWindow) (tab1 : PhraseTab)
      (pl1 : PhraseList) (phrases : list entry) :
  get_current_tab w1 = Some tab1 ->
  phrase_lists w1 !! tab_name tab1 = Some pl1 ->
  -1 <= current_index (t_history (table tab1)) ->
  remove_from_source w1 phrases = Ret w' ->
  global_folders w' = global_folders w1 /\
  pl_folders <$> (phrase_lists w' !! tab_name tab1)
    = Some (folders_widget w1) /\
  (forall g,
      Forall (fun t => t_global_folders (table t) = g) (phrase_tabs w1) ->
      Forall (fun t => t_global_folders (table t) = g) (phrase_tabs w')) /\
  (exists tab', get_current_tab w' = Some tab' /\
                t_folders (table tab') = t_folders (table tab1)).
Proof.
  intros Htab Hpl Hidx Hrem.
  unfold remove_from_source, get_current_table in Hrem. rewrite Htab in Hrem.
  cbn [fmap option_fmap option_map] in Hrem.
  unfold save_state at 1 in Hrem.
  rewrite HistoryFacts.add_state_ok in Hrem by done.
  cbn [mbind outcome_bind obind current_data t_history t_folders
       t_global_folders] in Hrem.
  set (h := mkHistory _ _ _ _) in Hrem.
  set (t' := mkTable _ h _ _) in Hrem.
  pose proof (get_current_tab_set w1 tab1 t' Htab) as Htab2.
  unfold get_current_phrase_list in Hrem. rewrite Htab2 in Hrem.
  cbn [tab_name] in Hrem.
  assert (phrase_lists (set_current_table w1 t') !! tab_name tab1 = Some pl1)
    as Hpl2 by (unfold set_current_table; by rewrite Htab).
  rewrite Hpl2 in Hrem. cbn [mbind outcome_bind obind] in Hrem.
  set (w3 := set_phrase_list _ _ _) in Hrem.
  assert (get_current_tab w3 = Some (mkTab (tab_name tab1) t')) as Htab3
    by exact Htab2.
  unfold update_grouping_widget, update_global_grouping in Hrem.
  erewrite (sync_current_tab_spec w3) in Hrem;
    [|exact Htab3|apply lookup_insert_eq].
  set (w4 := set_phrase_list w3 _ _) in Hrem.
  assert (get_current_tab w4 = Some (mkTab (tab_name tab1) t')) as Htab4
    by exact Htab3.
  erewrite (sync_current_tab_spec w4) in Hrem;
    [|exact Htab4|apply lookup_insert_eq].
  injection Hrem as <-.
  assert (global_folders (set_current_table w1 t') = global_folders w1 /\
          folders_widget (set_current_table w1 t') = folders_widget w1 /\
          phrase_tabs (set_current_table w1 t')
            = <[Z.to_nat (currentIndex w1) := mkTab (tab_name tab1) t']>
                (phrase_tabs w1))
    as (Hgl & Hfw & Htabs) by (unfold set_current_table; by rewrite Htab).
  cbn [set_phrase_list global_folders folders_widget phrase_lists phrase_tabs
       tab_name w4 w3].
  split; [done|]. split.
  { rewrite lookup_insert_eq. cbn [fmap option_fmap option_map pl_folders].
    unfold get_folders. by rewrite Hfw. }
  split.
  { intros g Hall. rewrite Htabs. apply Forall_insert; [done|].
    cbn [table t_global_folders t'].
    destruct (current_tab_index w1 tab1 Htab) as [_ Hlook].
    rewrite Forall_forall in Hall. apply Hall.
    by eapply list_elem_of_lookup_2. }
  exists (mkTab (tab_name tab1) t'). split; [exact Htab4 | done].
Qed.

Lemma add_to_target_frame (w w1 : MainWindow) (tab : PhraseTab)
      (pl : PhraseList) (folder_name : str) (phrases : list entry)
      (is_global : bool) :
  get_current_tab w = Some tab ->
  phrase_lists w !! tab_name tab = Some pl ->
  add_to_target w folder_name phrases is_global = Ret w1 ->
  same_but_folders w w1.
Proof.
  intros Htab Hpl Hadd.
  destruct (current_tab_index w tab Htab) as [Hidx Hlook].
  assert (forall k : option PhraseList,
             option_Forall2
               (fun p' p => pl_name p' = pl_name p /\
                            pl_phrases p' = pl_phrases p /\
                            pl_stop_words p' = pl_stop_words p /\
                            pl_history p' = pl_history p) k k) as Hrefl.
  { intros [p|]; by constructor. }
  unfold same_but_folders. destruct is_global.
  - unfold add_to_target in Hadd. injection Hadd as <-.
    cbn [currentIndex stop_words_widget phrase_tabs phrase_lists
         update_all_tables_global_folders].
    split; [done|]. split; [done|]. split; [|by intros k].
    change (List.map ?f ?l) with (f <$> l).
    apply Forall2_fmap_l, Forall_Forall2_diag, Forall_forall. by intros t _.
  - unfold add_to_target in Hadd.
    set (w0 := mkWindow _ _ _ _ _ _ _) in Hadd.
    assert (get_current_tab w0 = Some tab) as Htab0 by exact Htab.
    unfold update_current_table_folders, get_current_table in Hadd.
    rewrite Htab0 in Hadd. cbn [fmap option_fmap option_map] in Hadd.
    set (t1 := mkTable _ _ _ _) in Hadd.
    pose proof (get_current_tab_set w0 tab t1 Htab0) as Htab1.
    unfold get_current_phrase_list in Hadd. rewrite Htab1 in Hadd.
    cbn [tab_name] in Hadd.
    assert (phrase_lists (set_current_table w0 t1) !! tab_name tab = Some pl)
      as Hpl1 by (unfold set_current_table; by rewrite Htab0).
    rewrite Hpl1 in Hadd. cbn [mbind outcome_bind obind] in Hadd.
    injection Hadd as <-.
    unfold set_current_table. rewrite Htab0.
    cbn [set_phrase_list currentIndex stop_words_widget phrase_tabs
         phrase_lists w0].
    split; [done|]. split; [done|]. split.
    + rewrite <- (list_insert_id (phrase_tabs w)
                    (Z.to_nat (currentIndex w)) tab Hlook) at 2.
      apply Forall2_insert; [|done].
      apply Forall_Forall2_diag, Forall_forall. by intros t _.
    + intros k. destruct (decide (k = tab_name tab)) as [->|Hk].
      * rewrite lookup_insert_eq, Hpl. by constructor.
      * rewrite lookup_insert_ne by done. apply Hrefl.
Qed.

Lemma add_to_target_exact (w : MainWindow) (tab : PhraseTab)
      (pl : PhraseList) (fd : Folder) (folder_name : str)
      (phrases : list entry) (is_global : bool) :
  get_current_tab w = Some tab ->
  phrase_lists w !! tab_name tab = Some pl ->
  target_folders is_global w !! folder_name = Some fd ->
  add_to_target w folder_name phrases is_global
  = Ret (after_copy is_global w tab pl folder_name fd phrases).
Proof.
  intros Htab Hpl Hfd. unfold add_to_target, after_copy.
  destruct is_global; cbn [target_folders] in *.
  - cbn [general_folders folders_widget global_folders phrase_tabs
         phrase_lists update_all_tables_global_folders stop_words_widget
         currentIndex get_folders].
    unfold get_folders.
    by rewrite (add_phrases_to_folder_insert _ _ _ _ Hfd).
  - set (w0 := mkWindow _ _ _ _ _ _ _).
    assert (get_current_tab w0 = Some tab) as Htab0 by exact Htab.
    unfold update_current_table_folders, get_current_table.
    rewrite Htab0. cbn [fmap option_fmap option_map].
    set (t1 := mkTable _ _ _ _).
    pose proof (get_current_tab_set w0 tab t1 Htab0) as Htab1.
    unfold get_current_phrase_list. rewrite Htab1. cbn [tab_name].
    assert (phrase_lists (set_current_table w0 t1) !! tab_name tab = Some pl)
      as -> by (unfold set_current_table; by rewrite Htab0).
    cbn [mbind outcome_bind obind].
    unfold set_current_table. rewrite Htab0.
    clear Htab0 Htab1. subst t1 w0.
    cbn [set_phrase_list folders_widget general_folders global_folders
         phrase_lists phrase_tabs stop_words_widget currentIndex].
    unfold get_folders.
    by rewrite (add_phrases_to_folder_insert _ _ _ _ Hfd).
Qed.

Lemma remove_from_source_exact (w1 : MainWindow) (tab1 : PhraseTab)
      (pl1 : PhraseList) (phrases : list entry) :
  get_current_tab w1 = Some tab1 ->
  phrase_lists w1 !! tab_name tab1 = Some pl1 ->
  -1 <= current_index (t_history (table tab1)) ->
  remove_from_source w1 phrases
  = Ret (after_removal w1 tab1 pl1 phrases).
Proof.
  intros Htab Hpl Hidx.
  unfold remove_from_source, get_current_table. rewrite Htab.
  cbn [fmap option_fmap option_map].
  unfold save_state at 1.
  rewrite HistoryFacts.add_state_ok by done.
  cbn [mbind outcome_bind obind current_data t_history t_folders
       t_global_folders].
  rewrite moved_filter.
  fold (saved_history (table tab1)).
  set (h := saved_history (table tab1)).
  set (t' := mkTable _ h _ _).
  pose proof (get_current_tab_set w1 tab1 t' Htab) as Htab2.
  unfold get_current_phrase_list. rewrite Htab2. cbn [tab_name].
  assert (phrase_lists (set_current_table w1 t') !! tab_name tab1 = Some pl1)
    as -> by (unfold set_current_table; by rewrite Htab).
  cbn [mbind outcome_bind obind].
  set (w3 := set_phrase_list _ _ _).
  assert (get_current_tab w3 = Some (mkTab (tab_name tab1) t')) as Htab3
    by exact Htab2.
  unfold update_grouping_widget, update_global_grouping.
  erewrite (sync_current_tab_spec w3); [|exact Htab3|apply lookup_insert_eq].
  set (w4 := set_phrase_list w3 _ _).
  assert (get_current_tab w4 = Some (mkTab (tab_name tab1) t')) as Htab4
    by exact Htab3.
  erewrite (sync_current_tab_spec w4); [|exact Htab4|apply lookup_insert_eq].
  f_equal. unfold after_removal, set_phrase_list, w4, w3, set_phrase_list.
  unfold set_current_table. rewrite Htab.
  cbn [phrase_lists global_folders folders_widget general_folders
       stop_words_widget phrase_tabs currentIndex tab_name table
       current_data t_history pl_name get_folders t'].
  unfold get_folders. by rewrite !insert_insert_eq.
Qed.

(** C7: with the target folder present, copying adds every selected pair
    to the target folder and changes neither the data of any table nor
    the phrases of any list; moving does the same to the folder and then
    leaves in the source list exactly the entries whose trimmed,
    lower-cased text is not that of a moved phrase.  In both cases the
    folder with the pairs added is in the target widget, whose other
    folders stay as they are, and the mapping of the data model (the
    folders of the current list, or the global folders) and the tables
    hold the same folders as that widget; the other widget is unchanged.
    A copy changes folders only: the other mapping, the tabs with their
    data and histories, and the lists with their names, phrases, stop
    words and histories stay as they are.  The window after each action
    is the one written out in [after_copy] and [after_removal]. *)
Theorem on_phrases_to_folder_copy_move (w : MainWindow) (tab : PhraseTab)
        (fd : Folder) (folder_name : str) (phrases : list entry)
        (is_global : bool) :
  window_ok w = true ->
  get_current_tab w = Some tab ->
  target_folders is_global w !! folder_name = Some fd ->
  (forall e, e ∈ phrases -> e ∈ Folder.phrases (add_all fd phrases)) /\
  (exists w',
      on_phrases_to_folder w folder_name phrases is_global false = Ret w' /\
      target_folders is_global w' !! folder_name
        = Some (add_all fd phrases) /\
      (fun t => current_data (table t)) <$> phrase_tabs w'
        = (fun t => current_data (table t)) <$> phrase_tabs w /\
      pl_phrases <$> phrase_lists w' = pl_phrases <$> phrase_lists w /\
      stored_in_target is_global w w' (tab_name tab) folder_name fd
                       phrases /\
      stored_folders (negb is_global) w' (tab_name tab)
        = stored_folders (negb is_global) w (tab_name tab) /\
      same_but_folders w w' /\
      exists pl,
        phrase_lists w !! tab_name tab = Some pl /\
        w' = after_copy is_global w tab pl folder_name fd phrases) /\
  (exists w' tab',
      on_phrases_to_folder w folder_name phrases is_global true = Ret w' /\
      target_folders is_global w' !! folder_name
        = Some (add_all fd phrases) /\
      get_current_tab w' = Some tab' /\
      tab_name tab' = tab_name tab /\
      current_data (table tab')
        = not_moved phrases (current_data (table tab)) /\
      pl_phrases <$> (phrase_lists w' !! tab_name tab)
        = Some (not_moved phrases (current_data (table tab))) /\
      stored_in_target is_global w w' (tab_name tab) folder_name fd
                       phrases /\
      exists pl tab1 pl1,
        phrase_lists w !! tab_name tab = Some pl /\
        get_current_tab (after_copy is_global w tab pl folder_name fd
                                    phrases) = Some tab1 /\
        phrase_lists (after_copy is_global w tab pl folder_name fd phrases)
          !! tab_name tab1 = Some pl1 /\
        w' = after_removal
               (after_copy is_global w tab pl folder_name fd phrases)
               tab1 pl1 phrases).
Proof.
  intros Hok Htab Hfd. split; [intros e; apply add_all_elem|].
  unfold window_ok in Hok. rewrite Htab in Hok.
  apply andb_true_iff in Hok as [Hpl Hidx].
  apply bool_decide_eq_true in Hpl as [pl Hpl]. apply Z.leb_le in Hidx.
  destruct (add_to_target_spec w tab pl fd folder_name phrases is_global
              Htab Hpl Hfd)
    as (w1 & Hadd & Htarget & Hdata & Hlists & tab1 & Htab1 & Hname & Hd & Hh).
  destruct (add_to_target_stored w w1 tab pl fd folder_name phrases
              is_global Htab Hpl Hfd Hadd) as [Hstored Hother].
  pose proof (add_to_target_frame w w1 tab pl folder_name phrases
                is_global Htab Hpl Hadd) as Hframe.
  assert (w1 = after_copy is_global w tab pl folder_name fd phrases)
    as Hexact.
  { rewrite (add_to_target_exact w tab pl fd folder_name phrases is_global
               Htab Hpl Hfd) in Hadd. by injection Hadd as <-. }
  unfold on_phrases_to_folder. rewrite Hadd.
  cbn [mbind outcome_bind obind]. split.
  - exists w1. repeat (split; [done|]). by exists pl.
  - assert (exists pl1, phrase_lists w1 !! tab_name tab1 = Some pl1)
      as [pl1 Hpl1].
    { assert ((pl_phrases <$> phrase_lists w1) !! tab_name tab
              = (pl_phrases <$> phrase_lists w) !! tab_name tab) as Hl
        by (by rewrite Hlists).
      rewrite !lookup_fmap, Hpl, <- Hname in Hl.
      destruct (phrase_lists w1 !! tab_name tab1) as [pl1|]; [|done].
      by exists pl1. }
    destruct (remove_from_source_spec w1 tab1 pl1 phrases Htab1 Hpl1)
      as (w' & tab' & Hrem & Hgf & Hfw & Htab' & Hname' & Hd' & Hpl');
      [by rewrite Hh|].
    destruct (remove_from_source_stored w1 w' tab1 pl1 phrases Htab1 Hpl1)
      as (Hgl & Hplf & Hshown & tab2 & Htab2 & Htf);
      [by rewrite Hh | done |].
    exists w', tab'. split; [done|]. split.
    { destruct is_global; cbn [target_folders] in *; congruence. }
    split; [done|]. split; [congruence|].
    split; [by rewrite Hd', Hd|].
    split; [by rewrite <- Hname, Hpl', Hd|].
    destruct Hstored as (Hins & Hneg & Hst & Hsh).
    unfold stored_in_target.
    destruct is_global;
      cbn [target_folders negb stored_folders shown_folders_agree] in *.
    + split.
      * rewrite Hgf, Hfw, Hgl. split; [done|]. split; [done|].
        split; [done|]. by apply Hshown.
      * exists pl, tab1, pl1. rewrite <- Hexact.
        split; [done|]. split; [done|]. split; [done|].
        rewrite (remove_from_source_exact w1 tab1 pl1 phrases Htab1 Hpl1)
          in Hrem by (by rewrite Hh).
        by injection Hrem as <-.
    + split.
      * rewrite Hgf, Hfw. split; [done|]. split; [done|].
        split; [by rewrite <- Hname|].
        exists tab2. split; [done|]. rewrite Htf.
        destruct Hsh as (tab0 & Htab0 & Htf0). congruence.
      * exists pl, tab1, pl1. rewrite <- Hexact.
        split; [done|]. split; [done|]. split; [done|].
        rewrite (remove_from_source_exact w1 tab1 pl1 phrases Htab1 Hpl1)
          in Hrem by (by rewrite Hh).
        by injection Hrem as <-.
Qed.
End WindowFacts.

Import History Folder Window.

Lemma on_phrases_to_folder_copy_move_witness :
  (exists w',
      @on_phrases_to_folder Basic.platform Samples.sample_window (u8 "f")
        [(u8 "apple", 7)] false false = Ret w' /\
      folders_widget w' !! u8 "f"
        = Some (mkFolder (u8 "f") [(u8 "apple", 7)]) /\
      (fun t => current_data (table t)) <$> phrase_tabs w'
        = [[(u8 " Apple ", 100); (u8 "pear", 5)]] /\
      pl_folders <$> (phrase_lists w' !! u8 "t")
        = Some (folders_widget w')) /\
  (exists w' tab',
      @on_phrases_to_folder Basic.platform Samples.sample_window (u8 "f")
        [(u8 "apple", 7)] false true = Ret w' /\
      folders_widget w' !! u8 "f"
        = Some (mkFolder (u8 "f") [(u8 "apple", 7)]) /\
      get_current_tab w' = Some tab' /\
      current_data (table tab') = [(u8 "pear", 5)] /\
      pl_folders <$> (phrase_lists w' !! u8 "t")
        = Some (folders_widget w')).
Proof.
  destruct (@on_phrases_to_folder_copy_move Basic.platform Samples.sample_window
              (mkTab (u8 "t")
                 (mkTable [(u8 " Apple ", 100); (u8 "pear", 5)]
                    (set_initial_state (History.init 50)
                       [(u8 " Apple ", 100); (u8 "pear", 5)])
                    {[ u8 "f" := Folder.new (u8 "f") ]} ∅))
              (Folder.new (u8 "f")) (u8 "f") [(u8 "apple", 7)] false)
    as (_ & (w1 & H1 & H2 & H3 & _ & (_ & _ & S1 & _) & _)
          & (w2 & tab2 & H4 & H5 & H6 & _ & H7 & _ & (_ & _ & S2 & _) & _)).
  - vm_compute. reflexivity.
  - vm_compute. reflexivity.
  - vm_compute. reflexivity.
  - split.
    + exists w1. split; [exact H1|]. split; [exact H2|].
      split; [exact H3 | exact S1].
    + exists w2, tab2. split; [exact H4|]. split; [exact H5|].
      split; [exact H6|]. split; [exact H7 | exact S2].
Defined.
End WindowFacts.

Module SessionFacts.
Import Session.

(** C2 as amended: a load that fails while the file is opened, read,
    unpickled or unpacked into its four components leaves the window,
    and so the workspace, exactly as it was, and reports the error.  Once
    the file has been unpacked, the earlier phrase lists, global stop
    words and global folders play no part in the rest of the load: what
    the load returns, on success or failure, is the same for any two
    windows that differ only in them.  On a window without open tabs, a
    file whose first component has no [.items()] makes the load fail with
    the three attributes replaced by the file's values. *)
Theorem load_session_fails_before_assignment (Q : Qt) (w : MainWindow)
        (file_path : str) (content : outcome pyval) (e : exn) :
  file_path <> [] ->
  (fails_before_assignment content e ->
   load_session w file_path content = (w, Some e) /\
   workspace (load_session w file_path content).1 = workspace w) /\
  (forall a b c current_index w2,
      unpacks_to content a b c current_index ->
      same_but_lists w w2 ->
      load_session w file_path content
      = load_session w2 file_path content) /\
  (forall a b c current_index x,
      unpacks_to content a b c current_index ->
      tab_names w = [] ->
      items_of a = Raise x ->
      load_session w file_path content
      = (mkWindow a b c (current_session_path w) [] (currentIndex w),
         Some x)).
Proof.
  intros Hpath. destruct file_path as [|ch path]; [done|].
  split; [|split].
  - intros Hfail. unfold fails_before_assignment in Hfail.
    assert (load_session w (ch :: path) content = (w, Some e)) as ->.
    { unfold load_session, load_session_try. by rewrite Hfail. }
    done.
  - intros a b c current_index w2 Hun (Hp & Ht & Hi).
    unfold unpacks_to in Hun.
    unfold load_session, load_session_try. rewrite Hun.
    by rewrite Hp, Ht, Hi.
  - intros a b c current_index x Hun Ht Hitems.
    unfold unpacks_to in Hun.
    unfold load_session, load_session_try. rewrite Hun, Ht.
    cbn [clear_tabs tab_names phrase_lists]. by rewrite Hitems.
Qed.

Lemma load_session_fails_before_assignment_witness :
  @load_session headless fresh (u8 "a.session") (Raise UnpicklingError)
    = (fresh, Some UnpicklingError) /\
  @load_session headless fresh (u8 "a.session") (Ret (PInt 5))
    = (fresh, Some TypeError) /\
  @load_session headless fresh (u8 "a.session")
     (Ret (PTuple [PDict []; PSet []; PDict []]))
    = (fresh, Some ValueError) /\
  @load_session headless fresh (u8 "a.session")
     (Ret (PTuple [PList []; PSet [PStr (u8 "cheap")]; PDict []; PInt 0]))
    = (mkWindow (PList []) (PSet [PStr (u8 "cheap")]) (PDict []) None []
                (-1),
       Some AttributeError).
Proof.
  split; [|split; [|split]].
  - apply (load_session_fails_before_assignment headless fresh
             (u8 "a.session") (Raise UnpicklingError) UnpicklingError);
      [vm_compute; discriminate | reflexivity].
  - apply (load_session_fails_before_assignment headless fresh
             (u8 "a.session") (Ret (PInt 5)) TypeError);
      [vm_compute; discriminate | reflexivity].
  - apply (load_session_fails_before_assignment headless fresh
             (u8 "a.session")
             (Ret (PTuple [PDict []; PSet []; PDict []])) ValueError);
      [vm_compute; discriminate | reflexivity].
  - destruct (load_session_fails_before_assignment headless fresh
                (u8 "a.session")
                (Ret (PTuple [PList []; PSet [PStr (u8 "cheap")]; PDict [];
                              PInt 0])) AttributeError)
      as (_ & _ & Hlate); [vm_compute; discriminate|].
    apply (Hlate (PList []) (PSet [PStr (u8 "cheap")]) (PDict []) (PInt 0)
                 AttributeError); reflexivity.
Defined.

(** What a file does whose pickle is a 4-tuple with the phrase lists kept
    in a list instead of a dictionary, on a window without tabs and
    whatever the Qt side is: the three attributes are overwritten, then
    [.items()] raises. *)
Lemma load_session_list_for_dict (Q : Qt) :
  load_session fresh (u8 "a.session")
               (Ret (PTuple [PList []; PSet [PStr (u8 "cheap")]; PDict [];
                             PInt 0]))
  = (mkWindow (PList []) (PSet [PStr (u8 "cheap")]) (PDict []) None [] (-1),
     Some AttributeError).
Proof. reflexivity. Qed.

(** C2 as stated fails: no Qt side makes the load all-or-nothing, since a
    file that unpickles to a 4-tuple whose first component is not a
    dictionary makes the load fail after the workspace attributes have
    been overwritten. *)
Lemma load_session_not_all_or_nothing :
  ~ exists Q : Qt, @all_or_nothing Q.
Proof.
  intros [Q Hatomic].
  specialize (Hatomic fresh (u8 "a.session")
                (Ret (PTuple [PList []; PSet [PStr (u8 "cheap")]; PDict [];
                              PInt 0]))
                _ _ (load_session_list_for_dict Q)).
  discriminate Hatomic.
Qed.
End SessionFacts.

Module HistoryInvariant.
Import History HistoryState.

Lemma deque_append_length (m : nat) (d : list state) (x : state) :
  length (deque_append m d x) = (S (length d) `min` m)%nat.
Proof.
  unfold deque_append. cbn zeta. rewrite length_drop, !length_app.
  cbn [length]. lia.
Qed.

Lemma deque_append_last (m : nat) (d : list state) (x : state) :
  (1 <= m)%nat ->
  deque_append m d x !! (length (deque_append m d x) - 1)%nat = Some x.
Proof.
  intros Hm. rewrite deque_append_length. unfold deque_append.
  cbn zeta. rewrite lookup_drop, !length_app. cbn [length].
  rewrite lookup_app_r by lia.
  replace (length d + 1 - m + (S (length d) `min` m - 1) - length d)%nat
    with 0%nat by lia.
  done.
Qed.

Lemma deque_get_in_range (d : list state) (i : Z) :
  0 <= i < Z.of_nat (length d) ->
  exists s, d !! Z.to_nat i = Some s /\ deque_get d i = Ret s.
Proof.
  intros Hi. unfold deque_get.
  destruct (Z.ltb_spec i 0); [lia|].
  destruct (Z.leb_spec 0 i); [|lia].
  destruct (Z.ltb_spec i (Z.of_nat (length d))); [|lia].
  destruct (lookup_lt_is_Some_2 d (Z.to_nat i)) as [s Hs]; [lia|].
  exists s. rewrite Hs. done.
Qed.

Lemma well_formed_index (h : HistoryManager) :
  well_formed h -> -1 <= current_index h < Z.of_nat (length (history h)).
Proof. intros [_ [[-> ->]|?]]; simpl; lia. Qed.

Lemma well_formed_init (n : nat) : well_formed (init n).
Proof. split; simpl; [lia | by left]. Qed.

Lemma add_state_well_formed (h : HistoryManager) (s : state) :
  well_formed h ->
  exists h', add_state h s = Ret h' /\ well_formed h' /\ maxlen h' = maxlen h.
Proof.
  intros Hwf. pose proof (well_formed_index h Hwf) as Hidx.
  rewrite HistoryFacts.add_state_ok by lia.
  eexists. split; [reflexivity|]. cbn zeta. split; [|done].
  set (d' := deque_append _ _ _).
  pose proof (deque_append_length (maxlen h)
                (take (Z.to_nat (current_index h + 1)) (history h))
                s) as Hlen.
  fold d' in Hlen. split; cbn [history maxlen current_index].
  - lia.
  - destruct d' as [|x d'']; [left; split; [simpl; lia | done]|].
    right. simpl. lia.
Qed.

Lemma undo_well_formed (h : HistoryManager) :
  well_formed h -> well_formed (undo h).1 /\ exists r, (undo h).2 = Ret r.
Proof.
  intros Hwf. pose proof (well_formed_index h Hwf) as Hidx.
  unfold undo.
  destruct (current_index h >? 0) eqn:E; rewrite Z.gtb_ltb in E.
  - apply Z.ltb_lt in E. cbn [fst snd history maxlen current_index].
    destruct Hwf as [Hcap _].
    split; [split; [done | right; simpl; lia]|].
    destruct (deque_get_in_range (history h) (current_index h - 1))
      as (s & _ & ->); [lia|].
    by eexists.
  - simpl. split; [done | by eexists].
Qed.

Lemma redo_well_formed (h : HistoryManager) :
  well_formed h -> well_formed (redo h).1 /\ exists r, (redo h).2 = Ret r.
Proof.
  intros Hwf. pose proof (well_formed_index h Hwf) as Hidx.
  unfold redo.
  destruct (current_index h <? Z.of_nat (length (history h)) - 1) eqn:E.
  - apply Z.ltb_lt in E. cbn [fst snd history maxlen current_index].
    destruct Hwf as [Hcap _].
    split; [split; [done | right; simpl; lia]|].
    destruct (deque_get_in_range (history h) (current_index h + 1))
      as (s & _ & ->); [lia|].
    by eexists.
  - simpl. split; [done | by eexists].
Qed.

(** X1: the operations of the history keep it well formed (the deque
    within its capacity, the cursor inside it or -1 when it is empty), and
    on a well-formed history none of them raises. *)
Theorem history_well_formed_kept (h : HistoryManager) (s : state) :
  well_formed h ->
  (exists h', add_state h s = Ret h' /\ well_formed h'
              /\ maxlen h' = maxlen h) /\
  (well_formed (undo h).1 /\ exists r, (undo h).2 = Ret r) /\
  (well_formed (redo h).1 /\ exists r, (redo h).2 = Ret r) /\
  ((1 <= maxlen h)%nat -> well_formed (set_initial_state h s)).
Proof.
  intros Hwf.
  split; [by apply add_state_well_formed|].
  split; [by apply undo_well_formed|].
  split; [by apply redo_well_formed|].
  intros Hm. unfold set_initial_state.
  pose proof (deque_append_length (maxlen h) [] (deepcopy s)) as Hlen.
  cbn [length] in Hlen.
  split; cbn [history maxlen current_index]; [lia|].
  right. lia.
Qed.

Lemma history_well_formed_kept_witness :
  (exists h', add_state (init 50) [(u8 "tea", 1)] = Ret h' /\ well_formed h'
              /\ maxlen h' = 50%nat) /\
  well_formed (set_initial_state (init 50) [(u8 "tea", 1)]).
Proof.
  destruct (history_well_formed_kept (init 50) [(u8 "tea", 1)])
    as (Hadd & _ & _ & Hset).
  - split; simpl; [lia | by left].
  - split; [exact Hadd|]. apply Hset. simpl. lia.
Defined.

(** X2: on a well-formed history [redo] undoes [undo] and [undo] undoes
    [redo]: the manager is back in the state it had, and the snapshot
    returned is the one the cursor was on. *)
Theorem undo_redo_round_trip (h : HistoryManager) :
  well_formed h ->
  (can_undo h = true ->
   exists s, history h !! Z.to_nat (current_index h) = Some s /\
             redo (undo h).1 = (h, Ret (Some s))) /\
  (can_redo h = true -> 0 <= current_index h ->
   exists s, history h !! Z.to_nat (current_index h) = Some s /\
             undo (redo h).1 = (h, Ret (Some s))).
Proof.
  intros Hwf. pose proof (well_formed_index h Hwf) as Hidx.
  destruct h as [d m i s0]. cbn [history current_index] in Hidx.
  unfold can_undo, can_redo, undo, redo. cbn [history maxlen current_index
    initial_state]. split.
  - intros Hu. rewrite Hu. cbn [fst history maxlen current_index
      initial_state].
    rewrite Z.gtb_ltb in Hu. apply Z.ltb_lt in Hu.
    destruct (Z.ltb_spec (i - 1) (Z.of_nat (length d) - 1)); [|lia].
    cbn [history maxlen current_index initial_state].
    replace (i - 1 + 1) with i by lia.
    destruct (deque_get_in_range d i) as (s & Hs & ->); [lia|].
    exists s. done.
  - intros Hr Hi. rewrite Hr. cbn [fst history maxlen current_index
      initial_state].
    apply Z.ltb_lt in Hr.
    destruct (Z.gtb_spec (i + 1) 0); [|lia].
    cbn [history maxlen current_index initial_state].
    replace (i + 1 - 1) with i by lia.
    destruct (deque_get_in_range d i) as (s & Hs & ->); [lia|].
    exists s. done.
Qed.

Lemma undo_redo_round_trip_witness :
  exists s,
    [[(u8 "a", 1)]; [(u8 "b", 2)]] !! Z.to_nat 1 = Some s /\
    redo (undo (mkHistory [[(u8 "a", 1)]; [(u8 "b", 2)]] 50 1 None)).1
    = (mkHistory [[(u8 "a", 1)]; [(u8 "b", 2)]] 50 1 None, Ret (Some s)).
Proof.
  apply (undo_redo_round_trip
           (mkHistory [[(u8 "a", 1)]; [(u8 "b", 2)]] 50 1 None)).
  - split; simpl; [lia | right; lia].
  - reflexivity.
Defined.

(** X3: [can_undo] and [can_redo] tell exactly when [undo] and [redo]
    return a snapshot; when they are false the call returns [None] and
    leaves the manager as it is. *)
Theorem can_undo_redo_exact (h : HistoryManager) :
  well_formed h ->
  (can_undo h = true <-> exists h' s, undo h = (h', Ret (Some s))) /\
  (can_undo h = false <-> undo h = (h, Ret None)) /\
  (can_redo h = true <-> exists h' s, redo h = (h', Ret (Some s))) /\
  (can_redo h = false <-> redo h = (h, Ret None)).
Proof.
  intros Hwf. pose proof (well_formed_index h Hwf) as Hidx.
  unfold can_undo, can_redo, undo, redo.
  split; [|split; [|split]].
  - destruct (current_index h >? 0) eqn:E.
    + rewrite Z.gtb_ltb in E. apply Z.ltb_lt in E. split; [intros _|done].
      destruct (deque_get_in_range (history h) (current_index h - 1))
        as (s & _ & Hs); [lia|].
      cbn [history current_index]. rewrite Hs. by eexists _, _.
    + split; [done|]. intros (h' & s & [=]).
  - destruct (current_index h >? 0) eqn:E.
    + rewrite Z.gtb_ltb in E. apply Z.ltb_lt in E. split; [done|].
      destruct (deque_get_in_range (history h) (current_index h - 1))
        as (s & _ & Hs); [lia|].
      cbn [history current_index]. rewrite Hs. intros [=].
    + done.
  - destruct (current_index h <? Z.of_nat (length (history h)) - 1) eqn:E.
    + apply Z.ltb_lt in E. split; [intros _|done].
      destruct (deque_get_in_range (history h) (current_index h + 1))
        as (s & _ & Hs); [lia|].
      cbn [history current_index]. rewrite Hs. by eexists _, _.
    + split; [done|]. intros (h' & s & [=]).
  - destruct (current_index h <? Z.of_nat (length (history h)) - 1) eqn:E.
    + apply Z.ltb_lt in E. split; [done|].
      destruct (deque_get_in_range (history h) (current_index h + 1))
        as (s & _ & Hs); [lia|].
      cbn [history current_index]. rewrite Hs. intros [=].
    + done.
Qed.

Lemma can_undo_redo_exact_witness :
  (can_undo (mkHistory [[(u8 "a", 1)]; [(u8 "b", 2)]] 50 1 None) = true <->
   exists h' s,
     undo (mkHistory [[(u8 "a", 1)]; [(u8 "b", 2)]] 50 1 None)
     = (h', Ret (Some s))) /\
  (can_redo (mkHistory [[(u8 "a", 1)]; [(u8 "b", 2)]] 50 1 None) = false <->
   redo (mkHistory [[(u8 "a", 1)]; [(u8 "b", 2)]] 50 1 None)
   = (mkHistory [[(u8 "a", 1)]; [(u8 "b", 2)]] 50 1 None, Ret None)).
Proof.
  destruct (can_undo_redo_exact
              (mkHistory [[(u8 "a", 1)]; [(u8 "b", 2)]] 50 1 None))
    as (H1 & _ & _ & H4).
  - split; simpl; [lia | right; lia].
  - split; [exact H1 | exact H4].
Defined.
Lemma deque_append_lookup_prev (m : nat) (d : list state) (x : state) :
  (2 <= m)%nat -> (1 <= length d)%nat ->
  deque_append m d x !! (length (deque_append m d x) - 2)%nat
  = d !! (length d - 1)%nat.
Proof.
  intros Hm Hd. rewrite deque_append_length. unfold deque_append.
  cbn zeta. rewrite lookup_drop, length_app. cbn [length].
  rewrite lookup_app_l by lia. f_equal. lia.
Qed.

(** X4: after [add_state] on a well-formed history with room for at least
    one snapshot there is nothing to redo and the cursor is on the new
    snapshot; with room for two, and a snapshot under the cursor before, an
    [undo] right after returns that earlier snapshot, also when the oldest
    snapshot was evicted. *)
Theorem add_state_then_undo (h : HistoryManager) (s : state) :
  well_formed h -> (1 <= maxlen h)%nat ->
  exists h',
    add_state h s = Ret h' /\
    can_redo h' = false /\
    deque_get (history h') (current_index h') = Ret s /\
    ((2 <= maxlen h)%nat -> 0 <= current_index h ->
     exists prev,
       history h !! Z.to_nat (current_index h) = Some prev /\
       (undo h').2 = Ret (Some prev)).
Proof.
  intros Hwf Hm. pose proof (well_formed_index h Hwf) as Hidx.
  rewrite HistoryFacts.add_state_ok by lia.
  eexists. split; [reflexivity|]. cbn zeta.
  set (d := take (Z.to_nat (current_index h + 1)) (history h)).
  assert (length d = Z.to_nat (current_index h + 1)) as Hd
    by (unfold d; rewrite length_take; lia).
  pose proof (deque_append_length (maxlen h) d s) as Hlen.
  pose proof (deque_append_last (maxlen h) d s Hm) as Hlast.
  pose proof (deque_append_lookup_prev (maxlen h) d s) as Hprev.
  remember (deque_append (maxlen h) d s) as d' eqn:Hd'.
  unfold can_redo, undo. cbn [history maxlen current_index initial_state].
  split; [apply Z.ltb_irrefl|]. split.
  - destruct (deque_get_in_range d' (Z.of_nat (length d') - 1))
      as (x & Hx & ->); [lia|].
    replace (Z.to_nat (Z.of_nat (length d') - 1))
      with (length d' - 1)%nat in Hx by lia.
    congruence.
  - intros Hm2 Hi.
    destruct (Z.gtb_spec (Z.of_nat (length d') - 1) 0); [|lia].
    cbn [snd history maxlen current_index initial_state].
    destruct (deque_get_in_range d' (Z.of_nat (length d') - 1 - 1))
      as (x & Hx & ->); [lia|].
    exists x. split; [|done]. rewrite <- Hx.
    replace (Z.to_nat (Z.of_nat (length d') - 1 - 1))
      with (length d' - 2)%nat by lia.
    rewrite Hprev by lia. rewrite Hd. unfold d.
    rewrite lookup_take_lt by lia. f_equal. lia.
Qed.

Lemma add_state_then_undo_witness :
  exists h',
    add_state (mkHistory [[(u8 "a", 1)]; [(u8 "b", 2)]] 2 1 None)
              [(u8 "c", 3)] = Ret h' /\
    history h' = [[(u8 "b", 2)]; [(u8 "c", 3)]] /\
    can_redo h' = false /\
    (undo h').2 = Ret (Some [(u8 "b", 2)]).
Proof.
  destruct (add_state_then_undo
              (mkHistory [[(u8 "a", 1)]; [(u8 "b", 2)]] 2 1 None)
              [(u8 "c", 3)])
    as (h' & Hadd & Hredo & _ & Hundo).
  - split; simpl; [lia | right; lia].
  - simpl. lia.
  - destruct Hundo as (prev & Hprev & Hu); [simpl; lia | simpl; lia|].
    exists h'. split; [exact Hadd|].
    split; [vm_compute in Hadd; by injection Hadd as <-|].
    split; [exact Hredo|]. rewrite Hu. vm_compute in Hprev.
    injection Hprev as <-. reflexivity.
Defined.

(** X5: on a history that is full, with the cursor on the last snapshot,
    [add_state] evicts the oldest snapshot: the others move down by one,
    the new one is last, and the number of snapshots stays the capacity. *)
Theorem add_state_evicts_oldest (h : HistoryManager) (s : state) :
  (1 <= maxlen h)%nat ->
  length (history h) = maxlen h ->
  current_index h = Z.of_nat (length (history h)) - 1 ->
  add_state h s
  = Ret (mkHistory (drop 1 (history h) ++ [s]) (maxlen h)
                   (Z.of_nat (maxlen h) - 1) (initial_state h)).
Proof.
  intros Hm Hfull Hidx.
  rewrite HistoryFacts.add_state_ok by lia. cbn zeta.
  rewrite take_ge by lia.
  assert (deque_append (maxlen h) (history h) s = drop 1 (history h) ++ [s])
    as ->.
  { unfold deque_append. cbn zeta. rewrite length_app. cbn [length].
    replace (length (history h) + 1 - maxlen h)%nat with 1%nat by lia.
    destruct (history h); [simpl in *; lia | done]. }
  do 2 f_equal. rewrite length_app, length_drop. cbn [length]. lia.
Qed.

Lemma add_state_evicts_oldest_witness :
  add_state (mkHistory [[(u8 "a", 1)]; [(u8 "b", 2)]] 2 1 None) [(u8 "c", 3)]
  = Ret (mkHistory [[(u8 "b", 2)]; [(u8 "c", 3)]] 2 1 None).
Proof.
  apply (add_state_evicts_oldest
           (mkHistory [[(u8 "a", 1)]; [(u8 "b", 2)]] 2 1 None) [(u8 "c", 3)]);
    simpl; [lia | reflexivity | reflexivity].
Defined.
End HistoryInvariant.

Module TableFacts.
Import History Window.



(** X7: [undo] cannot bring back an empty list.  After loading the empty
    list and one edit, [undo] moves the cursor of the history back to 0
    and returns normally, but the table keeps showing the result of the
    edit, because the empty snapshot counts as false in [if state:]. *)
Theorem table_undo_onto_empty (t : MainPhraseTable)
        (f : list entry -> list entry) :
  (2 <= maxlen (t_history t))%nat ->
  exists t1,
    Table.edit f (Table.load_data t []) = Ret t1 /\
    current_data t1 = f [] /\
    can_undo (t_history t1) = true /\
    (Table.undo t1).2 = Ret () /\
    current_index (t_history (Table.undo t1).1) = 0 /\
    current_data (Table.undo t1).1 = f [].
Proof.
  intros Hm. destruct t as [data0 [d0 m i0 s0] fo gf]. simpl in Hm.
  exists (mkTable (f []) (mkHistory [[]; []] m 1 (Some [])) fo gf).
  unfold Table.edit, Table.load_data, save_state, set_initial_state, deepcopy.
  cbn [t_history current_data t_folders t_global_folders maxlen].
  rewrite (HistoryFacts.deque_append_room m [] []) by (simpl; lia).
  rewrite HistoryFacts.add_state_ok by (simpl; lia).
  cbn [history maxlen current_index initial_state mbind outcome_bind obind
       t_history current_data t_folders t_global_folders].
  change (take (Z.to_nat (0 + 1)) ([] ++ [[] : state])) with [[] : state].
  rewrite (HistoryFacts.deque_append_room m [[] : state] []) by (simpl; lia).
  repeat split.
Qed.

Lemma table_undo_onto_empty_witness :
  exists t1,
    Table.edit (fun l => l ++ [(u8 "tea", 0)])
      (Table.load_data (mkTable [] (init 50) ∅ ∅) []) = Ret t1 /\
    current_data t1 = [(u8 "tea", 0)] /\
    current_index (t_history (Table.undo t1).1) = 0 /\
    current_data (Table.undo t1).1 = [(u8 "tea", 0)].
Proof.
  destruct (table_undo_onto_empty (mkTable [] (init 50) ∅ ∅)
              (fun l => l ++ [(u8 "tea", 0)]))
    as (t1 & H1 & H2 & _ & _ & H3 & H4).
  - simpl. lia.
  - exists t1. split; [exact H1|]. split; [exact H2|].
    split; [exact H3 | exact H4].
Defined.
End TableFacts.

Module SortFacts.
Import PhraseProcessor Order.

Lemma str_lt_irrefl (a : str) : str_lt a a = false.
Proof.
  induction a as [|x a IH]; simpl; [done|].
  by rewrite N.ltb_irrefl.
Qed.

Lemma str_lt_trans (a b c : str) :
  str_lt a b = true -> str_lt b c = true -> str_lt a c = true.
Proof.
  revert b c. induction a as [|x a IH]; intros [|y b] [|z c]; simpl;
    try done.
  destruct (N.ltb_spec x y), (N.ltb_spec y x), (N.ltb_spec y z),
    (N.ltb_spec z y), (N.ltb_spec x z), (N.ltb_spec z x);
    try done; try lia.
  apply IH.
Qed.

Lemma str_lt_total (a b : str) :
  str_lt a b = false -> str_lt b a = false -> a = b.
Proof.
  revert b. induction a as [|x a IH]; intros [|y b]; simpl; try done.
  destruct (N.ltb_spec x y), (N.ltb_spec y x); try done; try lia.
  intros Hab Hba. assert (x = y) as -> by lia. f_equal. by apply IH.
Qed.

Lemma str_lt_asym (a b : str) : str_lt a b = true -> str_lt b a = false.
Proof.
  intros Hab. destruct (str_lt b a) eqn:Hba; [|done].
  pose proof (str_lt_trans a b a Hab Hba) as Haa.
  by rewrite str_lt_irrefl in Haa.
Qed.

Lemma str_le_trans (a b c : str) :
  str_le a b = true -> str_le b c = true -> str_le a c = true.
Proof.
  unfold str_le. rewrite !negb_true_iff. intros Hba Hcb.
  destruct (str_lt c a) eqn:Hca; [|done].
  destruct (str_lt a b) eqn:Hab.
  - by rewrite (str_lt_trans c a b Hca Hab) in Hcb.
  - rewrite (str_lt_total a b Hab Hba) in Hca. congruence.
Qed.

Section Generic.
Context {K : Type} (key : entry -> K) (before : K -> K -> bool).
Hypothesis before_asym :
  forall a b, before a b = true -> before b a = false.

#[local] Abbreviation in_order := (Order.in_order key before).

Lemma sorted_insert_HdRel (a x : entry) (l : list entry) :
  in_order a x -> HdRel in_order a l ->
  HdRel in_order a (sorted_insert key before x l).
Proof.
  intros Hax Hal. destruct l as [|b l]; simpl; [by constructor|].
  destruct (before (key b) (key x)); constructor; [|done].
  by inversion Hal.
Qed.

Lemma sorted_insert_Sorted (x : entry) (l : list entry) :
  Sorted in_order l -> Sorted in_order (sorted_insert key before x l).
Proof.
  induction l as [|a l IH]; intros Hl; simpl.
  - by repeat constructor.
  - apply Sorted_inv in Hl as [Hl Ha].
    destruct (before (key a) (key x)) eqn:Hbx.
    + constructor; [by apply IH|].
      apply sorted_insert_HdRel; [|done]. by apply before_asym.
    + constructor; [by constructor|]. by constructor.
Qed.

Lemma sorted_Sorted (l : list entry) :
  Sorted in_order (sorted key before l).
Proof.
  unfold sorted. induction l as [|x l IH]; simpl; [constructor|].
  by apply sorted_insert_Sorted.
Qed.

Context `{EqDecision K}.
Hypothesis before_trans :
  forall a b c, before b a = false -> before c b = false ->
                before c a = false.
Hypothesis before_total :
  forall a b, before a b = false -> before b a = false -> a = b.

Lemma before_irrefl (a : K) : before a a = false.
Proof.
  destruct (before a a) eqn:E; [|done]. by rewrite (before_asym a a E) in E.
Qed.

Lemma sorted_insert_with_key (x : entry) (l : list entry) (k : K) :
  with_key key k (sorted_insert key before x l) = with_key key k (x :: l).
Proof.
  unfold with_key. induction l as [|a l IH]; [done|].
  cbn [sorted_insert]. destruct (before (key a) (key x)) eqn:Hax; [|done].
  cbn [List.filter] in *. rewrite IH.
  destruct (decide (key x = k)) as [Hx|Hx];
    destruct (decide (key a = k)) as [Ha|Ha];
    rewrite ?(bool_decide_eq_true_2 _ Hx), ?(bool_decide_eq_false_2 _ Hx),
      ?(bool_decide_eq_true_2 _ Ha), ?(bool_decide_eq_false_2 _ Ha);
    try done.
  rewrite Ha, <- Hx, before_irrefl in Hax. done.
Qed.

Lemma sorted_with_key (l : list entry) (k : K) :
  with_key key k (sorted key before l) = with_key key k l.
Proof.
  unfold sorted. induction l as [|x l IH]; [done|].
  cbn [foldr]. rewrite sorted_insert_with_key.
  unfold with_key in *. cbn [List.filter]. by rewrite IH.
Qed.

Lemma with_key_head (x : entry) (l : list entry) :
  with_key key (key x) (x :: l) = x :: with_key key (key x) l.
Proof. unfold with_key. simpl. by rewrite bool_decide_eq_true_2. Qed.

Lemma with_key_elem (x : entry) (l : list entry) (k : K) :
  x ∈ with_key key k l <-> x ∈ l /\ key x = k.
Proof.
  unfold with_key. rewrite !list_elem_of_In, filter_In.
  by rewrite bool_decide_eq_true.
Qed.

Lemma in_order_head (x y : entry) (l : list entry) :
  Sorted in_order (y :: l) -> x ∈ y :: l -> before (key x) (key y) = false.
Proof.
  intros Hs Hx. apply Sorted_StronglySorted in Hs.
  - apply StronglySorted_inv in Hs as [_ Hall].
    apply elem_of_cons in Hx as [->|Hx]; [apply before_irrefl|].
    rewrite Forall_forall in Hall. by apply Hall.
  - intros a b c. apply before_trans.
Qed.

(** a sorted list is determined by the entries it has under each key *)
Lemma sorted_unique (l1 l2 : list entry) :
  Sorted in_order l1 -> Sorted in_order l2 ->
  (forall k, with_key key k l1 = with_key key k l2) -> l1 = l2.
Proof.
  revert l2. induction l1 as [|x l1 IH]; intros l2 Hs1 Hs2 Hk.
  - destruct l2 as [|y l2]; [done|].
    specialize (Hk (key y)). rewrite with_key_head in Hk. discriminate Hk.
  - destruct l2 as [|y l2].
    { specialize (Hk (key x)). rewrite with_key_head in Hk.
      discriminate Hk. }
    assert (key x = key y) as Hxy.
    { apply before_total.
      - apply (in_order_head x y l2 Hs2).
        apply (with_key_elem x (y :: l2) (key x)). rewrite <- Hk.
        rewrite with_key_head. left.
      - apply (in_order_head y x l1 Hs1).
        apply (with_key_elem y (x :: l1) (key y)). rewrite Hk.
        rewrite with_key_head. left. }
    pose proof (Hk (key x)) as Hx. rewrite with_key_head in Hx.
    rewrite Hxy, with_key_head in Hx. injection Hx as -> Hrest.
    f_equal. apply IH.
    + by apply Sorted_inv in Hs1 as [? _].
    + by apply Sorted_inv in Hs2 as [? _].
    + intros k. specialize (Hk k). unfold with_key in *.
      cbn [List.filter] in Hk. destruct (bool_decide (key y = k)); [|done].
      by injection Hk.
Qed.
End Generic.

Lemma Sorted_weaken {A} (R R' : A -> A -> Prop) (l : list A) :
  (forall x y, R x y -> R' x y) -> Sorted R l -> Sorted R' l.
Proof.
  intros HR. induction 1 as [|x l Hl IH Hx]; constructor; [done|].
  destruct Hx; constructor; auto.
Qed.

Section Sorts.
Context `{P : Platform}.

(** X8: [sort_phrases_by_frequency] returns the entries in ascending order
    of frequency, or in descending order with [reverse]: every entry has a
    frequency at most (at least) that of every entry after it. *)
Theorem sort_by_frequency_sorted (phrases : list entry) :
  StronglySorted (fun x y : entry => x.2 <= y.2)
                 (sort_phrases_by_frequency phrases false) /\
  StronglySorted (fun x y : entry => y.2 <= x.2)
                 (sort_phrases_by_frequency phrases true).
Proof.
  split; apply Sorted_StronglySorted; try (intros x y z; lia).
  - eapply Sorted_weaken; [|apply (sorted_Sorted (fun x : entry => x.2)
                                     (fun a b => a <? b))].
    + unfold Order.in_order. intros x y Hxy. apply Z.ltb_ge in Hxy. lia.
    + intros a b Hab. apply Z.ltb_lt in Hab. apply Z.ltb_ge. lia.
  - eapply Sorted_weaken; [|apply (sorted_Sorted (fun x : entry => x.2)
                                     (fun a b => b <? a))].
    + unfold Order.in_order. intros x y Hxy. apply Z.ltb_ge in Hxy. lia.
    + intros a b Hab. apply Z.ltb_lt in Hab. apply Z.ltb_ge. lia.
Qed.

(** X9: [sort_phrases_alphabetically] returns the entries in ascending
    order of their lower-cased text, compared by code points, or in
    descending order with [reverse]. *)
Theorem sort_alphabetically_sorted (phrases : list entry) :
  StronglySorted (fun x y : entry => str_le (lower x.1) (lower y.1) = true)
                 (sort_phrases_alphabetically phrases false) /\
  StronglySorted (fun x y : entry => str_le (lower y.1) (lower x.1) = true)
                 (sort_phrases_alphabetically phrases true).
Proof.
  split; apply Sorted_StronglySorted.
  - intros x y z. apply str_le_trans.
  - eapply Sorted_weaken; [|apply (sorted_Sorted (fun x : entry => lower x.1)
                                     (fun a b => str_lt a b))].
    + unfold Order.in_order, str_le. intros x y Hxy. by rewrite Hxy.
    + apply str_lt_asym.
  - intros x y z Hxy Hyz. by apply (str_le_trans _ (lower y.1)).
  - eapply Sorted_weaken; [|apply (sorted_Sorted (fun x : entry => lower x.1)
                                     (fun a b => str_lt b a))].
    + unfold Order.in_order, str_le. intros x y Hxy. by rewrite Hxy.
    + intros a b. apply str_lt_asym.
Qed.

(** X10: both sorts are stable, in both directions: the entries with one
    frequency, or with one lower-cased text, come out in the order they
    had in the input. *)
Theorem sorts_are_stable (phrases : list entry) (reverse : bool) :
  (forall n : Z,
      with_key (fun x : entry => x.2) n
               (sort_phrases_by_frequency phrases reverse)
      = with_key (fun x : entry => x.2) n phrases) /\
  (forall k : str,
      with_key (fun x : entry => lower x.1) k
               (sort_phrases_alphabetically phrases reverse)
      = with_key (fun x : entry => lower x.1) k phrases).
Proof.
  split; intros k.
  - apply sorted_with_key. intros a b Hab.
    destruct reverse; apply Z.ltb_lt in Hab; apply Z.ltb_ge; lia.
  - apply sorted_with_key. intros a b Hab.
    destruct reverse; by apply str_lt_asym.
Qed.
(** X11: sorting a sorted list changes nothing, and sorting in one
    direction a list that was sorted in the other gives the same as
    sorting the input directly, for both sorts. *)
Theorem sorts_compose (phrases : list entry) (r1 r2 : bool) :
  sort_phrases_by_frequency (sort_phrases_by_frequency phrases r1) r2
  = sort_phrases_by_frequency phrases r2 /\
  sort_phrases_alphabetically (sort_phrases_alphabetically phrases r1) r2
  = sort_phrases_alphabetically phrases r2.
Proof.
  split.
  - apply sorted_unique with
      (key := fun x : entry => x.2)
      (before := fun a b => if r2 then b <? a else a <? b) (EqDecision0 := _).
    + intros a b Hab. destruct r2; apply Z.ltb_lt in Hab; apply Z.ltb_ge; lia.
    + intros a b c Hab Hbc.
      destruct r2; apply Z.ltb_ge in Hab, Hbc; apply Z.ltb_ge; lia.
    + intros a b Hab Hba. destruct r2; apply Z.ltb_ge in Hab, Hba; lia.
    + apply sorted_Sorted. intros a b Hab.
      destruct r2; apply Z.ltb_lt in Hab; apply Z.ltb_ge; lia.
    + apply sorted_Sorted. intros a b Hab.
      destruct r2; apply Z.ltb_lt in Hab; apply Z.ltb_ge; lia.
    + intros k. unfold sort_phrases_by_frequency.
      rewrite !sorted_with_key; [done|..];
        intros a b Hab; destruct r1, r2;
        apply Z.ltb_lt in Hab; apply Z.ltb_ge; lia.
  - assert (forall (r : bool) (a b : str),
               (if r then str_lt b a else str_lt a b) = true ->
               (if r then str_lt a b else str_lt b a) = false) as Hasym
      by (intros [] a b; apply str_lt_asym).
    apply sorted_unique with
      (key := fun x : entry => lower x.1)
      (before := fun a b => if r2 then str_lt b a else str_lt a b)
      (EqDecision0 := _).
    + apply Hasym.
    + intros a b c Hab Hbc. destruct r2.
      * apply negb_true_iff.
        apply (str_le_trans _ b); by apply negb_true_iff.
      * apply negb_true_iff.
        apply (str_le_trans _ b); by apply negb_true_iff.
    + intros a b Hab Hba. destruct r2; [symmetry|]; by apply str_lt_total.
    + apply sorted_Sorted, Hasym.
    + apply sorted_Sorted, Hasym.
    + intros k. unfold sort_phrases_alphabetically.
      rewrite !sorted_with_key; [done|..]; apply Hasym.
Qed.
End Sorts.
End SortFacts.

Module PartitionFacts.
Section Partition.
Context `{P : Platform}.
Import PhraseProcessor Shapes.

Lemma dict_append_keys (d : list (str * list entry)) (k : str) (x : entry) :
  (dict_append d k x).*1
  = if bool_decide (k ∈ d.*1) then d.*1 else d.*1 ++ [k].
Proof.
  induction d as [|[k' g] d IH].
  - rewrite bool_decide_eq_false_2; [done | apply not_elem_of_nil].
  - cbn [dict_append]. rewrite fmap_cons. cbn [fst].
    destruct (decide (k' = k)) as [->|Hk].
    + rewrite !bool_decide_eq_true_2; [done | left | done].
    + rewrite (bool_decide_eq_false_2 (k' = k)) by done.
      rewrite fmap_cons, IH. cbn [fst].
      destruct (decide (k ∈ d.*1)) as [Hin|Hin].
      * rewrite !bool_decide_eq_true_2; [done | by right | done].
      * rewrite !bool_decide_eq_false_2; [done | | done].
        rewrite elem_of_cons. intros [?|?]; congruence.
Qed.

Lemma dict_append_concat (d : list (str * list entry)) (k : str)
      (x : entry) :
  concat (dict_append d k x).*2 ≡ₚ x :: concat d.*2.
Proof.
  induction d as [|[k' g] d IH]; [done|].
  cbn [dict_append]. case_bool_decide.
  - rewrite !fmap_cons. cbn [snd concat].
    rewrite <- app_assoc. cbn [app]. by rewrite <- Permutation_middle.
  - rewrite !fmap_cons. cbn [snd concat]. rewrite IH.
    by rewrite <- Permutation_middle.
Qed.

Lemma dict_append_elem (d : list (str * list entry)) (k : str) (x : entry)
      (k' : str) (g' : list entry) :
  (k', g') ∈ dict_append d k x ->
  (k', g') ∈ d \/
  k' = k /\ exists g0, g' = g0 ++ [x] /\ (g0 = [] \/ (k, g0) ∈ d).
Proof.
  induction d as [|[k0 g0] d IH]; cbn [dict_append].
  - intros [= -> ->]%list_elem_of_singleton. right. split; [done|].
    exists []. split; [done | by left].
  - case_bool_decide as Hk.
    + subst k0. intros [[= -> ->]|Hin]%elem_of_cons.
      * right. split; [done|]. exists g0. split; [done|]. right. left.
      * left. by right.
    + intros [[= -> ->]|Hin]%elem_of_cons; [left; left|].
      destruct (IH Hin) as [?|(-> & g1 & -> & [->|Hg1])].
      * left. by right.
      * right. split; [done|]. exists []. split; [done | by left].
      * right. split; [done|]. exists g1. split; [done|]. right. by right.
Qed.

Lemma group_fold_grouped (phrases : list entry)
      (d : list (str * list entry)) :
  grouped d ->
  grouped (fold_left (fun groups e => dict_append groups (main_word e.1) e)
                     phrases d) /\
  concat (fold_left (fun groups e => dict_append groups (main_word e.1) e)
                    phrases d).*2
  ≡ₚ concat d.*2 ++ phrases.
Proof.
  revert d. induction phrases as [|e rest IH]; intros d Hd.
  - simpl. by rewrite app_nil_r.
  - cbn [fold_left].
    destruct (IH (dict_append d (main_word e.1) e)) as [Hg Hc].
    + destruct Hd as [Hnd Hall]. split.
      * rewrite dict_append_keys. case_bool_decide; [done|].
        apply NoDup_app. split; [done|]. split; [|apply NoDup_singleton].
        intros k Hk ->%list_elem_of_singleton. done.
      * intros k g Hin.
        apply dict_append_elem in Hin
          as [Hin|(-> & g0 & -> & [->|Hg0])]; [by apply Hall| |].
        -- split; [done|]. by repeat constructor.
        -- split; [by destruct g0|].
           apply Forall_app. split; [by apply (Hall _ _ Hg0)|].
           by repeat constructor.
    + split; [done|]. rewrite Hc, dict_append_concat.
      by rewrite <- Permutation_middle.
Qed.

(** X12: [group_phrases] is a partition of its input: no key occurs
    twice, no group is empty, every entry of a group has the key of the
    group, and the groups together hold exactly the entries of the input,
    each as often as the input has it. *)
Theorem group_phrases_partition (phrases : list entry) :
  NoDup (group_phrases phrases).*1 /\
  (forall k g, (k, g) ∈ group_phrases phrases ->
               g <> [] /\ Forall (fun e => main_word e.1 = k) g) /\
  concat (group_phrases phrases).*2 ≡ₚ phrases.
Proof.
  destruct (group_fold_grouped phrases []) as [[Hnd Hall] Hc].
  - split; [constructor|]. intros k g Hin. by apply elem_of_nil in Hin.
  - split; [done|]. split; [done|]. by rewrite Hc.
Qed.
End Partition.
End PartitionFacts.

Module StripFacts.
Import PhraseProcessor Shapes.

Lemma lstrip_split (s : str) :
  exists ws, s = ws ++ lstrip s /\ Forall (fun c => isspace c = true) ws
             /\ starts_clean (lstrip s).
Proof.
  induction s as [|c s (ws & Hs & Hws & Hc)].
  - exists []. by repeat split.
  - simpl. destruct (isspace c) eqn:Ec.
    + exists (c :: ws). split; [by rewrite Hs at 1|].
      split; [by constructor | done].
    + exists []. by repeat split.
Qed.

Lemma lstrip_clean (s : str) : starts_clean s -> lstrip s = s.
Proof. destruct s as [|c s]; simpl; [done|]. by intros ->. Qed.

Lemma rstrip_split (s : str) :
  exists ws, s = rstrip s ++ ws /\ Forall (fun c => isspace c = true) ws
             /\ ends_clean (rstrip s).
Proof.
  unfold rstrip, ends_clean.
  destruct (lstrip_split (reverse s)) as (ws & Hs & Hws & Hc).
  exists (reverse ws). split; [|split].
  - rewrite <- reverse_app, <- Hs. by rewrite reverse_involutive.
  - by apply Forall_reverse.
  - by rewrite reverse_involutive.
Qed.

Lemma rstrip_clean (s : str) : ends_clean s -> rstrip s = s.
Proof.
  unfold rstrip, ends_clean. intros Hc. rewrite lstrip_clean by done.
  apply reverse_involutive.
Qed.

Lemma starts_clean_prefix (s t : str) :
  starts_clean (s ++ t) -> starts_clean s.
Proof. by destruct s. Qed.

(** [strip] cuts white space off both ends and leaves none there *)
Lemma strip_split (s : str) :
  exists ws1 ws2,
    s = ws1 ++ strip s ++ ws2 /\
    Forall (fun c => isspace c = true) ws1 /\
    Forall (fun c => isspace c = true) ws2 /\
    starts_clean (strip s) /\ ends_clean (strip s).
Proof.
  unfold strip.
  destruct (lstrip_split s) as (ws1 & Hs & Hws1 & Hc1).
  destruct (rstrip_split (lstrip s)) as (ws2 & Hs2 & Hws2 & Hc2).
  exists ws1, ws2. split; [by rewrite <- Hs2|].
  split; [done|]. split; [done|]. split; [|done].
  rewrite Hs2 in Hc1. by eapply starts_clean_prefix.
Qed.

Lemma strip_clean (s : str) : starts_clean s -> ends_clean s -> strip s = s.
Proof.
  intros H1 H2. unfold strip. rewrite lstrip_clean by done.
  by apply rstrip_clean.
Qed.

Lemma strip_idemp (s : str) : strip (strip s) = strip s.
Proof.
  destruct (strip_split s) as (_ & _ & _ & _ & _ & H1 & H2).
  by apply strip_clean.
Qed.

Lemma strip_sublist (s : str) : strip s `sublist_of` s.
Proof.
  destruct (strip_split s) as (ws1 & ws2 & Hs & _).
  rewrite Hs at 2. apply sublist_inserts_l, sublist_inserts_r. done.
Qed.

Lemma spaced_once_cons (a : char) (o : str) :
  spaced_once (a :: o) <->
  (forall b, head o = Some b -> isspace a = false \/ isspace b = false) /\
  spaced_once o.
Proof.
  unfold spaced_once. split.
  - intros H. split.
    + intros b Hb. apply (H 0%nat a b); [done|]. by destruct o.
    + intros i x y Hx Hy. by apply (H (S i) x y).
  - intros [Hhd Htl] [|i] x y Hx Hy.
    + simpl in Hx. injection Hx as <-. apply Hhd. by destruct o.
    + by apply (Htl i x y).
Qed.

Lemma spaced_once_infix (l1 t l2 : str) :
  spaced_once (l1 ++ t ++ l2) -> spaced_once t.
Proof.
  intros H i a b Ha Hb. apply (H (length l1 + i)%nat a b).
  - rewrite (lookup_app_r l1 (t ++ l2)) by lia.
    replace (length l1 + i - length l1)%nat with i by lia.
    by apply lookup_app_l_Some.
  - replace (S (length l1 + i)) with (length l1 + S i)%nat by lia.
    rewrite (lookup_app_r l1 (t ++ l2)) by lia.
    replace (length l1 + S i - length l1)%nat with (S i) by lia.
    by apply lookup_app_l_Some.
Qed.
End StripFacts.

Module CleanShape.
Section CleanShape.
Context `{P : Platform}.
Import PhraseProcessor Shapes StripFacts.

Lemma sub_special_chars (phrase : str) :
  Forall (fun c => is_word c = true \/ isspace c = true)
         (sub_special phrase).
Proof.
  unfold sub_special. induction phrase as [|c s IH]; [constructor|].
  cbn [List.map]. constructor; [|done].
  destruct (is_word c) eqn:Hw; [by left|].
  destruct (isspace c) eqn:Hs; [by right|]. by right.
Qed.

Lemma sub_spaces_from_shape (in_run : bool) (s : str) :
  Forall (fun c => is_word c = true \/ isspace c = true) s ->
  spaced_once (sub_spaces_from in_run s) /\
  (in_run = true -> starts_clean (sub_spaces_from in_run s)) /\
  Forall clean_char (sub_spaces_from in_run s).
Proof.
  revert in_run. induction s as [|c s IH]; intros in_run Hs.
  - simpl. split; [|by split]. by intros [|i] a b Ha Hb.
  - apply Forall_cons in Hs as [Hc Hs]. cbn [sub_spaces_from].
    destruct (isspace c) eqn:Ec.
    + destruct in_run; [by apply IH|].
      destruct (IH true Hs) as (Hsp & Hst & Hch).
      split; [|split; [done|]].
      * apply spaced_once_cons. split; [|done].
        intros b Hb. right. specialize (Hst eq_refl).
        destruct (sub_spaces_from true s); [done|].
        simpl in Hb. by injection Hb as <-.
      * constructor; [by left | done].
    + destruct (IH false Hs) as (Hsp & _ & Hch).
      split; [|split; [done|]].
      * apply spaced_once_cons. split; [|done]. intros b _. by left.
      * constructor; [|done]. right. split; [done|].
        destruct Hc as [?|?]; [done | congruence].
Qed.

Lemma clean_shape (phrase : str) :
  clean phrase <> [] -> clean_text (clean phrase).
Proof.
  intros Hne. unfold clean in *.
  destruct (sub_spaces_from_shape false (sub_special phrase)
              (sub_special_chars phrase)) as (Hsp & _ & Hch).
  fold (sub_spaces (sub_special phrase)) in Hsp, Hch.
  destruct (strip_split (sub_spaces (sub_special phrase)))
    as (ws1 & ws2 & Hs & _ & _ & H1 & H2).
  split; [done|]. split; [done|]. split; [done|]. split.
  - rewrite Hs in Hsp. by eapply spaced_once_infix.
  - rewrite Forall_forall in *. intros c Hc. apply Hch.
    by apply (sublist_subseteq _ _ (strip_sublist _)).
Qed.

(** X13: every text that [remove_special_chars] returns is non-empty, has
    no white space at either end and no two white-space characters in a
    row, and consists of the space U+0020 and of word characters
    (alphanumeric or underscore) only; each entry returned is the cleaned
    form of an input entry with its frequency, in input order. *)
Theorem remove_special_chars_shape (phrases : list entry) :
  Forall (fun e : entry => clean_text e.1) (remove_special_chars phrases) /\
  remove_special_chars phrases
  = List.filter (fun e : entry => negb (bool_decide (e.1 = [])))
                ((fun e : entry => (clean e.1, e.2)) <$> phrases).
Proof.
  unfold remove_special_chars. split.
  - induction phrases as [|e l IH]; [constructor|].
    cbn [omap list_omap]. destruct (clean e.1) eqn:Hc; [done|].
    constructor; [|done]. cbn [fst]. rewrite <- Hc. apply clean_shape.
    by rewrite Hc.
  - induction phrases as [|e l IH]; [done|].
    cbn [omap list_omap]. rewrite fmap_cons. cbn [List.filter fst].
    destruct (clean e.1) eqn:Hc.
    + by rewrite bool_decide_eq_true_2.
    + rewrite bool_decide_eq_false_2 by done. cbn [negb]. by rewrite <- IH.
Qed.

Lemma sub_special_clean (s : str) :
  Forall clean_char s -> sub_special s = s.
Proof.
  unfold sub_special. induction 1 as [|c s Hc _ IH]; [done|].
  cbn [List.map]. rewrite IH. f_equal.
  destruct Hc as [->|[_ Hw]]; [|by rewrite Hw].
  by rewrite orb_true_r.
Qed.

Lemma sub_spaces_from_clean (in_run : bool) (s : str) :
  Forall clean_char s -> spaced_once s ->
  (in_run = true -> starts_clean s) ->
  sub_spaces_from in_run s = s.
Proof.
  revert in_run. induction s as [|c s IH]; intros in_run Hch Hsp Hst;
    [done|].
  apply Forall_cons in Hch as [Hc Hch].
  apply spaced_once_cons in Hsp as [Hhd Hsp].
  cbn [sub_spaces_from]. destruct (isspace c) eqn:Ec.
  - destruct in_run; [simpl in Hst; by rewrite Hst in Ec|].
    destruct Hc as [->|[? _]]; [|congruence]. f_equal.
    apply IH; [done | done|]. intros _.
    destruct s as [|b s]; [done|]. simpl.
    destruct (Hhd b eq_refl) as [?|?]; [congruence | done].
  - f_equal. apply IH; [done | done | done].
Qed.

Lemma clean_idemp (phrase : str) : clean (clean phrase) = clean phrase.
Proof.
  destruct (clean phrase) as [|c s] eqn:Hc; [done|]. rewrite <- Hc.
  destruct (clean_shape phrase) as (_ & H1 & H2 & Hsp & Hch);
    [by rewrite Hc|].
  unfold clean at 1. rewrite sub_special_clean by done.
  unfold sub_spaces. rewrite sub_spaces_from_clean by done.
  by apply strip_clean.
Qed.

(** X14: [remove_special_chars] is idempotent. *)
Theorem remove_special_chars_idemp (phrases : list entry) :
  remove_special_chars (remove_special_chars phrases)
  = remove_special_chars phrases.
Proof.
  unfold remove_special_chars.
  induction phrases as [|e l IH]; [done|].
  cbn [omap list_omap]. destruct (clean e.1) as [|c s] eqn:Hc; [done|].
  cbn [omap list_omap fst snd]. rewrite <- Hc, clean_idemp, Hc.
  by rewrite IH.
Qed.
End CleanShape.
End CleanShape.

Module FilterFacts.
Section Filters.
Context `{P : Platform}.
Import PhraseProcessor Spec.

Lemma filter_twice {A} (p q : A -> bool) (l : list A) :
  List.filter q (List.filter p l) = List.filter (fun x => p x && q x) l.
Proof.
  induction l as [|x l IH]; [done|]. cbn [List.filter].
  destruct (p x); cbn [List.filter andb]; [by rewrite IH | done].
Qed.

Lemma filter_sublist_impl {A} (p q : A -> bool) (l : list A) :
  (forall x, p x = true -> q x = true) ->
  List.filter p l `sublist_of` List.filter q l.
Proof.
  intros Hpq. induction l as [|x l IH]; [done|]. cbn [List.filter].
  destruct (p x) eqn:Hp.
  - rewrite (Hpq x Hp). by constructor.
  - destruct (q x); [by constructor | done].
Qed.

Lemma disjoint_union (W s1 s2 : gset str) :
  bool_decide (W ∩ (s1 ∪ s2) = ∅)
  = bool_decide (W ∩ s1 = ∅) && bool_decide (W ∩ s2 = ∅).
Proof.
  apply eq_true_iff_eq.
  rewrite andb_true_iff, !bool_decide_eq_true.
  rewrite intersection_union_l_L, empty_union_L. done.
Qed.

(** X15: filtering by the union of two stop-word sets is filtering by
    one set and then by the other (whole-token variant). *)
Theorem filter_by_stop_words_union (phrases : list entry)
        (sw1 sw2 : gset str) :
  filter_by_stop_words phrases (sw1 ∪ sw2)
  = filter_by_stop_words (filter_by_stop_words phrases sw1) sw2.
Proof.
  unfold filter_by_stop_words.
  destruct (decide (sw1 = ∅)) as [->|H1].
  { rewrite (bool_decide_eq_true_2 (∅ = ∅)) by done.
    by rewrite (left_id_L ∅ (∪)). }
  destruct (decide (sw2 = ∅)) as [->|H2].
  { rewrite (bool_decide_eq_true_2 (∅ = ∅)) by done.
    by rewrite (right_id_L ∅ (∪)). }
  rewrite !bool_decide_eq_false_2; [|done|done|].
  - rewrite filter_twice. apply List.filter_ext. intros e.
    apply disjoint_union.
  - intros [? ?]%empty_union_L. done.
Qed.

Lemma existsb_elements_union (f : str -> bool) (s1 s2 : gset str) :
  existsb f (elements (s1 ∪ s2))
  = existsb f (elements s1) || existsb f (elements s2).
Proof.
  apply eq_true_iff_eq.
  rewrite orb_true_iff, !existsb_exists. split.
  - intros (x & Hx & Hf). apply list_elem_of_In, elem_of_elements in Hx.
    apply elem_of_union in Hx as [Hx|Hx]; [left|right]; exists x;
      (split; [by apply list_elem_of_In, elem_of_elements | done]).
  - intros [(x & Hx & Hf)|(x & Hx & Hf)]; exists x;
      apply list_elem_of_In, elem_of_elements in Hx;
      (split; [|done]); apply list_elem_of_In, elem_of_elements;
      apply elem_of_union; [by left | by right].
Qed.

(** X16: the same for the substring variant of main_merged_qt5.py. *)
Theorem filter_by_stop_words_qt5_union (phrases : list entry)
        (sw1 sw2 : gset str) :
  filter_by_stop_words_qt5 phrases (sw1 ∪ sw2)
  = filter_by_stop_words_qt5 (filter_by_stop_words_qt5 phrases sw1) sw2.
Proof.
  unfold filter_by_stop_words_qt5.
  destruct (decide (sw1 = ∅)) as [->|H1].
  { rewrite (bool_decide_eq_true_2 (∅ = ∅)) by done.
    by rewrite (left_id_L ∅ (∪)). }
  destruct (decide (sw2 = ∅)) as [->|H2].
  { rewrite (bool_decide_eq_true_2 (∅ = ∅)) by done.
    by rewrite (right_id_L ∅ (∪)). }
  rewrite !bool_decide_eq_false_2; [|done|done|].
  - rewrite filter_twice. apply List.filter_ext. intros e. cbv zeta.
    by rewrite existsb_elements_union, negb_orb.
  - intros [? ?]%empty_union_L. done.
Qed.

Lemma str_contains_infix (a needle b : str) :
  str_contains needle (a ++ needle ++ b) = true.
Proof.
  induction a as [|c a IH].
  - cbn [app]. destruct (needle ++ b) eqn:E; cbn [str_contains];
      rewrite bool_decide_eq_true_2; try done; rewrite <- E;
      by apply prefix_app_r.
  - cbn [app str_contains]. rewrite IH. by case_bool_decide.
Qed.

Lemma split_from_infix (s cur t : str) :
  t ∈ split_from cur s -> exists a b, reverse cur ++ s = a ++ t ++ b.
Proof.
  revert cur. induction s as [|c s IH]; intros cur Ht.
  - cbn [split_from] in Ht. destruct cur as [|x cur];
      [by apply elem_of_nil in Ht|].
    apply list_elem_of_singleton in Ht as ->. exists [], [].
    by rewrite !app_nil_r.
  - cbn [split_from] in Ht. destruct (isspace c).
    + destruct cur as [|x cur].
      * apply IH in Ht as (a & b & E). exists (c :: a), b.
        rewrite reverse_nil in *. cbn [app] in *. by rewrite E.
      * apply elem_of_cons in Ht as [->|Ht].
        -- by exists [], (c :: s).
        -- apply IH in Ht as (a & b & E). rewrite reverse_nil in E.
           cbn [app] in E.
           exists (reverse (x :: cur) ++ c :: a), b.
           rewrite E, <- app_assoc. done.
    + apply IH in Ht as (a & b & E). exists a, b.
      rewrite <- E, reverse_cons, <- app_assoc. done.
Qed.

Lemma split_contains (s t : str) : t ∈ split s -> str_contains t s = true.
Proof.
  intros (a & b & E)%split_from_infix. rewrite reverse_nil in E.
  cbn [app] in E. rewrite E. apply str_contains_infix.
Qed.

(** X17: with stop words in lower case (as the stop-word widget stores
    them), every entry the substring variant keeps is kept by the
    whole-token variant too. *)
Theorem substring_filter_is_stricter (phrases : list entry)
        (stop_words : gset str) :
  set_Forall (fun w => lower w = w) stop_words ->
  filter_by_stop_words_qt5 phrases stop_words
    `sublist_of` filter_by_stop_words phrases stop_words.
Proof.
  intros Hlow. unfold filter_by_stop_words_qt5, filter_by_stop_words.
  case_bool_decide; [done|].
  apply filter_sublist_impl. intros e He. cbv zeta in *.
  apply bool_decide_eq_true. apply negb_true_iff in He.
  apply elem_of_equiv_empty_L. intros w [Hw Hs]%elem_of_intersection.
  apply elem_of_list_to_set in Hw.
  apply not_true_iff_false in He. apply He.
  apply existsb_exists. exists w. split.
  - by apply list_elem_of_In, elem_of_elements.
  - rewrite (Hlow w Hs). by apply split_contains.
Qed.

(** *** remove_duplicates twice *)

Lemma first_occurrences_from_NoDup_id (phrases earlier : list entry) :
  NoDup ((fun e : entry => norm_key e.1) <$> (earlier ++ phrases)) ->
  first_occurrences_from earlier phrases = phrases.
Proof.
  revert earlier. induction phrases as [|e rest IH]; intros earlier Hnd;
    [done|].
  cbn [first_occurrences_from].
  rewrite bool_decide_eq_false_2.
  - f_equal. apply IH. by rewrite <- app_assoc.
  - rewrite fmap_app, fmap_cons in Hnd.
    apply NoDup_app in Hnd as (_ & Hd & _). intros Hin.
    apply (Hd _ Hin). by left.
Qed.

(** X18: [remove_duplicates] is idempotent on a list whose texts compare
    the same with or without their surrounding white space. *)
Theorem remove_duplicates_idemp (phrases : list entry) :
  Forall (fun e : entry => norm_key (strip e.1) = norm_key e.1) phrases ->
  remove_duplicates (remove_duplicates phrases) = remove_duplicates phrases.
Proof.
  intros Hk.
  rewrite (DedupFacts.remove_duplicates_eq
             (remove_duplicates phrases)).
  rewrite (DedupFacts.remove_duplicates_eq phrases).
  pose proof (DedupFacts.first_occurrences_from_sublist phrases []) as Hsub.
  pose proof (DedupFacts.first_occurrences_from_NoDup phrases []) as Hnd.
  fold (first_occurrences phrases) in Hsub, Hnd.
  assert (Forall (fun e : entry => norm_key (strip e.1) = norm_key e.1)
                 (first_occurrences phrases)) as Hk'.
  { rewrite Forall_forall in *. intros e He.
    by apply Hk, (sublist_subseteq _ _ Hsub). }
  clear Hk Hsub. unfold first_occurrences at 1.
  rewrite first_occurrences_from_NoDup_id.
  - rewrite <- list_fmap_compose. apply list_fmap_ext.
    intros _ [p f] _. unfold trimmed. cbn [compose fst snd].
    by rewrite StripFacts.strip_idemp.
  - cbn [app]. rewrite <- list_fmap_compose.
    erewrite list_fmap_ext; [exact Hnd|].
    intros i e He. cbn [compose trimmed fst].
    rewrite Forall_forall in Hk'. apply Hk'.
    by eapply list_elem_of_lookup_2.
Qed.

(** X19: two passes of [remove_long_phrases] keep what one pass with the
    smaller bound keeps. *)
Theorem remove_long_phrases_twice (phrases : list entry) (m n : Z) :
  remove_long_phrases (remove_long_phrases phrases m) n
  = remove_long_phrases phrases (Z.min m n).
Proof.
  unfold remove_long_phrases. rewrite filter_twice.
  apply List.filter_ext. intros e. apply eq_true_iff_eq.
  rewrite andb_true_iff, !Z.leb_le. lia.
Qed.

End Filters.

Import PhraseProcessor.

Lemma substring_filter_is_stricter_witness :
  @filter_by_stop_words_qt5 Basic.platform
    [(u8 "cheap flights", 10); (u8 "flight", 3)] {[u8 "flights"]}
    `sublist_of`
  @filter_by_stop_words Basic.platform
    [(u8 "cheap flights", 10); (u8 "flight", 3)] {[u8 "flights"]}.
Proof.
  apply (@substring_filter_is_stricter Basic.platform).
  intros w Hw. apply elem_of_singleton in Hw. subst w. reflexivity.
Defined.

Lemma remove_duplicates_idemp_witness :
  @remove_duplicates Basic.platform
    (@remove_duplicates Basic.platform
       [(u8 " Apple ", 100); (u8 "apple", 5); (u8 "pear", 1)])
  = @remove_duplicates Basic.platform
      [(u8 " Apple ", 100); (u8 "apple", 5); (u8 "pear", 1)].
Proof.
  apply (@remove_duplicates_idemp Basic.platform).
  repeat constructor.
Defined.
End FilterFacts.

Module FolderActionFacts.
Section Actions.
Context `{P : Platform}.
Import History Folder Window PhraseProcessor FolderActions.

(** X20: [add_phrases_to_folder] gives every folder, in order, the pairs
    addressed to it and nothing else; a pair addressed to a name that is
    no folder is dropped, and no folder is created or removed. *)
Theorem add_phrases_to_folder_each (folders : gmap str Folder)
        (data : list (str * str * Z)) :
  (forall k,
      add_phrases_to_folder folders data !! k
      = (fun fd => add_all fd (addressed_to k data)) <$> folders !! k) /\
  dom (add_phrases_to_folder folders data) = dom folders.
Proof.
  assert (forall k,
             add_phrases_to_folder folders data !! k
             = (fun fd => add_all fd (addressed_to k data))
                 <$> folders !! k) as Hlook.
  { unfold add_phrases_to_folder, addressed_to.
    revert folders. induction data as [|[[fn p] f] data IH];
      intros folders k.
    - cbn. by destruct (folders !! k).
    - cbn [fold_left List.filter fst snd].
      destruct (folders !! fn) as [fd|] eqn:Hfn.
      + rewrite IH. case_bool_decide as Hk.
        * subst fn. rewrite lookup_insert_eq, Hfn. done.
        * by rewrite lookup_insert_ne.
      + rewrite IH. case_bool_decide as Hk; [|done].
        subst fn. by rewrite Hfn. }
  split; [done|].
  apply set_eq. intros k. rewrite !elem_of_dom, Hlook.
  by rewrite fmap_is_Some.
Qed.

Lemma remove_all_phrases (texts : list entry) (fd : Folder) :
  remove_all fd texts
  = mkFolder (name fd)
      (List.filter
         (fun e : entry => negb (bool_decide (e.1 ∈ texts.*1)))
         (phrases fd)).
Proof.
  unfold remove_all. revert fd.
  induction texts as [|[p f] texts IH]; intros [n l].
  - cbn. f_equal. induction l as [|e l IHl]; [done|].
    cbn [List.filter]. rewrite bool_decide_eq_false_2 by apply not_elem_of_nil.
    cbn [negb]. by f_equal.
  - cbn [fold_left fst]. rewrite IH. unfold remove_phrase.
    cbn [name phrases]. f_equal.
    rewrite FilterFacts.filter_twice. apply List.filter_ext. intros e.
    rewrite fmap_cons. cbn [fst]. apply eq_true_iff_eq.
    rewrite andb_true_iff, !negb_true_iff, !bool_decide_eq_false.
    rewrite elem_of_cons. tauto.
Qed.

(** X21: [batch_remove_from_folder] leaves in every folder exactly the
    entries whose text is not among the texts selected for that folder,
    whatever their frequency; it creates and removes no folder. *)
Theorem batch_remove_from_folder_each (folders : gmap str Folder)
        (selected : list (str * str * Z)) :
  (forall k,
      batch_remove_from_folder folders selected !! k
      = (fun fd =>
           mkFolder (name fd)
             (List.filter
                (fun e : entry =>
                   negb (bool_decide
                           (e.1 ∈ (addressed_to k selected).*1)))
                (phrases fd)))
          <$> folders !! k) /\
  dom (batch_remove_from_folder folders selected) = dom folders.
Proof.
  assert (forall k,
             batch_remove_from_folder folders selected !! k
             = (fun fd => remove_all fd (addressed_to k selected))
                 <$> folders !! k) as Hlook.
  { unfold batch_remove_from_folder, addressed_to, remove_all.
    revert folders. induction selected as [|[[fn p] f] data IH];
      intros folders k.
    - cbn. by destruct (folders !! k).
    - cbn [fold_left List.filter fst snd].
      destruct (folders !! fn) as [fd|] eqn:Hfn.
      + rewrite IH. case_bool_decide as Hk.
        * subst fn. rewrite lookup_insert_eq, Hfn. done.
        * by rewrite lookup_insert_ne.
      + rewrite IH. case_bool_decide as Hk; [|done].
        subst fn. by rewrite Hfn. }
  split.
  - intros k. rewrite Hlook. destruct (folders !! k) as [fd|]; [|done].
    cbn. by rewrite remove_all_phrases.
  - apply set_eq. intros k. rewrite !elem_of_dom, Hlook.
    by rewrite fmap_is_Some.
Qed.

(** X22: removing a text right after adding it gives the folder back
    when the folder did not hold that text. *)
Theorem add_then_remove_phrase (fd : Folder) (phrase : str)
        (frequency : Z) :
  phrase ∉ (phrases fd).*1 ->
  remove_phrase (add_phrase fd phrase frequency) phrase = fd.
Proof.
  intros Hp. destruct fd as [n l]. unfold add_phrase, remove_phrase.
  cbn [phrases name] in *.
  assert (List.filter (fun e : entry => negb (bool_decide (e.1 = phrase))) l
          = l) as Hl.
  { induction l as [|e l IH]; [done|]. cbn [List.filter].
    rewrite fmap_cons, not_elem_of_cons in Hp. destruct Hp as [Hne Hp].
    rewrite bool_decide_eq_false_2 by done. cbn [negb]. f_equal.
    by apply IH. }
  case_bool_decide as Hin.
  - exfalso. apply Hp. apply list_elem_of_fmap. by exists (phrase, frequency).
  - cbn [phrases name]. f_equal. rewrite List.filter_app.
    cbn [List.filter fst]. rewrite bool_decide_eq_true_2 by done.
    cbn [negb]. rewrite app_nil_r. exact Hl.
Qed.

Lemma append_missing_eq (data : list entry)
      (selected : list (str * str * Z)) :
  append_missing data selected = data ++ brought_back data selected.
Proof.
  unfold append_missing, brought_back.
  set (existing := list_to_set _).
  assert (forall e : entry,
             bool_decide (strip (lower e.1) ∉ existing)
             = negb (existsb
                       (fun d : entry =>
                          bool_decide (strip (lower e.1)
                                       = strip (lower d.1))) data))
    as Hpred.
  { intros e. apply eq_true_iff_eq.
    rewrite bool_decide_eq_true, negb_true_iff, <- not_true_iff_false.
    rewrite existsb_exists. unfold existing.
    rewrite elem_of_list_to_set.
    change (List.map ?f ?l) with (f <$> l). rewrite list_elem_of_fmap.
    split; intros Hn (m & H1 & H2); apply Hn; exists m.
    - apply bool_decide_eq_true in H2.
      split; [done | by apply list_elem_of_In].
    - split; [by apply list_elem_of_In | by apply bool_decide_eq_true]. }
  rewrite <- (List.filter_ext _ _ Hpred). clear Hpred. clearbody existing.
  generalize data as d.
  induction selected as [|[[fn p] f] rest IH]; intros d.
  - cbn. by rewrite app_nil_r.
  - cbn [fold_left]. rewrite fmap_cons. cbn [List.filter fst snd].
    case_bool_decide; rewrite IH; [|done].
    by rewrite <- app_assoc.
Qed.

Lemma current_tab_lists (w : MainWindow) (lists : gmap str PhraseList) :
  get_current_tab
    (mkWindow lists (global_folders w) (folders_widget w)
              (general_folders w) (stop_words_widget w) (phrase_tabs w)
              (currentIndex w))
  = get_current_tab w.
Proof. done. Qed.

Lemma remove_from_general_spec (w0 : MainWindow) (tb : PhraseTab)
      (fn p : str) :
  get_current_tab w0 = Some tb ->
  general_folders (remove_from_general w0 fn p)
    = remove_from_folder (general_folders w0) fn p /\
  folders_widget (remove_from_general w0 fn p) = folders_widget w0 /\
  phrase_lists (remove_from_general w0 fn p) = phrase_lists w0 /\
  exists tb',
    get_current_tab (remove_from_general w0 fn p) = Some tb' /\
    tab_name tb' = tab_name tb /\
    current_data (table tb') = current_data (table tb).
Proof.
  intros Htab. unfold remove_from_general, remove_from_folder.
  destruct (general_folders w0 !! fn) as [fd|] eqn:Hfn.
  - split; [done|]. split; [done|]. split; [done|].
    destruct (WindowFacts.current_tab_index w0 tb Htab) as [Hidx Hlook].
    eexists. split.
    { unfold get_current_tab, update_all_tables_global_folders.
      cbn [currentIndex phrase_tabs].
      destruct (Z.ltb_spec (currentIndex w0) 0); [lia|].
      change (List.map ?f ?l) with (f <$> l).
      rewrite list_lookup_fmap, Hlook. reflexivity. }
    done.
  - split; [done|]. split; [done|]. split; [done|]. by exists tb.
Qed.

Lemma remove_from_folders_spec (selected : list (str * str * Z))
      (w0 : MainWindow) (tb : PhraseTab) (is_global : bool) :
  get_current_tab w0 = Some tb ->
  target_folders is_global (remove_from_folders w0 selected is_global)
    = batch_remove_from_folder (target_folders is_global w0) selected /\
  target_folders (negb is_global) (remove_from_folders w0 selected is_global)
    = target_folders (negb is_global) w0 /\
  phrase_lists (remove_from_folders w0 selected is_global)
    = phrase_lists w0 /\
  exists tb',
    get_current_tab (remove_from_folders w0 selected is_global) = Some tb' /\
    tab_name tb' = tab_name tb /\
    current_data (table tb') = current_data (table tb).
Proof.
  intros Htab. destruct is_global; cbn [target_folders negb].
  - unfold remove_from_folders, batch_remove_from_folder.
    revert w0 tb Htab.
    induction selected as [|[[fn p] f] rest IH]; intros w0 tb Htab.
    + cbn. split; [done|]. split; [done|]. split; [done|]. by exists tb.
    + cbn [fold_left].
      destruct (remove_from_general_spec w0 tb fn p Htab)
        as (Hg & Hf & Hl & tb1 & Htab1 & Hn1 & Hd1).
      destruct (IH _ tb1 Htab1) as (Hg' & Hf' & Hl' & tb2 & Htab2 & Hn2 & Hd2).
      rewrite Hg', Hf', Hl', Hg, Hf, Hl. split; [done|].
      split; [done|]. split; [done|].
      exists tb2. split; [done|]. split; congruence.
  - unfold remove_from_folders.
    set (w1 := mkWindow _ _ _ _ _ _ _).
    assert (get_current_tab w1 = Some tb) as Htab1 by exact Htab.
    unfold update_current_table_folders, get_current_table.
    rewrite Htab1. cbn [fmap option_fmap option_map].
    set (t1 := mkTable _ _ _ _).
    pose proof (WindowFacts.get_current_tab_set w1 tb t1 Htab1) as Htab2.
    unfold set_current_table in *. rewrite Htab1 in *.
    cbn [folders_widget general_folders phrase_lists w1].
    split; [done|]. split; [done|]. split; [done|].
    eexists. split; [exact Htab2|]. done.
Qed.

(** X23: [on_phrases_back] appends to the current list, in selection
    order, the selected pairs whose trimmed, lower-cased text is that of
    no entry of the list before the action (two selected pairs with the
    same new text are both appended); the entries already there stay in
    place.  Copying leaves the folders as they are, moving removes the
    selected texts from their folders. *)
Theorem on_phrases_back_spec (w : MainWindow) (tab : PhraseTab)
        (selected : list (str * str * Z)) (is_move is_global : bool) :
  window_ok w = true ->
  get_current_tab w = Some tab ->
  exists w' tab',
    on_phrases_back w selected is_move is_global = Ret w' /\
    get_current_tab w' = Some tab' /\
    tab_name tab' = tab_name tab /\
    current_data (table tab')
      = current_data (table tab)
          ++ brought_back (current_data (table tab)) selected /\
    pl_phrases <$> (phrase_lists w' !! tab_name tab)
      = Some (current_data (table tab')) /\
    target_folders (negb is_global) w' = target_folders (negb is_global) w /\
    target_folders is_global w'
      = if is_move
        then batch_remove_from_folder (target_folders is_global w) selected
        else target_folders is_global w.
Proof.
  intros Hok Htab.
  unfold window_ok in Hok. rewrite Htab in Hok.
  apply andb_true_iff in Hok as [Hpl Hidx].
  apply bool_decide_eq_true in Hpl as [pl Hpl]. apply Z.leb_le in Hidx.
  unfold on_phrases_back, get_current_table. rewrite Htab.
  cbn [fmap option_fmap option_map].
  unfold save_state at 1.
  rewrite HistoryFacts.add_state_ok by done.
  cbn [mbind outcome_bind obind current_data t_history t_folders
       t_global_folders].
  rewrite append_missing_eq.
  set (data' := current_data (table tab) ++ _).
  set (h := mkHistory _ _ _ _).
  set (t' := mkTable _ h _ _).
  pose proof (WindowFacts.get_current_tab_set w tab t' Htab) as Htab2.
  assert (phrase_lists (set_current_table w t') = phrase_lists w) as Hl2
    by (unfold set_current_table; by rewrite Htab).
  assert (forall g, target_folders g (set_current_table w t')
                    = target_folders g w) as Hf2
    by (intros []; unfold set_current_table; by rewrite Htab).
  set (w2 := set_current_table w t') in *.
  set (w3 := if is_move then remove_from_folders w2 selected is_global
             else w2).
  assert (phrase_lists w3 = phrase_lists w /\
          target_folders (negb is_global) w3
            = target_folders (negb is_global) w /\
          target_folders is_global w3
            = (if is_move
               then batch_remove_from_folder (target_folders is_global w)
                                             selected
               else target_folders is_global w) /\
          exists tb3, get_current_tab w3 = Some tb3 /\
                      tab_name tb3 = tab_name tab /\
                      current_data (table tb3) = data')
    as (Hl3 & Hn3 & Hg3 & tb3 & Htab3 & Hname3 & Hd3).
  { subst w3. destruct is_move.
    - destruct (remove_from_folders_spec selected w2 _ is_global Htab2)
        as (Hg & Hn & Hl & tb' & Ht & Hnm & Hd).
      rewrite Hl, Hn, Hg, !Hf2, Hl2. split; [done|]. split; [done|].
      split; [done|]. by exists tb'.
    - rewrite Hl2, !Hf2. split; [done|]. split; [done|]. split; [done|].
      by eexists. }
  clearbody w3. clear Htab2 Hl2 Hf2.
  unfold get_current_phrase_list. rewrite Htab3, Hl3, Hname3, Hpl.
  cbn [mbind outcome_bind obind].
  set (w4 := set_phrase_list w3 _ _).
  assert (get_current_tab w4 = Some tb3) as Htab4 by exact Htab3.
  unfold update_grouping_widget, update_global_grouping.
  erewrite (WindowFacts.sync_current_tab_spec w4);
    [|exact Htab4|rewrite Hname3; apply lookup_insert_eq].
  set (w5 := set_phrase_list w4 _ _).
  assert (get_current_tab w5 = Some tb3) as Htab5 by exact Htab4.
  erewrite (WindowFacts.sync_current_tab_spec w5);
    [|exact Htab5|apply lookup_insert_eq].
  eexists _, tb3. split; [reflexivity|].
  split; [exact Htab5|]. split; [done|]. split; [done|].
  split.
  { cbn [set_phrase_list phrase_lists]. rewrite Hname3.
    by rewrite lookup_insert_eq. }
  split.
  { rewrite <- Hn3. by destruct is_global. }
  rewrite <- Hg3. by destruct is_global.
Qed.

Lemma add_phrases_to_folder_missing (phrases : list entry)
      (folders : gmap str Folder) (folder_name : str) :
  folders !! folder_name = None ->
  add_phrases_to_folder folders
    (List.map (fun e : entry => (folder_name, e.1, e.2)) phrases)
  = folders.
Proof.
  intros Hfd. unfold add_phrases_to_folder.
  induction phrases as [|x rest IH]; [done|].
  cbn [List.map fold_left]. by rewrite Hfd.
Qed.

(** X24: moving phrases to a folder name that is no folder of the target
    widget stores them nowhere and still removes them from the current
    list. *)
Theorem move_to_missing_folder (w : MainWindow) (tab : PhraseTab)
        (folder_name : str) (phrases : list entry) (is_global : bool) :
  window_ok w = true ->
  get_current_tab w = Some tab ->
  target_folders is_global w !! folder_name = None ->
  exists w' tab',
    on_phrases_to_folder w folder_name phrases is_global true = Ret w' /\
    general_folders w' = general_folders w /\
    folders_widget w' = folders_widget w /\
    get_current_tab w' = Some tab' /\
    tab_name tab' = tab_name tab /\
    current_data (table tab')
      = not_moved phrases (current_data (table tab)).
Proof.
  intros Hok Htab Hfd.
  unfold window_ok in Hok. rewrite Htab in Hok.
  apply andb_true_iff in Hok as [Hpl Hidx].
  apply bool_decide_eq_true in Hpl as [pl Hpl]. apply Z.leb_le in Hidx.
  destruct (WindowFacts.current_tab_index w tab Htab) as [Hi Hlook].
  assert (exists w1 tab1 pl1,
             add_to_target w folder_name phrases is_global = Ret w1 /\
             general_folders w1 = general_folders w /\
             folders_widget w1 = folders_widget w /\
             get_current_tab w1 = Some tab1 /\
             phrase_lists w1 !! tab_name tab1 = Some pl1 /\
             tab_name tab1 = tab_name tab /\
             current_data (table tab1) = current_data (table tab) /\
             t_history (table tab1) = t_history (table tab))
    as (w1 & tab1 & pl1 & Hadd & Hg1 & Hf1 & Htab1 & Hpl1 & Hn1 & Hd1 & Hh1).
  { unfold add_to_target.
    destruct is_global; cbn [target_folders] in Hfd;
      rewrite add_phrases_to_folder_missing by done.
    - eexists _, _, pl. split; [reflexivity|].
      cbn [update_all_tables_global_folders general_folders folders_widget
           phrase_lists phrase_tabs currentIndex].
      split; [done|]. split; [done|]. split.
      { unfold get_current_tab. cbn [currentIndex phrase_tabs].
        destruct (Z.ltb_spec (currentIndex w) 0); [lia|].
        change (List.map ?f ?l) with (f <$> l).
        rewrite list_lookup_fmap, Hlook. reflexivity. }
      done.
    - set (w0 := mkWindow _ _ _ _ _ _ _).
      assert (get_current_tab w0 = Some tab) as Htab0 by exact Htab.
      unfold update_current_table_folders, get_current_table.
      rewrite Htab0. cbn [fmap option_fmap option_map].
      set (t1 := mkTable _ _ _ _).
      pose proof (WindowFacts.get_current_tab_set w0 tab t1 Htab0) as Htab1.
      unfold get_current_phrase_list. rewrite Htab1. cbn [tab_name].
      assert (phrase_lists (set_current_table w0 t1) !! tab_name tab
              = Some pl)
        as -> by (unfold set_current_table; by rewrite Htab0).
      cbn [mbind outcome_bind obind].
      eexists _, (mkTab (tab_name tab) t1), _. split; [reflexivity|].
      split; [unfold set_current_table; by rewrite Htab0|].
      split; [unfold set_current_table; by rewrite Htab0|].
      split; [exact Htab1|]. cbn [tab_name set_phrase_list phrase_lists].
      split; [apply lookup_insert_eq|]. done. }
  unfold on_phrases_to_folder. rewrite Hadd.
  cbn [mbind outcome_bind obind].
  destruct (WindowFacts.remove_from_source_spec w1 tab1 pl1 phrases
              Htab1 Hpl1)
    as (w' & tab' & Hrem & Hgf & Hfw & Htab' & Hname' & Hd' & _);
    [by rewrite Hh1|].
  exists w', tab'. split; [done|]. split; [congruence|].
  split; [congruence|]. split; [done|]. split; [congruence|].
  by rewrite Hd', Hd1.
Qed.

End Actions.

Import History Folder Window PhraseProcessor FolderActions.

Lemma add_then_remove_phrase_witness :
  remove_phrase (add_phrase (mkFolder (u8 "f") [(u8 "pear", 5)])
                            (u8 "apple") 7)
                (u8 "apple")
  = mkFolder (u8 "f") [(u8 "pear", 5)].
Proof.
  apply (add_then_remove_phrase (mkFolder (u8 "f") [(u8 "pear", 5)])
                                (u8 "apple") 7).
  vm_compute. intros H. apply list_elem_of_singleton in H. discriminate H.
Defined.

Lemma on_phrases_back_spec_witness :
  exists w' tab',
    @on_phrases_back Basic.platform Samples.sample_window
      [(u8 "f", u8 "APPLE", 7); (u8 "f", u8 "Plum", 2);
       (u8 "f", u8 "plum ", 3)] true false = Ret w' /\
    get_current_tab w' = Some tab' /\
    current_data (table tab')
      = [(u8 " Apple ", 100); (u8 "pear", 5); (u8 "Plum", 2);
         (u8 "plum ", 3)].
Proof.
  destruct (@on_phrases_back_spec Basic.platform Samples.sample_window
              (mkTab (u8 "t")
                 (mkTable [(u8 " Apple ", 100); (u8 "pear", 5)]
                    (set_initial_state (History.init 50)
                       [(u8 " Apple ", 100); (u8 "pear", 5)])
                    {[ u8 "f" := Folder.new (u8 "f") ]} ∅))
              [(u8 "f", u8 "APPLE", 7); (u8 "f", u8 "Plum", 2);
               (u8 "f", u8 "plum ", 3)] true false)
    as (w' & tab' & H1 & H2 & _ & H3 & _).
  - vm_compute. reflexivity.
  - vm_compute. reflexivity.
  - exists w', tab'. split; [exact H1|]. split; [exact H2|].
    rewrite H3. vm_compute. reflexivity.
Defined.

Lemma move_to_missing_folder_witness :
  exists w' tab',
    @on_phrases_to_folder Basic.platform Samples.sample_window (u8 "g")
      [(u8 "apple", 7)] false true = Ret w' /\
    folders_widget w' = folders_widget Samples.sample_window /\
    general_folders w' = general_folders Samples.sample_window /\
    get_current_tab w' = Some tab' /\
    current_data (table tab') = [(u8 "pear", 5)].
Proof.
  destruct (@move_to_missing_folder Basic.platform Samples.sample_window
              (mkTab (u8 "t")
                 (mkTable [(u8 " Apple ", 100); (u8 "pear", 5)]
                    (set_initial_state (History.init 50)
                       [(u8 " Apple ", 100); (u8 "pear", 5)])
                    {[ u8 "f" := Folder.new (u8 "f") ]} ∅))
              (u8 "g") [(u8 "apple", 7)] false)
    as (w' & tab' & H1 & H2 & H3 & H4 & _ & H5).
  - vm_compute. reflexivity.
  - vm_compute. reflexivity.
  - vm_compute. reflexivity.
  - exists w', tab'. split; [exact H1|]. split; [exact H3|].
    split; [exact H2|]. split; [exact H4|]. rewrite H5.
    vm_compute. reflexivity.
Defined.
End FolderActionFacts.

Module SearchFacts.
Section Searching.
Context `{P : Platform}.
Import PhraseProcessor Search.

Lemma matching_from_elem (t : SearchTable) (items : list (option str))
      (k row : nat) :
  row ∈ matching_from t k items ->
  exists text, (k <= row)%nat /\
               items !! (row - k)%nat = Some (Some text) /\
               is_match t text = true.
Proof.
  revert k. induction items as [|it rest IH]; intros k Hin.
  - by apply elem_of_nil in Hin.
  - assert (row ∈ matching_from t (S k) rest ->
            exists text, (k <= row)%nat /\
                         (it :: rest) !! (row - k)%nat = Some (Some text) /\
                         is_match t text = true) as Hrest.
    { intros (text & Hle & Hl & Hm)%IH. exists text.
      split; [lia|]. split; [|done].
      replace (row - k)%nat with (S (row - S k)) by lia. done. }
    cbn [matching_from] in Hin. destruct it as [text|]; [|by apply Hrest].
    destruct (is_match t text) eqn:Hm; [|by apply Hrest].
    apply elem_of_cons in Hin as [->|Hin]; [|by apply Hrest].
    exists text. split; [lia|]. split; [|done].
    by replace (k - k)%nat with 0%nat by lia.
Qed.

Lemma matching_from_ext (t t' : SearchTable) (items : list (option str))
      (k : nat) :
  search_text t' = search_text t -> exact_search t' = exact_search t ->
  matching_from t' k items = matching_from t k items.
Proof.
  intros Ht He. revert k.
  induction items as [|it rest IH]; intros k; [done|].
  cbn [matching_from]. unfold is_match. rewrite Ht, He, !IH. done.
Qed.

Lemma list_index_in_range {A} (l : list A) (i : Z) :
  0 <= i < Z.of_nat (length l) ->
  exists x, list_index l i = Ret x /\ l !! Z.to_nat i = Some x.
Proof.
  intros Hi. unfold list_index.
  destruct (Z.ltb_spec i 0); [lia|].
  destruct (Z.ltb_spec i 0); [lia|].
  destruct (Z.leb_spec (Z.of_nat (length l)) i); [lia|].
  cbn [orb].
  destruct (lookup_lt_is_Some_2 l (Z.to_nat i)) as [x Hx]; [lia|].
  rewrite Hx. by exists x.
Qed.

Lemma search_result_lands (step : Z) (t : SearchTable) :
  get_matching_rows t <> [] -> lands_on t (search_result step t).
Proof.
  intros Hne. unfold search_result, lands_on.
  destruct (get_matching_rows t) as [|r0 rs] eqn:Hrows; [done|].
  set (n := Z.of_nat (length (r0 :: rs))).
  assert (0 < n) as Hn by (subst n; cbn [length]; lia).
  pose proof (Z.mod_pos_bound (current_search_index t + step) n Hn) as Hi.
  destruct (list_index_in_range (r0 :: rs)
              ((current_search_index t + step) `mod` n) Hi)
    as (row & Hget & Hrow).
  rewrite Hget. cbn [mbind outcome_bind obind].
  assert (row ∈ matching_from t 0 (rows t)) as Hin.
  { fold (get_matching_rows t). rewrite Hrows.
    by eapply list_elem_of_lookup_2. }
  apply matching_from_elem in Hin as (text & _ & Hl & Hm).
  rewrite Nat.sub_0_r in Hl.
  exists (mkSearch (rows t) (search_text t) (exact_search t)
                   ((current_search_index t + step) `mod` n) (Some row)),
    row, text.
  cbn [current_search_index selected_row rows search_text exact_search].
  done.
Qed.

(** X25: when some row matches, [next_search_result] and
    [prev_search_result] return normally whatever the stored index is,
    report a position between 1 and the number of matching rows, and
    select the matching row at that position. *)
Theorem search_steps_in_range (t : SearchTable) :
  get_matching_rows t <> [] ->
  lands_on t (next_search_result t) /\ lands_on t (prev_search_result t).
Proof.
  intros Hne. split; by apply search_result_lands.
Qed.

Lemma search_result_index (step : Z) (t : SearchTable) :
  get_matching_rows t <> [] ->
  exists t' r,
    search_result step t = Ret (t', r) /\
    current_search_index t'
      = (current_search_index t + step)
          `mod` Z.of_nat (length (get_matching_rows t)) /\
    get_matching_rows t' = get_matching_rows t.
Proof.
  intros Hne. unfold search_result.
  destruct (get_matching_rows t) as [|r0 rs] eqn:Hrows; [done|].
  set (n := Z.of_nat (length (r0 :: rs))).
  assert (0 < n) as Hn by (subst n; cbn [length]; lia).
  pose proof (Z.mod_pos_bound (current_search_index t + step) n Hn) as Hi.
  destruct (list_index_in_range (r0 :: rs)
              ((current_search_index t + step) `mod` n) Hi)
    as (row & Hget & Hrow).
  rewrite Hget. cbn [mbind outcome_bind obind].
  eexists _, _. split; [reflexivity|]. split; [done|].
  rewrite <- Hrows. unfold get_matching_rows. cbn [rows].
  by apply matching_from_ext.
Qed.

(** X26: from an index within the matching rows, one step forward and
    one step back (or back and forward) return to that index. *)
Theorem search_step_round_trip (t : SearchTable) :
  0 <= current_search_index t
    < Z.of_nat (length (get_matching_rows t)) ->
  (exists t1 r1 t2 r2,
      next_search_result t = Ret (t1, r1) /\
      prev_search_result t1 = Ret (t2, r2) /\
      current_search_index t2 = current_search_index t) /\
  (exists t1 r1 t2 r2,
      prev_search_result t = Ret (t1, r1) /\
      next_search_result t1 = Ret (t2, r2) /\
      current_search_index t2 = current_search_index t).
Proof.
  intros Hi.
  assert (get_matching_rows t <> []) as Hne.
  { intros E. rewrite E in Hi. cbn [length] in Hi. lia. }
  set (n := Z.of_nat (length (get_matching_rows t))) in *.
  assert (forall a b : Z,
             a + b = 0 ->
             exists t1 r1 t2 r2,
               search_result a t = Ret (t1, r1) /\
               search_result b t1 = Ret (t2, r2) /\
               current_search_index t2 = current_search_index t) as Hgo.
  { intros a b Hab.
    destruct (search_result_index a t Hne) as (t1 & r1 & H1 & Hi1 & Hr1).
    destruct (search_result_index b t1) as (t2 & r2 & H2 & Hi2 & Hr2);
      [by rewrite Hr1|].
    exists t1, r1, t2, r2. split; [done|]. split; [done|].
    rewrite Hi2, Hr1, Hi1. fold n.
    rewrite Zplus_mod_idemp_l.
    replace (current_search_index t + a + b) with (current_search_index t)
      by lia.
    by apply Z.mod_small. }
  split; apply Hgo; lia.
Qed.

Lemma search_word_contains (prev : bool) (needle hay : str) :
  search_word prev needle hay = true -> str_contains needle hay = true.
Proof.
  revert prev. induction hay as [|c hay IH]; intros prev;
    cbn [search_word str_contains]; case_bool_decide; try done.
  cbn [andb orb]. apply IH.
Qed.

(** X27: a phrase that matches in exact (whole-word) mode matches in
    plain mode too. *)
Theorem exact_match_is_match (t : SearchTable) (phrase : str) :
  is_match (mkSearch (rows t) (search_text t) true
                     (current_search_index t) (selected_row t)) phrase
    = true ->
  is_match (mkSearch (rows t) (search_text t) false
                     (current_search_index t) (selected_row t)) phrase
    = true.
Proof. unfold is_match. cbn [exact_search search_text].
       apply search_word_contains. Qed.

End Searching.

Import PhraseProcessor Search.

Lemma search_steps_in_range_witness :
  @lands_on Basic.platform
    (mkSearch [Some (u8 "red apple"); None; Some (u8 "pear");
               Some (u8 "Apple pie")] (u8 "apple") true 7 None)
    (@next_search_result Basic.platform
       (mkSearch [Some (u8 "red apple"); None; Some (u8 "pear");
                  Some (u8 "Apple pie")] (u8 "apple") true 7 None)) /\
  @lands_on Basic.platform
    (mkSearch [Some (u8 "red apple"); None; Some (u8 "pear");
               Some (u8 "Apple pie")] (u8 "apple") true 7 None)
    (@prev_search_result Basic.platform
       (mkSearch [Some (u8 "red apple"); None; Some (u8 "pear");
                  Some (u8 "Apple pie")] (u8 "apple") true 7 None)).
Proof.
  apply (@search_steps_in_range Basic.platform). vm_compute. discriminate.
Defined.

Lemma search_step_round_trip_witness :
  exists t1 r1 t2 r2,
    @next_search_result Basic.platform
      (mkSearch [Some (u8 "red apple"); None; Some (u8 "pear");
                 Some (u8 "Apple pie")] (u8 "apple") false 1 None)
      = Ret (t1, r1) /\
    @prev_search_result Basic.platform t1 = Ret (t2, r2) /\
    current_search_index t2 = 1.
Proof.
  apply (@search_step_round_trip Basic.platform
           (mkSearch [Some (u8 "red apple"); None; Some (u8 "pear");
                      Some (u8 "Apple pie")] (u8 "apple") false 1 None)).
  vm_compute. split; [discriminate | reflexivity].
Defined.

Lemma exact_match_is_match_witness :
  @is_match Basic.platform
    (mkSearch [] (u8 "Apple") false 0 None) (u8 "red apple, green pear")
  = true.
Proof.
  apply (@exact_match_is_match Basic.platform
           (mkSearch [] (u8 "Apple") false 0 None)
           (u8 "red apple, green pear")).
  vm_compute. reflexivity.
Defined.
End SearchFacts.

Module LicenseFacts.
Import PhraseProcessor Shapes License.

Lemma upper_hex_not_space (c : char) :
  is_upper_hex c = true -> isspace c = false.
Proof.
  unfold is_upper_hex, isspace. intros Hc.
  apply not_true_iff_false. intros Hs.
  rewrite !orb_true_iff, !andb_true_iff, !N.leb_le in Hc.
  rewrite !orb_true_iff, !andb_true_iff, !N.leb_le, !N.eqb_eq in Hs.
  lia.
Qed.

Lemma ascii_upper_hex (c : char) :
  is_hex c = true -> is_upper_hex (ascii_upper c) = true.
Proof.
  unfold is_hex, is_upper_hex, ascii_upper. intros Hc.
  rewrite !orb_true_iff, !andb_true_iff, !N.leb_le in Hc.
  destruct ((97 <=? c) && (c <=? 122))%N eqn:E.
  - rewrite andb_true_iff, !N.leb_le in E.
    rewrite !orb_true_iff, !andb_true_iff, !N.leb_le. lia.
  - rewrite andb_false_iff, !N.leb_gt in E.
    rewrite !orb_true_iff, !andb_true_iff, !N.leb_le. lia.
Qed.

Lemma ascii_upper_fixed (c : char) :
  is_upper_hex c = true \/ c = 45%N -> ascii_upper c = c.
Proof.
  unfold is_upper_hex, ascii_upper. intros Hc.
  rewrite !orb_true_iff, !andb_true_iff, !N.leb_le in Hc.
  destruct ((97 <=? c) && (c <=? 122))%N eqn:E; [|done].
  rewrite andb_true_iff, !N.leb_le in E. lia.
Qed.

Lemma hex_ascii (c : char) : is_hex c = true -> (c <? 128)%N = true.
Proof.
  unfold is_hex. intros Hc.
  rewrite !orb_true_iff, !andb_true_iff, !N.leb_le in Hc.
  apply N.ltb_lt. lia.
Qed.

Lemma upper_hex_ascii (c : char) :
  is_upper_hex c = true \/ c = 45%N -> (c <? 128)%N = true.
Proof.
  unfold is_upper_hex. intros Hc.
  rewrite !orb_true_iff, !andb_true_iff, !N.leb_le in Hc.
  apply N.ltb_lt. lia.
Qed.

Lemma lstrip_pad (pad s : str) :
  forallb isspace pad = true -> lstrip (pad ++ s) = lstrip s.
Proof.
  induction pad as [|c pad IH]; [done|]. cbn [forallb app lstrip].
  intros [Hc Hp]%andb_true_iff. rewrite Hc. by apply IH.
Qed.

Lemma forallb_reverse (f : char -> bool) (l : str) :
  forallb f l = true -> forallb f (reverse l) = true.
Proof.
  rewrite !forallb_forall. intros Hl x Hx. apply Hl.
  apply list_elem_of_In. apply list_elem_of_In in Hx.
  by rewrite elem_of_reverse in Hx.
Qed.

Lemma strip_padded (pad1 pad2 s : str) :
  forallb isspace pad1 = true -> forallb isspace pad2 = true ->
  s <> [] -> starts_clean s -> ends_clean s ->
  strip (pad1 ++ s ++ pad2) = s.
Proof.
  intros H1 H2 Hne Hs He. unfold strip.
  rewrite lstrip_pad by done.
  rewrite (StripFacts.lstrip_clean (s ++ pad2))
    by (destruct s; [done | exact Hs]).
  unfold rstrip. rewrite reverse_app.
  rewrite lstrip_pad by (by apply forallb_reverse).
  by apply StripFacts.rstrip_clean.
Qed.

Section Keys.
Context `{P : Platform} `{H : Hashes}.

(** what the two functions format: sixteen upper-case hexadecimal
    characters *)
Lemma formatted_facts (k pad1 pad2 : str) :
  length k = 16%nat -> forallb is_upper_hex k = true ->
  forallb isspace pad1 = true -> forallb isspace pad2 = true ->
  key_shape (join (u8 "-") (groups_of_four k)) /\
  strip (pad1 ++ join (u8 "-") (groups_of_four k) ++ pad2)
    = join (u8 "-") (groups_of_four k) /\
  forallb (fun c => (c <? 128)%N) (join (u8 "-") (groups_of_four k)) = true /\
  ascii_upper <$> join (u8 "-") (groups_of_four k)
    = join (u8 "-") (groups_of_four k).
Proof.
  intros Hlen Hhex Hp1 Hp2.
  do 16 (destruct k as [|? k]; [discriminate Hlen|]).
  destruct k; [|discriminate Hlen]. clear Hlen.
  cbn [forallb] in Hhex.
  repeat (apply andb_true_iff in Hhex as [? Hhex]). clear Hhex.
  change (join (u8 "-") (groups_of_four [n; n0; n1; n2; n3; n4; n5; n6; n7;
                                         n8; n9; n10; n11; n12; n13; n14]))
    with [n; n0; n1; n2; 45%N; n3; n4; n5; n6; 45%N; n7; n8; n9; n10; 45%N;
          n11; n12; n13; n14].
  split; [|split; [|split]].
  - exists [n; n0; n1; n2], [n3; n4; n5; n6], [n7; n8; n9; n10],
      [n11; n12; n13; n14].
    split; [reflexivity|].
    repeat constructor; cbn [forallb]; rewrite ?andb_true_iff; auto 10.
  - apply strip_padded; [done | done | done | |].
    + by apply upper_hex_not_space.
    + unfold ends_clean. change (starts_clean (n14 :: _)) with
        (isspace n14 = false). by apply upper_hex_not_space.
  - cbn [forallb]. rewrite !andb_true_iff.
    repeat split; apply upper_hex_ascii; auto.
  - cbn [fmap list_fmap]. repeat f_equal; apply ascii_upper_fixed; auto.
Qed.

(** X28: the key that key_generator.py makes for a hardware id is the key
    the application expects for it; it has the shape
    XXXX-XXXX-XXXX-XXXX of digits and letters A to F, and
    [verify_license] accepts it, also with white space around it. *)
Theorem generated_key_verifies (hardware_id pad1 pad2 : str) :
  sha256_is_hex -> upper_is_ascii ->
  forallb isspace pad1 = true -> forallb isspace pad2 = true ->
  generate_key_for_hardware hardware_id
    = _generate_license_key hardware_id /\
  key_shape (generate_key_for_hardware hardware_id) /\
  verify_license hardware_id
    (pad1 ++ generate_key_for_hardware hardware_id ++ pad2) = true.
Proof.
  intros Hsha Hup Hp1 Hp2. split; [reflexivity|].
  unfold verify_license, generate_key_for_hardware, _generate_license_key.
  fold secret. change self_secret with secret.
  set (hash3 := sha256 _).
  assert (length hash3 = 64%nat /\ forallb is_hex hash3 = true)
    as [Hlen Hhex] by apply Hsha.
  assert (forallb is_hex (take 16 hash3) = true) as Hhex16.
  { apply forallb_forall. intros c Hc. rewrite forallb_forall in Hhex.
    apply Hhex. apply list_elem_of_In. apply list_elem_of_In in Hc.
    by apply (subseteq_take 16 hash3). }
  rewrite (Hup (take 16 hash3)).
  2:{ apply forallb_forall. intros c Hc. apply hex_ascii.
      rewrite forallb_forall in Hhex16. by apply Hhex16. }
  set (k := ascii_upper <$> take 16 hash3).
  assert (length k = 16%nat) as Hk.
  { subst k. rewrite length_fmap, length_take.
    clearbody hash3. unfold str, char in *. lia. }
  assert (forallb is_upper_hex k = true) as Hku.
  { subst k. apply forallb_forall. intros c Hc.
    apply list_elem_of_In, list_elem_of_fmap in Hc as (c0 & -> & Hc0).
    apply ascii_upper_hex. rewrite forallb_forall in Hhex16.
    by apply Hhex16, list_elem_of_In. }
  destruct (formatted_facts k pad1 pad2 Hk Hku Hp1 Hp2)
    as (Hshape & Hstrip & Hascii & Hfix).
  split; [done|]. apply bool_decide_eq_true.
  rewrite Hstrip, (Hup _ Hascii). exact Hfix.
Qed.

End Keys.

Lemma toy_digest_hex : @sha256_is_hex toy_hashes.
Proof.
  intros s. cbn [sha256 toy_hashes]. unfold toy_digest. split.
  - apply length_replicate.
  - apply forallb_forall. intros c Hc.
    apply list_elem_of_In, elem_of_replicate in Hc as [-> _].
    by destruct (length s mod 2 =? 0)%nat.
Qed.

Lemma basic_upper_ascii : @upper_is_ascii Basic.platform.
Proof.
  intros s Hs. cbn [upper Basic.platform].
  change (List.map ?f ?l) with (f <$> l).
  apply list_fmap_ext. intros i c Hc.
  rewrite forallb_forall in Hs.
  assert ((c <? 128)%N = true) as Hlt.
  { apply Hs, list_elem_of_In. by eapply list_elem_of_lookup_2. }
  apply N.ltb_lt in Hlt. unfold Basic.upper_char, ascii_upper.
  destruct ((97 <=? c) && (c <=? 122))%N; [done|].
  destruct (N.leb_spec 1072 c); [|cbn [andb]].
  - destruct (N.leb_spec c 1103); cbn [andb]; [lia|].
    destruct (N.eqb_spec c 1105); [lia | done].
  - destruct (N.eqb_spec c 1105); [lia | done].
Qed.

Lemma generated_key_verifies_witness :
  @generate_key_for_hardware Basic.platform toy_hashes (u8 "0a1b")
    = @_generate_license_key Basic.platform toy_hashes (u8 "0a1b") /\
  @key_shape (@generate_key_for_hardware Basic.platform toy_hashes
                (u8 "0a1b")) /\
  @verify_license Basic.platform toy_hashes (u8 "0a1b")
    (u8 " " ++ @generate_key_for_hardware Basic.platform toy_hashes
                 (u8 "0a1b") ++ [10%N]) = true.
Proof.
  apply (@generated_key_verifies Basic.platform toy_hashes (u8 "0a1b")
           (u8 " ") [10%N]).
  - exact toy_digest_hex.
  - exact basic_upper_ascii.
  - reflexivity.
  - reflexivity.
Defined.
End LicenseFacts.
